(** * Account summarizer: extraction-and-selection pipeline

    A shallow embedding of the three summarizer scripts of the repository

      - [src/account_summarizer.py]               (module [V1])
      - [src/scripts/account_summarizer.py]       (module [Orbit])
      - [src/scripts/account_summarizer_v3.py]    (module [V3])

    together with the properties of the tokenizer, the sentence segmenter,
    the rankers, the deduplicating quota sampler, the round-robin sampler,
    the date extractor and the text loaders.

    Modelling conventions.
      - Text is a [string] of ASCII characters ([Text.is_ascii]): the
        classes [\s], [\w] and [A-Z], and [str.lower], are those of ASCII
        text.  A character above 127 stands for no character of such a text;
        the scanners take it for neither a letter, a digit, white space nor
        a word character, and lowering leaves it alone.
      - A Python float is the rational it stands for ([Qc]).  The TF-IDF
        scores are computed as the interpreter computes them, every
        operation rounded to the nearest binary64 float; a similarity is the
        quotient of two set sizes.
      - A regular expression is embedded as the scanner it denotes on such
        text; each scanner quotes its pattern.
      - A Python [dict] whose iteration order matters is an association list
        in insertion order; a [Counter] read only through lookups is a [gmap];
        a [set] of tokens is a [gset]. *)

From stdpp Require Import base decidable option list strings gmap numbers sorting.
From Stdlib Require Import Ascii NArith ZArith QArith Qcanon Lia.
From Stdlib Require OrderedTypeEx.

Open Scope string_scope.
Open Scope list_scope.
Open Scope nat_scope.

Set Warnings "-register-all".

(** ** Characters and the string primitives of Python the scripts use *)

Module Text.

Definition code (c : ascii) : N := N_of_ascii c.

Definition in_range (lo hi : N) (c : ascii) : bool :=
  ((lo <=? code c) && (code c <=? hi))%N.

Definition is_upper : ascii → bool := in_range 65 90.
Definition is_lower : ascii → bool := in_range 97 122.
Definition is_digit : ascii → bool := in_range 48 57.

(** [\s] and [str.isspace] on ASCII: TAB, LF, VT, FF, CR, the four
    separators FS, GS, RS, US, and the space. *)
Definition is_space (c : ascii) : bool := in_range 9 13 c || in_range 28 32 c.

(** [\w] on ASCII: letters, digits and the underscore. *)
Definition is_word (c : ascii) : bool :=
  is_upper c || is_lower c || is_digit c || bool_decide (c = "_"%char).

Definition lower_char (c : ascii) : ascii :=
  if is_upper c then ascii_of_N (code c + 32) else c.

(** [str.lower()] on ASCII text: the letters [A] to [Z] become [a] to [z]. *)
Fixpoint lower (s : string) : string :=
  match s with
  | EmptyString => EmptyString
  | String c s' => String (lower_char c) (lower s')
  end.

Definition snoc (s : string) (c : ascii) : string := s +:+ String c EmptyString.

Definition emit (cur : string) : list string :=
  match cur with EmptyString => [] | _ => [cur] end.

(** [re.findall(r"[...]+", s)] for a character class [p]: the maximal runs
    of characters of the class, from left to right.  [cur] is the run being
    read. *)
Fixpoint findall_runs (p : ascii → bool) (cur s : string) : list string :=
  match s with
  | EmptyString => emit cur
  | String c s' =>
      if p c then findall_runs p (snoc cur c) s'
      else emit cur ++ findall_runs p EmptyString s'
  end.

Definition findall_class (p : ascii → bool) (s : string) : list string :=
  findall_runs p EmptyString s.

(** Every character of [s] satisfies [p]. *)
Fixpoint all_chars (p : ascii → bool) (s : string) : bool :=
  match s with
  | EmptyString => true
  | String c s' => p c && all_chars p s'
  end.

(** [str.isascii()] *)
Definition is_ascii (s : string) : bool := all_chars (λ c, (code c <? 128)%N) s.

(** The sentence boundary
    [SENTENCE_SPLIT_RE = (?<=[.!?])\s+(?=[A-Z0-9\[\(])]. *)
Definition ends_sentence (prev : option ascii) : bool :=
  match prev with
  | Some c => bool_decide (c = "."%char) || bool_decide (c = "!"%char)
              || bool_decide (c = "?"%char)
  | None => false
  end.

Definition starts_sentence (s : string) : bool :=
  match s with
  | String c _ => is_upper c || is_digit c || bool_decide (c = "["%char)
                  || bool_decide (c = "("%char)
  | EmptyString => false
  end.

(** The first character that is not white space, with what follows it. *)
Fixpoint skip_ws (s : string) : string :=
  match s with
  | EmptyString => EmptyString
  | String c s' => if is_space c then skip_ws s' else s
  end.

(** [SENTENCE_SPLIT_RE.split(s)].  A match is a whole run of white space
    that stands behind one of [.!?] and in front of a capital, a digit or
    an opening bracket; the pieces between the matches are returned.
    [prev] is the character read last, [in_match] tells that the scanner is
    inside a matched run, [cur] is the piece being read. *)
Fixpoint split_scan (prev : option ascii) (in_match : bool) (cur s : string)
    : list string :=
  match s with
  | EmptyString => [cur]
  | String c s' =>
      if in_match && is_space c then split_scan (Some c) true cur s'
      else if is_space c && ends_sentence prev && starts_sentence (skip_ws s')
      then cur :: split_scan (Some c) true EmptyString s'
      else split_scan (Some c) false (snoc cur c) s'
  end.

Definition sentence_split (s : string) : list string :=
  split_scan None false EmptyString s.

(** The date pattern
    [\b(20\d{2})[-/](0[1-9]|1[0-2])[-/](0[1-9]|[12]\d|3[01])\b]. *)
Definition is_date_sep (c : ascii) : bool :=
  bool_decide (c = "-"%char) || bool_decide (c = "/"%char).

(** [0[1-9]|1[0-2]] *)
Definition is_month (a b : ascii) : bool :=
  (bool_decide (a = "0"%char) && in_range 49 57 b)
  || (bool_decide (a = "1"%char) && in_range 48 50 b).

(** [0[1-9]|[12]\d|3[01]] *)
Definition is_day (a b : ascii) : bool :=
  (bool_decide (a = "0"%char) && in_range 49 57 b)
  || ((bool_decide (a = "1"%char) || bool_decide (a = "2"%char)) && is_digit b)
  || (bool_decide (a = "3"%char) && in_range 48 49 b).

(** [\b] in front of a word character: the text starts here or the
    character before is no word character. *)
Definition boundary_before (prev : option ascii) : bool :=
  match prev with Some c => negb (is_word c) | None => true end.

(** [\b] behind a word character: the text ends here or the next
    character is no word character. *)
Definition boundary_after (s : string) : bool :=
  match s with String c _ => negb (is_word c) | EmptyString => true end.

Definition str2 (a b : ascii) : string := String a (String b EmptyString).

(** The pattern without its leading [\b], matched at the start of [s]: the
    three groups (year, month, day). *)
Definition date_at (s : string) : option (string * string * string) :=
  match s with
  | String y1 (String y2 (String y3 (String y4 (String p1 (String m1
      (String m2 (String p2 (String d1 (String d2 rest))))))))) =>
      if bool_decide (y1 = "2"%char) && bool_decide (y2 = "0"%char)
         && is_digit y3 && is_digit y4
         && is_date_sep p1 && is_month m1 m2
         && is_date_sep p2 && is_day d1 d2
         && boundary_after rest
      then Some (str2 y1 y2 +:+ str2 y3 y4, str2 m1 m2, str2 d1 d2)
      else None
  | _ => None
  end.

(** [pattern.findall(s)]: the matches from left to right, none overlapping
    another.  A match is ten characters long; [skip] counts the characters
    of the last match still to be passed over. *)
Fixpoint findall_dates (prev : option ascii) (skip : nat) (s : string)
    : list (string * string * string) :=
  match s with
  | EmptyString => []
  | String c s' =>
      match skip with
      | S k => findall_dates (Some c) k s'
      | O =>
          if boundary_before prev then
            match date_at s with
            | Some d => d :: findall_dates (Some c) 9 s'
            | None => findall_dates (Some c) 0 s'
            end
          else findall_dates (Some c) 0 s'
      end
  end.

End Text.

(** ** The Python built-ins the scripts rely on *)

Module Py.

(** Exceptions that the modelled code can meet.  [OSError] stands for its
    whole family (missing file, permission denied, a directory); the two
    decoding errors are subclasses of [ValueError], not of [OSError]. *)
Inductive exn : Type :=
  | OSError
  | UnicodeDecodeError
  | JSONDecodeError
  | RecursionError
  | TypeError
  | IndexError
  | ZeroDivisionError.

Definition is_OSError (e : exn) : bool :=
  match e with OSError => true | _ => false end.

Definition is_JSONDecodeError (e : exn) : bool :=
  match e with JSONDecodeError => true | _ => false end.

(** All of the above derive from [Exception]. *)
Definition is_Exception (e : exn) : bool := true.

(** A computation that returns or raises. *)
Inductive result (A : Type) : Type :=
  | Ok (a : A)
  | Raise (e : exn).
Arguments Ok {A} a.
Arguments Raise {A} e.

Definition bind {A B} (m : result A) (k : A → result B) : result B :=
  match m with Ok a => k a | Raise e => Raise e end.

Module Import Notations.
Notation "x ←! m ; k" := (bind m (λ x, k))
  (at level 20, m at level 100, k at level 200, only parsing).
End Notations.

(** [try: m  except <class>: handler]. *)
Definition try_except {A} (m : result A) (catches : exn → bool)
    (handler : result A) : result A :=
  match m with
  | Ok a => Ok a
  | Raise e => if catches e then handler else Raise e
  end.

(** A comprehension [[f(x) for x in l]] whose body may raise. *)
Fixpoint mapM {A B} (f : A → result B) (l : list A) : result (list B) :=
  match l with
  | [] => Ok []
  | x :: l' => y ←! f x; ys ←! mapM f l'; Ok (y :: ys)
  end.

(** [a // b] on integers: the quotient rounded down. *)
Definition floordiv (a b : Z) : result Z :=
  if bool_decide (b = 0%Z) then Raise ZeroDivisionError else Ok (a `div` b)%Z.

(** The slice [l[:n]]: the first [n] items, and for a negative [n] all but
    the last [-n]. *)
Definition slice_to {A} (n : Z) (l : list A) : list A :=
  if bool_decide (0 ≤ n)%Z then take (Z.to_nat n) l
  else take (length l - Z.to_nat (- n)) l.

(** [re.sub(r"\s+", " ", s)]: [in_ws] tells that the previous character
    was white space. *)
Fixpoint collapse_ws (in_ws : bool) (s : string) : string :=
  match s with
  | EmptyString => EmptyString
  | String c s' =>
      if Text.is_space c
      then (if in_ws then collapse_ws true s'
            else String " "%char (collapse_ws true s'))
      else String c (collapse_ws false s')
  end.

Fixpoint lstrip (s : string) : string :=
  match s with
  | EmptyString => EmptyString
  | String c s' => if Text.is_space c then lstrip s' else s
  end.

Fixpoint rstrip (s : string) : string :=
  match s with
  | EmptyString => EmptyString
  | String c s' =>
      match rstrip s' with
      | EmptyString => if Text.is_space c then EmptyString else String c EmptyString
      | r => String c r
      end
  end.

(** [str.strip()] *)
Definition strip (s : string) : string := rstrip (lstrip s).

(** [str.split()]: the maximal runs of characters that are not white
    space. *)
Definition split (s : string) : list string :=
  Text.findall_class (λ c, negb (Text.is_space c)) s.

(** [str.endswith] *)
Definition endswith (s suffix : string) : bool :=
  bool_decide (String.length suffix ≤ String.length s) &&
  String.eqb (String.substring (String.length s - String.length suffix)
                               (String.length suffix) s) suffix.

(** [needle in haystack], on strings. *)
Fixpoint contains (needle haystack : string) : bool :=
  String.prefix needle haystack ||
  match haystack with
  | EmptyString => false
  | String _ rest => contains needle rest
  end.

(** [sep.join(l)] *)
Fixpoint join (sep : string) (l : list string) : string :=
  match l with
  | [] => EmptyString
  | [x] => x
  | x :: l' => x +:+ sep +:+ join sep l'
  end.

(** [collections.Counter]: a missing key counts as zero. *)
Definition count (c : gmap string nat) (k : string) : nat := default 0 (c !! k).

Definition incr (c : gmap string nat) (k : string) : gmap string nat :=
  <[k := S (count c k)]> c.

(** [Counter(l)] *)
Definition Counter (l : list string) : gmap string nat := foldl incr ∅ l.

Definition Qc_of_nat (n : nat) : Qc := Qc_of_Z (Z.of_nat n).

(** ** Floats

    A Python [float] is an IEEE 754 binary64 number.  The floats met here
    are finite, so a float is the rational it stands for, and an operation
    on floats is the exact operation followed by the rounding of IEEE 754:
    to the nearest float, a tie going to the float whose significand is
    even.  A float has a significand of 53 bits and an exponent of at least
    -1074.  No list is long enough for a score to pass the largest float,
    so there is no infinity here. *)

(** [n / d] rounded to the nearest integer, a tie to the even one
    ([0 ≤ n], [0 < d]). *)
Definition round_half_even (n d : Z) : Z :=
  let q := (n `div` d)%Z in
  match Z.compare (2 * (n `mod` d)) d with
  | Lt => q
  | Gt => (q + 1)%Z
  | Eq => if Z.even q then q else (q + 1)%Z
  end.

(** [2 ^ e] for an exponent that is not negative, 1 for the others. *)
Definition pow2 (e : Z) : Z := (2 ^ (0 `max` e))%Z.

(** The exponent of the float nearest to [n / d] ([0 < n], [0 < d]): the
    [e] with [2^52 ≤ (n / d) / 2^e < 2^53], and -1074 below the normal
    range. *)
Definition float_exponent (n d : Z) : Z :=
  let e := (Z.log2 n - Z.log2 d - 52)%Z in
  let e := if bool_decide (n * pow2 (- e) < d * pow2 e * 2 ^ 52)%Z
           then (e - 1)%Z else e in
  (e `max` (-1074))%Z.

(** The float nearest to the rational [q]. *)
Definition round64 (q : Qc) : Qc :=
  let n := Qnum q in
  let d := Z.pos (Qden q) in
  if bool_decide (n = 0%Z) then 0%Qc
  else
    let e := float_exponent (Z.abs n) d in
    let m := round_half_even (Z.abs n * pow2 (- e)) (d * pow2 e) in
    (Qc_of_Z (Z.sgn n * m * pow2 e) / Qc_of_Z (pow2 (- e)))%Qc.

(** [a + b], [a - b] and [a * b] on floats. *)
Definition fadd (a b : Qc) : Qc := round64 (a + b).
Definition fsub (a b : Qc) : Qc := round64 (a - b).
Definition fmul (a b : Qc) : Qc := round64 (a * b).

(** [a / b] on two integers: the quotient, correctly rounded. *)
Definition truediv (a b : nat) : Qc := round64 (Qc_of_nat a / Qc_of_nat b).

(** An integer that meets a float in an operation is made a float. *)
Definition float_of_nat (n : nat) : Qc := round64 (Qc_of_nat n).

Definition fabs (a : Qc) : Qc := if bool_decide (a < 0)%Qc then (- a)%Qc else a.

(** The built-in [sum] on a list of floats, started from the integer 0.
    Up to Python 3.11 it adds the floats from left to right; from Python
    3.12 on it also keeps the low-order parts that the additions lose and
    adds them at the end (Neumaier's summation). *)
Inductive summation : Type := LeftToRight | Compensated.

(** One turn of the compensated loop: [f] is the running total, [c] the
    compensation. *)
Definition sum_step (st : Qc * Qc) (x : Qc) : Qc * Qc :=
  let '(f, c) := st in
  let t := fadd f x in
  let lost := if bool_decide (fabs x ≤ fabs f)%Qc then fadd (fsub f t) x
              else fadd (fsub x t) f in
  (t, fadd c lost).

(** [0 + x] is [x] itself for the first float [x]. *)
Definition sum (how : summation) (l : list Qc) : Qc :=
  match l with
  | [] => 0%Qc
  | x :: l' =>
      match how with
      | LeftToRight => foldl fadd x l'
      | Compensated =>
          let '(f, c) := foldl sum_step (x, 0%Qc) l' in
          if bool_decide (c = 0%Qc) then f else fadd f c
      end
  end.

(** [max(l)] of a list that is not empty. *)
Definition max2 (a b : Qc) : Qc := if bool_decide (a < b)%Qc then b else a.
Definition max_from (first : Qc) (others : list Qc) : Qc := foldl max2 first others.

(** The two loops that fill the document-frequency counter: each token of
    a sentence counts once for that sentence. *)
Definition count_once (df : gmap string nat) (tokens : list string)
    : gmap string nat :=
  foldl incr df (elements (list_to_set tokens : gset string)).

Definition document_frequencies (tokenized : list (list string))
    : gmap string nat :=
  foldl count_once ∅ tokenized.

(** [l.sort(key=lambda item: item[1], reverse=True)].  The sort is stable,
    also when reversed: items with equal scores keep their order.  Each
    item in turn goes behind the items whose score is at least its own. *)
Fixpoint insert_desc {A} (x : A * Qc) (l : list (A * Qc)) : list (A * Qc) :=
  match l with
  | [] => [x]
  | y :: l' =>
      if bool_decide (y.2 < x.2)%Qc then x :: y :: l'
      else y :: insert_desc x l'
  end.

Definition sort_by_score_desc {A} (l : list (A * Qc)) : list (A * Qc) :=
  foldl (λ sorted x, insert_desc x sorted) [] l.

(** [sorted(set(l))] on strings: each string once, in increasing order. *)
Fixpoint insert_unique (x : string) (l : list string) : list string :=
  match l with
  | [] => [x]
  | y :: l' =>
      match String.compare x y with
      | Lt => x :: y :: l'
      | Eq => y :: l'
      | Gt => y :: insert_unique x l'
      end
  end.

Definition sorted_set (l : list string) : list string :=
  foldr insert_unique [] l.

(** [sorted(l)] on strings. *)
Fixpoint insert_sorted (x : string) (l : list string) : list string :=
  match l with
  | [] => [x]
  | y :: l' =>
      match String.compare x y with
      | Gt => y :: insert_sorted x l'
      | _ => x :: y :: l'
      end
  end.

Definition sorted (l : list string) : list string := foldr insert_sorted [] l.

(** Values decoded by [json.loads].  A number keeps its literal; an object
    lists its members, each key once. *)
Inductive json : Type :=
  | JNull
  | JBool (b : bool)
  | JNum (literal : string)
  | JStr (s : string)
  | JArr (items : list json)
  | JObj (members : list (string * json)).

Fixpoint assoc {A} (k : string) (l : list (string * A)) : option A :=
  match l with
  | [] => None
  | (k', v) :: l' => if String.eqb k k' then Some v else assoc k l'
  end.

(** The one-character strings of a string. *)
Fixpoint chars (s : string) : list string :=
  match s with
  | EmptyString => []
  | String c s' => String c EmptyString :: chars s'
  end.

(** [for x in v]: the items of a list, the characters of a string, the keys
    of an object; nothing else can be iterated. *)
Definition iterate (v : json) : result (list json) :=
  match v with
  | JArr items => Ok items
  | JStr s => Ok (JStr <$> chars s)
  | JObj members => Ok ((λ kv, JStr kv.1) <$> members)
  | _ => Raise TypeError
  end.

(** [sep.join(l)] where [l] holds arbitrary values: a value that is no
    string raises [TypeError]. *)
Definition join_values (sep : string) (l : list json) : result string :=
  strs ←! mapM (λ v, match v with JStr s => Ok s | _ => Raise TypeError end) l;
  Ok (join sep strs).

(** The items of [Counter(l)] in the order of a dictionary: each key with
    its count, at the place where the key was first met. *)
Fixpoint counter_add (items : list (string * nat)) (k : string)
    : list (string * nat) :=
  match items with
  | [] => [(k, 1)]
  | (k', n) :: rest =>
      if String.eqb k' k then (k', S n) :: rest
      else (k', n) :: counter_add rest k
  end.

Definition counter_items (l : list string) : list (string * nat) :=
  foldl counter_add [] l.

(** [Counter.most_common(n)]: [sorted(items, key=count, reverse=True)[:n]],
    a stable sort. *)
Fixpoint insert_by_count (x : string * nat) (l : list (string * nat))
    : list (string * nat) :=
  match l with
  | [] => [x]
  | y :: l' =>
      if bool_decide (y.2 < x.2) then x :: y :: l'
      else y :: insert_by_count x l'
  end.

Definition most_common (n : nat) (items : list (string * nat))
    : list (string * nat) :=
  take n (foldl (λ sorted x, insert_by_count x sorted) [] items).

End Py.

Import Py.Notations.

(** ** Stop-word lists *)

(** The list shared, word for word, by [account_summarizer.py] and
    [account_summarizer_v3.py]. *)
Definition ENGLISH_STOPWORDS : list string := [
  "a"; "about"; "above"; "after"; "again"; "against"; "all"; "also"; "am";
  "an"; "and"; "any"; "are"; "aren't"; "as"; "at"; "be"; "because"; "been";
  "before"; "being"; "below"; "between"; "both"; "but"; "by"; "can"; "can't";
  "cannot"; "could"; "couldn't"; "did"; "didn't"; "do"; "does"; "doesn't";
  "doing"; "don't"; "down"; "during"; "each"; "few"; "for"; "from";
  "further"; "had"; "hadn't"; "has"; "hasn't"; "have"; "haven't"; "having";
  "he"; "he'd"; "he'll"; "he's"; "her"; "here"; "here's"; "hers"; "herself";
  "him"; "himself"; "his"; "how"; "how's"; "i"; "i'd"; "i'll"; "i'm"; "i've";
  "if"; "in"; "into"; "is"; "isn't"; "it"; "it's"; "its"; "itself"; "let's";
  "me"; "more"; "most"; "mustn't"; "my"; "myself"; "no"; "nor"; "not"; "now";
  "of"; "off"; "on"; "once"; "only"; "or"; "other"; "ought"; "our"; "ours";
  "ourselves"; "out"; "over"; "own"; "same"; "shan't"; "she"; "she'd";
  "she'll"; "she's"; "should"; "shouldn't"; "so"; "some"; "such"; "than";
  "that"; "that's"; "the"; "their"; "theirs"; "them"; "themselves"; "then";
  "there"; "there's"; "these"; "they"; "they'd"; "they'll"; "they're";
  "they've"; "this"; "those"; "through"; "to"; "too"; "under"; "until"; "up";
  "very"; "was"; "wasn't"; "we"; "we'd"; "we'll"; "we're"; "we've"; "were";
  "weren't"; "what"; "what's"; "when"; "when's"; "where"; "where's"; "which";
  "while"; "who"; "who's"; "whom"; "why"; "why's"; "with"; "won't"; "would";
  "wouldn't"; "you"; "you'd"; "you'll"; "you're"; "you've"; "your"; "yours";
  "yourself"; "yourselves"
].

(** ** [src/account_summarizer.py] *)

Module V1.

Definition STOPWORDS : list string := ENGLISH_STOPWORDS.

(** The class [[A-Za-z0-9_+\-/]]. *)
Definition token_char (c : ascii) : bool :=
  Text.is_upper c || Text.is_lower c || Text.is_digit c
  || bool_decide (c = "_"%char) || bool_decide (c = "+"%char)
  || bool_decide (c = "-"%char) || bool_decide (c = "/"%char).

(** [tokenize]: [re.findall(r"[A-Za-z0-9_+\-/]+", text.lower())], keeping the
    tokens that are no stop-word and are longer than one character. *)
Definition tokenize (text : string) : list string :=
  filter (λ token, (token ∉ STOPWORDS) ∧ 1 < String.length token)
         (Text.findall_class token_char (Text.lower text)).

(** [split_sentences]: normalise white space, split at the sentence
    boundaries, keep the trimmed pieces of at least ten characters. *)
Definition split_sentences (text : string) : list string :=
  let normalized := Py.strip (Py.collapse_ws false text) in
  match normalized with
  | EmptyString => []
  | _ =>
      filter (λ sentence, 10 ≤ String.length sentence)
             (Py.strip <$> Text.sentence_split normalized)
  end.

(** [rank_sentences]: plain term frequency over the bucket. *)
Definition rank_sentences (sentences : list string) (top_k : Z)
    : list (string * Qc) :=
  let corpus_tokens := concat (tokenize <$> sentences) in
  let frequencies := Py.Counter corpus_tokens in
  if bool_decide (frequencies = ∅)
  then (λ sentence, (sentence, 0%Qc)) <$> Py.slice_to top_k sentences
  else
    let scored :=
      (λ sentence,
         (sentence,
          Qc_of_Z (Z.of_nat (sum_list (Py.count frequencies <$> tokenize sentence)))))
        <$> sentences in
    Py.slice_to top_k (Py.sort_by_score_desc scored).

(** A ranked item: the sentence and its score. *)
Abbreviation item := (string * Qc)%type.

(** Python lists are objects: a dictionary holds references to them, and
    [list.pop] changes the object every holder sees.  The store gives the
    list at each address; a dictionary is its keys, in insertion order,
    with the address of each value. *)
Abbreviation store := (list (list item)).
Abbreviation pydict := (list (string * nat)).

Definition deref (h : store) (l : nat) : list item := default [] (h !! l).

(** [d.get(k, [])] *)
Definition dict_get (d : pydict) (h : store) (k : string) : list item :=
  match Py.assoc k d with
  | Some l => deref h l
  | None => []
  end.

(** [any(d.values())]: some list of the dictionary is not empty. *)
Definition any_values (d : pydict) (h : store) : bool :=
  existsb (λ kv, bool_decide (deref h kv.2 ≠ [])) d.

(** One turn of the loop of [balanced_sample], for the theme at
    [index % len(domains)]: a list that is not empty loses its first item
    ([pop(0)]), whose sentence is appended to [picked]. *)
Definition sample_turn (d : pydict) (index : nat) (picked : list string)
    (h : store) : list string * store :=
  match d !! (index `mod` length d) with
  | Some (_, l) =>
      match deref h l with
      | (sentence, _) :: rest => (picked ++ [sentence], <[l := rest]> h)
      | [] => (picked, h)
      end
  | None => (picked, h)
  end.

(** The [while] loop of [balanced_sample].  [turns_left] is
    [100_001 - index]: the guard [if index > 100_000: break] ends the loop
    once it is used up. *)
Fixpoint sample_loop (turns_left : nat) (d : pydict) (target_n : Z)
    (index : nat) (picked : list string) (h : store) : list string * store :=
  match turns_left with
  | O => (picked, h)
  | S turns =>
      if bool_decide (Z.of_nat (length picked) < target_n)%Z && any_values d h
      then
        let '(picked', h') := sample_turn d index picked h in
        sample_loop turns d target_n (S index) picked' h'
      else (picked, h)
  end.

Definition SAFETY_TURNS : nat := N.to_nat 100001.

(** [balanced_sample]: the sentences picked, and the store it leaves. *)
Definition balanced_sample (domain_to_ranked : pydict) (target_n : Z)
    (h : store) : list string * store :=
  let '(picked, h') := sample_loop SAFETY_TURNS domain_to_ranked target_n 0 [] h in
  (Py.slice_to target_n picked, h').

(** [{domain: list(items) for domain, items in d.items()}]: every list is
    copied to a fresh address. *)
Fixpoint copy_dict (d : pydict) (h : store) : pydict * store :=
  match d with
  | [] => ([], h)
  | (k, l) :: d' =>
      let '(c, h') := copy_dict d' (h ++ [deref h l]) in
      ((k, length h) :: c, h')
  end.

(** [DATE_PATTERN.findall] and [extract_dates]: ["-".join(match)] for each
    match, as a sorted list without repetition. *)
Definition extract_dates (text : string) : list string :=
  Py.sorted_set
    ((λ '(y, m, d), Py.join "-" [y; m; d]) <$> Text.findall_dates None 0 text).

(** [THEMATIC_MAP]: the themes in the order they are written, each with
    its keywords. *)
Definition THEMATIC_MAP : list (string * list string) := [
  ("OS Core & Runtime",
   ["sporenet"; "sporecore"; "sporevm"; "sporelang"; "license-gate"; "k()";
    "runtime"; "kernel"; "orchestrator"; "aeng"]);
  ("Simulation & Research Engines",
   ["cultivation algebra"; "operator ide"; "sim_automata-4447x"; "reef";
    "mana stream"; "simulation"; "operators"; "recursion"]);
  ("Index, Market & Exchange",
   ["sci"; "benchmark"; "methodology"; "iosco"; "futures"; "market-maker";
    "listing"; "publication feed"; "sub-index"]);
  ("Certification, Identity, Integrity",
   ["sporecert"; "caas"; "truthseal"; "sporeseal"; "symbolic identity ledger";
    "sil"; "seif"; "q-report"; "treasury ledger"; "verification"]);
  ("Developer Docs & Knowledge",
   ["developer handbook"; "field guide"; "symbolic systems paradigm"; "ssp";
    "white paper"; "api"; "sdk"; "binding manifest"; "docs"]);
  ("Bio‑mimetic / Cognitive Models",
   ["mendo"; "plant-brain"; "morphology"; "kronos"; "lineage"; "forge";
    "polygnome"; "growth_path"; "cluster_score"]);
  ("Topology & Pattern Tools",
   ["topology lab"; "betti"; "β₀"; "β₁"; "χ"; "perimeter"; "png";
    "topology json"; "simulator"]);
  ("Standards, Laws, Governance",
   ["iso-4447-s"; "model law"; "wipo-sia"; "seps act"; "lawbook"; "governance";
    "treaty"; "codex"; "compliance"]);
  ("Packages, Bundles, Artifacts",
   [".sporemod"; ".symq1_packet"; ".truthseal"; ".truthbundle"; ".caas_bundle";
    ".sdk"; ".sil.json"; "preamble"; "archive"; "capsule"]);
  ("Compliance & Provenance Plumbing",
   ["c2pa"; "verifiable credentials"; "w3c"; "opentimestamps"; "originstamp";
    "sha-256"; "hash"; "lineage graph"; "ai disclosure";
    "privacy minimization"]);
  ("Operating Policies & Governance",
   ["publication policy"; "restatement"; "holiday"; "revocation";
    "audit retention"; "treasury policy"; "market comms"; "circulars";
    "press"]);
  ("Analytics, Scoring, Wellbeing",
   ["symq-1"; "telemetry"; "Δc(t)"; "s(h,t)"; "acceptance engine"; "aeng";
    "metrics"; "wellbeing"; "logging keys"]);
  ("Visual Systems & Narrative",
   ["scene oracle"; "truthreel"; "nuclear glyphic emitter";
    "tree→particle→grid"; "gallery"; "high hopes"; "storyboard";
    "cinematic"]);
  ("Systems, Endpoints, & Files",
   ["/verify/"; "revocation/list"; "artifact/"; "constituents file";
    "ledger digest"; "architecture diagram"; "financial forecast";
    "pitch deck"; "csv"])
].

(** [KEYWORD_TO_DOMAIN] *)
Definition KEYWORD_TO_DOMAIN : list (string * string) :=
  flat_map (λ '(domain, keywords), (λ kw, (Text.lower kw, domain)) <$> keywords)
           THEMATIC_MAP.

(** [list(dict.fromkeys(l))]: each key once, at its first place. *)
Fixpoint fromkeys (l : list string) : list string :=
  match l with
  | [] => []
  | k :: l' => k :: filter (λ k', k' ≠ k) (fromkeys l')
  end.

Definition domain_order : list string :=
  fromkeys (THEMATIC_MAP.*1 ++ ["General"]).

(** [sentence_domain]: the themes of which a keyword occurs in the lowered
    sentence, or ["General"].  Python fixes no order for the members of the
    set [hits]; here they come in the order of the keyword table. *)
Definition sentence_domain (sentence : string) : list string :=
  let lowered := Text.lower sentence in
  let hits :=
    fromkeys (snd <$> filter (λ kd, Py.contains kd.1 lowered = true)
                             KEYWORD_TO_DOMAIN) in
  match hits with
  | [] => ["General"]
  | _ => hits
  end.

(** [domain_buckets[domain].append(sentence)] on a [defaultdict(list)]. *)
Fixpoint bucket_append (buckets : list (string * list string))
    (domain sentence : string) : list (string * list string) :=
  match buckets with
  | [] => [(domain, [sentence])]
  | (k, l) :: rest =>
      if String.eqb k domain then (k, l ++ [sentence]) :: rest
      else (k, l) :: bucket_append rest domain sentence
  end.

Definition domain_buckets (sentences : list string)
    : list (string * list string) :=
  foldl (λ buckets sentence,
           foldl (λ buckets domain, bucket_append buckets domain sentence)
                 buckets (sentence_domain sentence))
        [] sentences.

(** The executive-summary loop of [build_report]: for each theme in order
    the first two ranked sentences, each behind the name of its theme; the
    loop is left once ten or more entries are there. *)
Fixpoint executive_loop (d : pydict) (h : store) (order : list string)
    (executive_summary : list string) : list string :=
  match order with
  | [] => executive_summary
  | domain :: order' =>
      let picks := fst <$> Py.slice_to 2 (dict_get d h domain) in
      let summary' :=
        executive_summary ++ ((λ sentence, domain +:+ ": " +:+ sentence) <$> picks) in
      if bool_decide (10 ≤ length summary') then summary'
      else executive_loop d h order' summary'
  end.

Definition executive_summary (domain_ranked : pydict) (h : store) : list string :=
  executive_loop domain_ranked h domain_order [].

(** The sampling step of [build_report]: [balanced_sample] works on a copy
    of [domain_ranked]. *)
Definition canonical_step (domain_ranked : pydict) (target_sentences : Z)
    (h : store) : list string * store :=
  let '(domain_ranked_copy, h') := copy_dict domain_ranked h in
  balanced_sample domain_ranked_copy target_sentences h'.

(** [domain_ranked]: the ranked pool of every bucket ([top_k=50]), each a
    list object of its own in a store that was empty. *)
Definition rank_buckets (buckets : list (string * list string))
    : pydict * store :=
  (imap (λ address bucket, (bucket.1, address)) buckets,
   (λ bucket, rank_sentences bucket.2 50) <$> buckets).

(** The inventory loop of one theme: the ranked sentences without exact
    repetitions, left once ten are collected. *)
Fixpoint inventory_loop (ranked : list item) (seen items : list string)
    : list string :=
  match ranked with
  | [] => items
  | (sentence, _) :: ranked' =>
      let '(items', seen') :=
        if bool_decide (sentence ∈ seen) then (items, seen)
        else (items ++ [sentence], sentence :: seen) in
      if bool_decide (10 ≤ length items') then items'
      else inventory_loop ranked' seen' items'
  end.

Definition inventories (domain_ranked : pydict) (h : store)
    : list (string * list string) :=
  omap (λ domain,
          match inventory_loop (dict_get domain_ranked h domain) [] [] with
          | [] => None
          | items => Some (domain, items)
          end)
       domain_order.

Record Report := {
  executive_summary_of : list string;
  canonical_100_sentences : list string;
  inventories_of : list (string * list string);
  timeline_dates : list string;
  sentences_total : nat
}.

(** [build_report], from the texts that were read ([all_texts]).  The
    inventories are read from [domain_ranked] after the sampling step. *)
Definition build_report (all_texts : list string) (target_sentences : Z)
    : Report :=
  let corpus :=
    Py.join (String "010"%char (String "010"%char EmptyString)) all_texts in
  let sentences := split_sentences corpus in
  let '(domain_ranked, h) := rank_buckets (domain_buckets sentences) in
  let summary := executive_summary domain_ranked h in
  let '(canonical, h') := canonical_step domain_ranked target_sentences h in
  {| executive_summary_of := summary;
     canonical_100_sentences := canonical;
     inventories_of := inventories domain_ranked h';
     timeline_dates := Py.sorted_set (concat (extract_dates <$> all_texts));
     sentences_total := length sentences |}.

Section Loader.
(** What reading a path as UTF-8 text gives: the text, or the exception
    of [open] or of [read]. *)
Variable fs : string → Py.result string.
(** [json.loads], and [str] of a decoded value that is no string. *)
Variable json_loads : string → Py.result Py.json.
Variable repr : Py.json → string.

(** [msg.get("content", "") if isinstance(msg, dict) else str(msg)] *)
Definition content_or_str (msg : Py.json) : Py.json :=
  match msg with
  | Py.JObj members => default (Py.JStr "") (Py.assoc "content" members)
  | Py.JStr s => Py.JStr s
  | other => Py.JStr (repr other)
  end.

Definition joined (items : list Py.json) : Py.result string :=
  Py.join_values (String "010"%char EmptyString) (content_or_str <$> items).

(** The body of the [try] of [load_text_from_file]. *)
Definition load_body (path : string) : Py.result string :=
  if Py.endswith (Text.lower path) ".json" then
    raw ←! fs path;
    match json_loads raw with
    | Py.Raise e => if Py.is_JSONDecodeError e then Py.Ok raw else Py.Raise e
    | Py.Ok data =>
        let as_list :=
          match data with
          | Py.JArr entries => joined entries
          | _ => Py.Ok raw
          end in
        match data with
        | Py.JObj members =>
            match Py.assoc "messages" members with
            | Some (Py.JArr messages) => joined messages
            | _ => as_list
            end
        | _ => as_list
        end
    end
  else fs path.

(** [load_text_from_file]: [except Exception] writes a warning and
    returns the empty string. *)
Definition load_text_from_file (path : string) : Py.result string :=
  Py.try_except (load_body path) Py.is_Exception (Py.Ok "").

(** The reading loop of [build_report]: the texts that are not empty. *)
Definition load_corpus (paths : list string) : Py.result (list string) :=
  texts ←! Py.mapM load_text_from_file paths;
  Py.Ok (filter (λ text, text ≠ "") texts).
End Loader.

End V1.

(** ** [src/scripts/account_summarizer.py] *)

Module Orbit.

Definition STOPWORDS : list string := [
  "a"; "about"; "above"; "after"; "again"; "against"; "all"; "also"; "am";
  "an"; "and"; "any"; "are"; "as"; "at"; "be"; "because"; "been"; "before";
  "being"; "below"; "between"; "both"; "but"; "by"; "can"; "could"; "did";
  "do"; "does"; "doing"; "down"; "during"; "each"; "few"; "for"; "from";
  "further"; "had"; "has"; "have"; "having"; "he"; "her"; "here"; "hers";
  "herself"; "him"; "himself"; "his"; "how"; "i"; "if"; "in"; "into"; "is";
  "it"; "its"; "itself"; "let"; "me"; "more"; "most"; "my"; "myself"; "no";
  "nor"; "not"; "now"; "of"; "off"; "on"; "once"; "only"; "or"; "other";
  "our"; "ours"; "ourselves"; "out"; "over"; "own"; "same"; "she"; "should";
  "so"; "some"; "such"; "than"; "that"; "the"; "their"; "theirs"; "them";
  "themselves"; "then"; "there"; "these"; "they"; "this"; "those"; "through";
  "to"; "too"; "under"; "until"; "up"; "very"; "was"; "we"; "were"; "what";
  "when"; "where"; "which"; "while"; "who"; "whom"; "why"; "with"; "would";
  "you"; "your"; "yours"; "yourself"; "yourselves"
].

(** [TOKEN_RE = re.compile(r"[A-Za-z0-9_+/.-]+")] *)
Definition token_char (c : ascii) : bool :=
  Text.is_upper c || Text.is_lower c || Text.is_digit c
  || bool_decide (c = "_"%char) || bool_decide (c = "+"%char)
  || bool_decide (c = "/"%char) || bool_decide (c = "."%char)
  || bool_decide (c = "-"%char).

(** [[token.lower() for token in TOKEN_RE.findall(text)
      if token.lower() not in STOPWORDS]] *)
Definition tokenize (text : string) : list string :=
  Text.lower <$>
    filter (λ token, Text.lower token ∉ STOPWORDS)
           (Text.findall_class token_char text).

(** [SENTENCE_SPLIT_RE] is the boundary of [Text.sentence_split];
    [split_sentences] keeps the trimmed pieces of at least twelve
    characters. *)
Definition split_sentences (text : string) : list string :=
  let compact := Py.strip (Py.collapse_ws false text) in
  match compact with
  | EmptyString => []
  | _ =>
      Py.strip <$>
        filter (λ segment, 12 ≤ String.length (Py.strip segment))
               (Text.sentence_split compact)
  end.

(** The score of one sentence in [rank_sentences]: over the items of its
    term counter, in the order in which the tokens first occur,
    [count * (1.0 + len(sentences) / (1 + doc_freq[token]))], added up
    from [0.0]. *)
Definition sentence_score (bucket_size : nat) (doc_freq : gmap string nat)
    (tokens : list string) : Qc :=
  foldl (λ score '(token, cnt),
           let idf := Py.fadd 1 (Py.truediv bucket_size
                                            (1 + Py.count doc_freq token)) in
           Py.fadd score (Py.fmul (Py.float_of_nat cnt) idf))
        0%Qc (Py.counter_items tokens).

(** [rank_sentences]: TF-IDF over the bucket; a sentence without tokens is
    passed over. *)
Definition rank_sentences (sentences : list string) : list (string * Qc) :=
  let tokenized := tokenize <$> sentences in
  let doc_freq := Py.document_frequencies tokenized in
  let scores :=
    omap (λ '(sentence, tokens),
            match tokens with
            | [] => None
            | _ => Some (sentence, sentence_score (length sentences) doc_freq tokens)
            end)
         (zip sentences tokenized) in
  Py.sort_by_score_desc scores.

(** The ranked sentences of one orbit in [build_summary]:
    [[sentence for sentence, _ in rank_sentences(items)[:top_k]] if items
     else []]. *)
Definition top_sentences (items : list string) (top_k : Z) : list string :=
  match items with
  | [] => []
  | _ => fst <$> Py.slice_to top_k (rank_sentences items)
  end.

Section Loader.
(** What [path.read_text(encoding="utf-8")] gives: the text, or the
    exception it raises. *)
Variable read_text : string → Py.result string.
(** [json.loads], and [str] of a decoded value that is no string. *)
Variable json_loads : string → Py.result Py.json.
Variable repr : Py.json → string.
(** What [path.suffix] of [pathlib] gives: the part of the file's name from
    its last dot on, and the empty string for a name that has no dot or
    only dots in front. *)
Variable suffix : string → string.

(** [isinstance(v, Sequence)]: a list or a string. *)
Definition is_sequence (v : Py.json) : bool :=
  match v with Py.JArr _ | Py.JStr _ => true | _ => false end.

(** [_extract_message_content] *)
Definition extract_item (item : Py.json) : list string :=
  match item with
  | Py.JObj members =>
      match Py.assoc "content" members with
      | Some (Py.JStr content) => [content]
      | _ => []
      end
  | Py.JStr s => [s]
  | other => [repr other]
  end.

Definition _extract_message_content (items : Py.json) : Py.result (list string) :=
  its ←! Py.iterate items;
  Py.Ok (concat (extract_item <$> its)).

Definition joined (items : Py.json) : Py.result string :=
  out ←! _extract_message_content items;
  Py.Ok (Py.join (String "010"%char EmptyString) out).

(** [path.suffix.lower() == ".json"] *)
Definition has_json_suffix (path : string) : bool :=
  String.eqb (Text.lower (suffix path)) ".json".

(** [load_text]: only [OSError] is caught around the read, and only
    [json.JSONDecodeError] around the parse. *)
Definition load_text (path : string) : Py.result string :=
  match read_text path with
  | Py.Raise e => if Py.is_OSError e then Py.Ok "" else Py.Raise e
  | Py.Ok data =>
      if negb (has_json_suffix path) then Py.Ok data
      else
        match json_loads data with
        | Py.Raise e => if Py.is_JSONDecodeError e then Py.Ok data else Py.Raise e
        | Py.Ok parsed =>
            let as_sequence :=
              if is_sequence parsed then joined parsed else Py.Ok data in
            match parsed with
            | Py.JObj members =>
                match Py.assoc "messages" members with
                | Some messages =>
                    if is_sequence messages then joined messages else as_sequence
                | None => as_sequence
                end
            | _ => as_sequence
            end
        end
  end.

(** [texts = [load_text(path) for path in files]] in [build_summary]. *)
Definition load_texts (files : list string) : Py.result (list string) :=
  Py.mapM load_text files.
End Loader.

(** [any(kw in lower for kw in keywords)] *)
Definition matches (lower : string) (keywords : list string) : bool :=
  existsb (λ kw, Py.contains kw lower) keywords.

(** The orbits a sentence goes to in [assign_orbits]: those of the keyword
    map, in its order, of which a lowered keyword occurs in the lowered
    sentence; the shared orbit when there is none. *)
Definition target_orbits (keyword_map : list (string * list string))
    (shared_label sentence : string) : list string :=
  let lower := Text.lower sentence in
  let matched :=
    fst <$> filter (λ entry, matches lower (Text.lower <$> entry.2) = true)
                   keyword_map in
  match matched with
  | [] => [shared_label]
  | _ => matched
  end.

(** [buckets[orbit].append(sentence)] on a [defaultdict(list)]. *)
Fixpoint bucket_append (buckets : list (string * list string))
    (orbit sentence : string) : list (string * list string) :=
  match buckets with
  | [] => [(orbit, [sentence])]
  | (k, l) :: rest =>
      if String.eqb k orbit then (k, l ++ [sentence]) :: rest
      else (k, l) :: bucket_append rest orbit sentence
  end.

(** [assign_orbits] *)
Definition assign_orbits (sentences : list string)
    (keyword_map : list (string * list string)) (shared_label : string)
    : list (string * list string) :=
  foldl (λ buckets sentence,
           foldl (λ buckets orbit, bucket_append buckets orbit sentence)
                 buckets (target_orbits keyword_map shared_label sentence))
        [] sentences.

(** [ordered_orbits] of [build_summary]: the orbits of the keyword map, the
    shared orbit if it is not among them, then the other bucket names that
    are not there yet. *)
Definition ordered_orbits (keyword_map : list (string * list string))
    (shared_label : string) (orbit_buckets : list (string * list string))
    : list string :=
  let keys := keyword_map.*1 in
  let remaining := filter (λ orbit, orbit ∉ keys) orbit_buckets.*1 in
  let with_shared :=
    if bool_decide (shared_label ∈ keys) then keys else keys ++ [shared_label] in
  foldl (λ ordered orbit,
           if bool_decide (orbit ∈ ordered) then ordered else ordered ++ [orbit])
        with_shared remaining.

Record OrbitSummary := {
  files_read : nat;
  total_sentences : nat;
  top_sentences_of : list (string * list string);
  keyword_hits : list (string * nat)
}.

(** [build_summary], from the texts of the files that were found. *)
Definition build_summary (texts : list string)
    (keyword_map : list (string * list string)) (shared_label : string)
    (top_k : Z) : OrbitSummary :=
  let sentences := concat (split_sentences <$> texts) in
  let orbit_buckets := assign_orbits sentences keyword_map shared_label in
  let ordered := ordered_orbits keyword_map shared_label orbit_buckets in
  let items orbit := default [] (Py.assoc orbit orbit_buckets) in
  {| files_read := length texts;
     total_sentences := length sentences;
     top_sentences_of :=
       (λ orbit, (orbit, top_sentences (items orbit) top_k)) <$> ordered;
     keyword_hits := (λ orbit, (orbit, length (items orbit))) <$> ordered |}.

End Orbit.

(** ** [src/scripts/account_summarizer_v3.py] *)

Module V3.

Definition STOPWORDS : list string := ENGLISH_STOPWORDS.

(** The class [[A-Za-z0-9_+\-\/]]. *)
Definition token_char (c : ascii) : bool :=
  Text.is_upper c || Text.is_lower c || Text.is_digit c
  || bool_decide (c = "_"%char) || bool_decide (c = "+"%char)
  || bool_decide (c = "-"%char) || bool_decide (c = "/"%char).

(** [toks=re.findall(r"[A-Za-z0-9_+\-\/]+",text.lower())], then
    [[t for t in toks if t not in STOPWORDS and len(t)>1]]. *)
Definition tokenize (text : string) : list string :=
  filter (λ t, (t ∉ STOPWORDS) ∧ 1 < String.length t)
         (Text.findall_class token_char (Text.lower text)).

Definition ABBREV : list string :=
  ["e.g."; "i.e."; "etc."; "v."; "v1.1.8"; "mr."; "mrs."; "dr."; "prof.";
   "inc."; "ltd."; "co."].

(** [out[-1].split()[-1].lower() in ABBREV]; indexing the words of a blank
    string raises [IndexError]. *)
Definition ends_with_abbrev (previous : string) : Py.result bool :=
  match last (Py.split previous) with
  | Some word => Py.Ok (bool_decide (Text.lower word ∈ ABBREV))
  | None => Py.Raise Py.IndexError
  end.

(** One turn of the loop of [split_sentences] on the tentative piece
    [s]. *)
Definition merge_turn (out : list string) (s : string)
    : Py.result (list string) :=
  let s := Py.strip s in
  if bool_decide (String.length s < 10) then Py.Ok out
  else
    match last out with
    | None => Py.Ok (out ++ [s])
    | Some previous =>
        abbrev ←! ends_with_abbrev previous;
        if abbrev then Py.Ok (removelast out ++ [previous +:+ " " +:+ s])
        else Py.Ok (out ++ [s])
    end.

Fixpoint merge_loop (out : list string) (tentative : list string)
    : Py.result (list string) :=
  match tentative with
  | [] => Py.Ok out
  | s :: tentative' => out' ←! merge_turn out s; merge_loop out' tentative'
  end.

(** [split_sentences] *)
Definition split_sentences (text : string) : Py.result (list string) :=
  let text := Py.strip (Py.collapse_ws false text) in
  match text with
  | EmptyString => Py.Ok []
  | _ => merge_loop [] (Text.sentence_split text)
  end.

(** [jaccard] *)
Definition jaccard (a b : list string) : Qc :=
  let sa : gset string := list_to_set a in
  let sb : gset string := list_to_set b in
  if bool_decide (sa = ∅) && bool_decide (sb = ∅) then 1%Qc
  else (Py.Qc_of_nat (size (sa ∩ sb)) / Py.Qc_of_nat (1 `max` size (sa ∪ sb)))%Qc.

(** [idf={t:1.0+((N)/(1+df[t])) for t in df}] *)
Definition idf_table (N : nat) (df : gmap string nat) : gmap string Qc :=
  (λ d, Py.fadd 1 (Py.truediv N (1 + d))) <$> df.

(** [sum(tf[t]*idf.get(t,1.0) for t in tf)] with [tf=Counter(toks)]: the
    tokens come in the order in which they first occur; [how] is the
    summation of the interpreter. *)
Definition sentence_score (how : Py.summation) (idf : gmap string Qc)
    (toks : list string) : Qc :=
  Py.sum how ((λ '(t, cnt), Py.fmul (Py.float_of_nat cnt) (default 1%Qc (idf !! t)))
                <$> Py.counter_items toks).

(** [rank_tfidf] *)
Definition rank_tfidf (how : Py.summation) (sentences : list string)
    : list (string * Qc) :=
  match sentences with
  | [] => []
  | _ =>
      let tokenized := tokenize <$> sentences in
      let df := Py.document_frequencies tokenized in
      let idf := idf_table (length sentences) df in
      let scored :=
        (λ '(s, toks), (s, sentence_score how idf toks))
          <$> zip sentences tokenized in
      Py.sort_by_score_desc scored
  end.

(** [extract_dates]: [f"{y}-{m}-{d}"] for each match, in the order of the
    text. *)
Definition extract_dates (text : string) : list string :=
  (λ '(y, m, d), y +:+ "-" +:+ m +:+ "-" +:+ d) <$> Text.findall_dates None 0 text.

(** The default of [dedupe_threshold], [0.7]. *)
Definition DEFAULT_DEDUPE_THRESHOLD : Qc := (Qc_of_Z 7 / Qc_of_Z 10)%Qc.

(** A ranked item, and [domain_ranked]: the ranked pool of each theme. *)
Abbreviation item := (string * Qc)%type.
Abbreviation pools := (gmap string (list item)).

(** [ranked=rank_tfidf(sents)[:max_per_domain]] *)
Definition ranked_pool (how : Py.summation) (sents : list string)
    (max_per_domain : Z) : list item :=
  Py.slice_to max_per_domain (rank_tfidf how sents).

(** [domain_order]: the themes of the thematic map in its order, then the
    other bucket names in sorted order. *)
Definition domain_order (thematic_keys bucket_keys : list string) : list string :=
  thematic_keys ++ filter (λ d, d ∉ thematic_keys) (Py.sorted bucket_keys).

(** The state of the canonical loop. *)
Record canon := {
  canonical : list string;
  canonical_tokens : list (list string);
  quota : gmap string Z
}.

Definition quota_of (st : canon) (dom : string) : Z := default 0%Z (quota st !! dom).

(** [max([jaccard(toks,t) for t in canonical_tokens] or [0.0])] *)
Definition max_similarity (toks : list string) (accepted : list (list string)) : Qc :=
  match jaccard toks <$> accepted with
  | [] => 0%Qc
  | first :: others => Py.max_from first others
  end.

(** The body of the inner loop for the ranked sentence [s] of theme
    [dom]. *)
Definition consider (dedupe_threshold : Qc) (dom : string) (st : canon)
    (s : string) : canon :=
  let toks := tokenize s in
  match toks with
  | [] => st
  | _ =>
      let sim := max_similarity toks (canonical_tokens st) in
      if bool_decide (sim ≤ dedupe_threshold)%Qc && bool_decide (0 < quota_of st dom)%Z
      then {| canonical := canonical st ++ [s];
              canonical_tokens := canonical_tokens st ++ [toks];
              quota := <[dom := (quota_of st dom - 1)%Z]> (quota st) |}
      else st
  end.

(** The inner loop: the ranked pool of one theme. *)
Definition take_domain (dedupe_threshold : Qc) (domain_ranked : pools)
    (st : canon) (dom : string) : canon :=
  foldl (consider dedupe_threshold dom) st
        (fst <$> default [] (domain_ranked !! dom)).

(** [quota={dom:target_sentences//len(domain_order) for dom in domain_order}]:
    the division is made anew for every theme of [domain_order], and so
    not at all for an empty [domain_order], which gives the empty
    dictionary. *)
Definition initial_quota (order : list string) (target_sentences : Z)
    : Py.result (gmap string Z) :=
  entries ←! Py.mapM (λ dom,
                        share ←! Py.floordiv target_sentences
                                             (Z.of_nat (length order));
                        Py.Ok (dom, share))
                     order;
  Py.Ok (list_to_map entries).

(** The canonical loop over the themes in order. *)
Definition canonical_loop (dedupe_threshold : Qc) (domain_ranked : pools)
    (order : list string) (st : canon) : canon :=
  foldl (take_domain dedupe_threshold domain_ranked) st order.

(** The canonical sentences of [build_report]:
    [canonical[:target_sentences]]. *)
Definition canonical_sentences (order : list string) (domain_ranked : pools)
    (target_sentences : Z) (dedupe_threshold : Qc) : Py.result (list string) :=
  q ←! initial_quota order target_sentences;
  let st := canonical_loop dedupe_threshold domain_ranked order
              {| canonical := []; canonical_tokens := []; quota := q |} in
  Py.Ok (Py.slice_to target_sentences (canonical st)).

(** What each theme adds to [canonical] during its turn of the loop. *)
Fixpoint contributions (dedupe_threshold : Qc) (domain_ranked : pools)
    (order : list string) (st : canon) : list (string * list string) :=
  match order with
  | [] => []
  | dom :: order' =>
      let st' := take_domain dedupe_threshold domain_ranked st dom in
      (dom, drop (length (canonical st)) (canonical st'))
        :: contributions dedupe_threshold domain_ranked order' st'
  end.

(** The executive-summary loop of [build_report], with its closing
    [exec_points[:10]]. *)
Fixpoint executive_loop (domain_ranked : pools) (order : list string)
    (exec_points : list string) : list string :=
  match order with
  | [] => exec_points
  | dom :: order' =>
      let picks := fst <$> Py.slice_to 2 (default [] (domain_ranked !! dom)) in
      let points' := exec_points ++ ((λ p, dom +:+ ": " +:+ p) <$> picks) in
      if bool_decide (10 ≤ length points') then points'
      else executive_loop domain_ranked order' points'
  end.

Definition executive_summary (domain_ranked : pools) (order : list string)
    : list string :=
  Py.slice_to 10 (executive_loop domain_ranked order []).

(** [pairs.sort(key=lambda x:(x[1],x[0]))]: by theme, then by keyword. *)
Definition pair_after (a b : string * string) : bool :=
  match String.compare a.2 b.2 with
  | Gt => true
  | Lt => false
  | Eq => match String.compare a.1 b.1 with Gt => true | _ => false end
  end.

Fixpoint insert_pair (x : string * string) (l : list (string * string))
    : list (string * string) :=
  match l with
  | [] => [x]
  | y :: l' => if pair_after x y then y :: insert_pair x l' else x :: y :: l'
  end.

(** [build_keyword_index] *)
Definition build_keyword_index (thematic_map : list (string * list string))
    : list (string * string) :=
  let pairs :=
    flat_map (λ '(dom, kws), (λ kw, (Text.lower kw, dom)) <$> kws) thematic_map in
  foldr insert_pair [] pairs.

(** [sentence_domains]: the set [hits] as a list, or [["General"]]. *)
Definition sentence_domains (sentence : string)
    (key_index : list (string * string)) : list string :=
  let s := Text.lower sentence in
  let hits : gset string :=
    list_to_set (snd <$> filter (λ kd, Py.contains kd.1 s = true) key_index) in
  if bool_decide (hits = ∅) then ["General"] else elements hits.

(** [domain_buckets]: every sentence is appended to the bucket of each of
    its themes. *)
Definition domain_buckets (sentences : list string)
    (key_index : list (string * string)) : gmap string (list string) :=
  foldl (λ buckets s,
           foldl (λ buckets dom, <[dom := default [] (buckets !! dom) ++ [s]]> buckets)
                 buckets (sentence_domains s key_index))
        ∅ sentences.

Record Report := {
  executive_summary_of : list string;
  canonical_sentences_of : list string;
  timeline_dates : list string;
  sentences_total : nat
}.

(** [build_report], from the texts that were read ([texts]) and the
    thematic map (its themes in order, each with its keywords); [how] is
    the summation of the interpreter that runs it. *)
Definition build_report (how : Py.summation) (texts : list string)
    (thematic_map : list (string * list string)) (target_sentences : Z)
    (max_per_domain : Z) (dedupe_threshold : Qc) : Py.result Report :=
  let corpus :=
    Py.join (String "010"%char (String "010"%char EmptyString))
            (filter (λ t, t ≠ "") texts) in
  sentences ←! split_sentences corpus;
  let key_index := build_keyword_index thematic_map in
  let buckets := domain_buckets sentences key_index in
  let domain_ranked : pools :=
    (λ sents, ranked_pool how sents max_per_domain) <$> buckets in
  let order := domain_order thematic_map.*1 (elements (dom buckets)) in
  canonical ←! canonical_sentences order domain_ranked target_sentences dedupe_threshold;
  Py.Ok {| executive_summary_of := executive_summary domain_ranked order;
           canonical_sentences_of := canonical;
           timeline_dates := Py.sorted_set (concat (extract_dates <$> texts));
           sentences_total := length sentences |}.

Section Loader.
(** What reading a path as UTF-8 text gives: the text, or the exception
    of [open] or of [read]. *)
Variable fs : string → Py.result string.
(** [json.loads], and [str] of a decoded value that is no string. *)
Variable json_loads : string → Py.result Py.json.
Variable repr : Py.json → string.

(** [m.get("content","") if isinstance(m,dict) else str(m)] *)
Definition content_or_str (m : Py.json) : Py.json :=
  match m with
  | Py.JObj members => default (Py.JStr "") (Py.assoc "content" members)
  | Py.JStr s => Py.JStr s
  | other => Py.JStr (repr other)
  end.

Definition joined (items : Py.json) : Py.result string :=
  its ←! Py.iterate items;
  Py.join_values (String "010"%char EmptyString) (content_or_str <$> its).

(** The body of the [try] of [load_text]; the inner bare [except] takes
    every failure of the parse. *)
Definition load_body (path : string) : Py.result string :=
  if Py.endswith (Text.lower path) ".json" then
    raw ←! fs path;
    match json_loads raw with
    | Py.Raise _ => Py.Ok raw
    | Py.Ok data =>
        match data with
        | Py.JObj members =>
            match Py.assoc "messages" members with
            | Some messages => joined messages
            | None => Py.Ok raw
            end
        | Py.JArr _ => joined data
        | _ => Py.Ok raw
        end
    end
  else fs path.

(** [load_text]: the outer bare [except] returns the empty string. *)
Definition load_text (path : string) : Py.result string :=
  Py.try_except (load_body path) (λ _, true) (Py.Ok "").

(** [texts=[load_text(p) for p in all_paths]] in [build_report]. *)
Definition load_texts (all_paths : list string) : Py.result (list string) :=
  Py.mapM load_text all_paths.
End Loader.

(** The suggested keywords of one theme in [build_report]: the five most
    common tokens of its ranked sentences that are no keyword of the theme
    yet. *)
Definition domain_suggestion (thematic_map : list (string * list string))
    (dom : string) (ranked : list item) : list string :=
  let keywords := Text.lower <$> default [] (Py.assoc dom thematic_map) in
  let all_tokens :=
    filter (λ t, t ∉ keywords) (concat ((λ sp, tokenize sp.1) <$> ranked)) in
  fst <$> Py.most_common 5 (Py.counter_items all_tokens).

(** The inventory loop of one theme in [build_report]: the ranked
    sentences without exact repetitions, left once ten are collected. *)
Fixpoint inventory_loop (ranked : list item) (seen : gset string)
    (items : list string) : list string :=
  match ranked with
  | [] => items
  | (s, _) :: ranked' =>
      let '(seen', items') :=
        if bool_decide (s ∈ seen) then (seen, items)
        else ({[s]} ∪ seen, items ++ [s]) in
      if bool_decide (10 ≤ length items') then items'
      else inventory_loop ranked' seen' items'
  end.

(** [inventories] of [build_report]: the themes of [domain_order], each
    of them once, that have an item. *)
Definition inventories (domain_ranked : pools) (order : list string)
    : list (string * list string) :=
  omap (λ dom,
          match inventory_loop (default [] (domain_ranked !! dom)) ∅ [] with
          | [] => None
          | items => Some (dom, items)
          end)
       order.

(** [totals["domains"]] of [build_report]. *)
Definition domains_total (buckets : gmap string (list string)) : list string :=
  Py.sorted (elements (dom buckets)).

End V3.


(** ** Reference definitions the properties are stated with *)

Module Spec.

(** The number a decimal digit stands for. *)
Definition digit_value (c : ascii) : N := (Text.code c - 48)%N.

(** The year of a date string: its first four characters, read as a decimal
    number. *)
Definition year (date : string) : option N :=
  match date with
  | String a (String b (String c (String d _))) =>
      if Text.is_digit a && Text.is_digit b && Text.is_digit c && Text.is_digit d
      then Some (1000 * digit_value a + 100 * digit_value b
                 + 10 * digit_value c + digit_value d)%N
      else None
  | _ => None
  end.

(** The first two ranked sentences of each theme, theme by theme in the
    given order, each behind the name of its theme. *)
Definition top_two (domain_ranked : gmap string (list (string * Qc)))
    (order : list string) : list string :=
  concat ((λ dom, (λ p, dom +:+ ": " +:+ p)
                    <$> (fst <$> take 2 (default [] (domain_ranked !! dom))))
          <$> order).

(** The item [x] may stand in front of the item [y]: its score is not
    below. *)
Definition before {A} (x y : A * Qc) : Prop := (y.2 ≤ x.2)%Qc.

(** A ranked list in which no score is above an earlier one. *)
Definition descending {A} (l : list (A * Qc)) : Prop :=
  ∀ i j x y, i ≤ j → l !! i = Some x → l !! j = Some y → (y.2 ≤ x.2)%Qc.

(** A ranked item, its score written as a fraction in lowest terms. *)
Definition with_fraction (it : string * Qc) : string * Z * positive :=
  (it.1, Qnum (this it.2), Qden (this it.2)).

(** The distinct strings of a list, each at the place where it first
    occurs. *)
Fixpoint distinct (l : list string) : list string :=
  match l with
  | [] => []
  | x :: l' => x :: filter (λ y, y ≠ x) (distinct l')
  end.

(** TF-IDF, as the specification words it, for a tokenizer. *)
Section Tfidf.
Variable tokenize : string → list string.

(** How often a token occurs among the tokens of a sentence. *)
Definition term_count (token : string) (tokens : list string) : nat :=
  length (filter (λ t, t = token) tokens).

(** [df(token)]: the number of sentences of the bucket that contain the
    token at least once. *)
Definition df (bucket : list string) (token : string) : nat :=
  length (filter (λ sentence, token ∈ tokenize sentence) bucket).

(** [idf(token) = 1 + bucket_size / (1 + df(token))] *)
Definition idf (bucket : list string) (token : string) : Qc :=
  (1 + Py.Qc_of_nat (length bucket) / Py.Qc_of_nat (1 + df bucket token))%Qc.

(** [score(sentence)]: over the distinct tokens of the sentence, the sum of
    [term_count(token) * idf(token)]. *)
Definition tfidf_score (bucket : list string) (sentence : string) : Qc :=
  foldr Qcplus 0%Qc
    ((λ token, (Py.Qc_of_nat (term_count token (tokenize sentence))
                * idf bucket token)%Qc)
       <$> elements (list_to_set (tokenize sentence) : gset string)).

(** The same in floats, every operation rounded: [idf(token)], and the
    terms [term_count(token) * idf(token)] of a sentence, one for each
    distinct token, in the order in which the tokens first occur. *)
Definition idf_float (bucket : list string) (token : string) : Qc :=
  Py.fadd 1 (Py.truediv (length bucket) (1 + df bucket token)).

Definition tfidf_terms (bucket : list string) (sentence : string) : list Qc :=
  (λ token, Py.fmul (Py.float_of_nat (term_count token (tokenize sentence)))
                    (idf_float bucket token))
    <$> distinct (tokenize sentence).
End Tfidf.

(** Deduplication, as the specification words it: the Jaccard similarity
    of the token sets of two sentences is at most the threshold ... *)
Definition dissimilar (tokenize : string → list string) (threshold : Qc)
    (s s' : string) : Prop :=
  (V3.jaccard (tokenize s) (tokenize s') ≤ threshold)%Qc.

(** ... for every two places of the list. *)
Definition deduplicated (tokenize : string → list string) (threshold : Qc)
    (l : list string) : Prop :=
  ∀ i j s s', i ≠ j → l !! i = Some s → l !! j = Some s' →
              dissimilar tokenize threshold s s'.

(** What holds of the state of the canonical loop all along: the token
    lists are those of the accepted sentences, every accepted sentence has
    a token, and no two of them are more similar than the threshold
    allows. *)
Definition canon_ok (threshold : Qc) (st : V3.canon) : Prop :=
  V3.canonical_tokens st = V3.tokenize <$> V3.canonical st ∧
  Forall (λ s, V3.tokenize s ≠ []) (V3.canonical st) ∧
  deduplicated V3.tokenize threshold (V3.canonical st).

(** The candidates still to come are within the threshold of every
    accepted sentence and of each other. *)
Definition fresh (threshold : Qc) (st : V3.canon) (cs : list string) : Prop :=
  Forall (λ s, Forall (λ s0, dissimilar V3.tokenize threshold s0 s)
                      (V3.canonical st)) cs ∧
  ForallOrdPairs (dissimilar V3.tokenize threshold) cs.

(** The ranked sentences of the themes, in the order the canonical loop
    meets them. *)
Definition candidates (domain_ranked : gmap string (list (string * Qc)))
    (order : list string) : list string :=
  concat ((λ dom, (default [] (domain_ranked !! dom)).*1) <$> order).

(** Every theme has enough deduplicated candidates for a share: at least
    [share] ranked sentences with a token, and no two candidates, of
    whatever themes, are more similar than the threshold allows. *)
Definition enough_candidates (threshold : Qc)
    (domain_ranked : gmap string (list (string * Qc)))
    (order : list string) (share : nat) : Prop :=
  ForallOrdPairs (dissimilar V3.tokenize threshold) (candidates domain_ranked order) ∧
  ∀ dom, dom ∈ order →
    share ≤ length (filter (λ s, V3.tokenize s ≠ [])
                           (default [] (domain_ranked !! dom)).*1).

(** Every sentence of a list has a word. *)
Definition has_words (out : list string) : Prop :=
  Forall (λ e, Py.split e ≠ []) out.

(** The shape of a date of the years 2000 to 2099: ten characters, of
    which the first two are ["20"]. *)
Definition year_20xx (date : string) : Prop :=
  String.length date = 10 ∧
  String.substring 0 2 date = "20" ∧
  ∃ y, year date = Some y ∧ (2000 ≤ y ≤ 2099)%N.

(** Plain term frequency, for a tokenizer: the score of a sentence is the
    sum, over its tokens, of how often the token occurs among all tokens
    of the bucket. *)
Definition frequency_score (tokenize : string → list string)
    (bucket : list string) (sentence : string) : nat :=
  sum_list ((λ t, term_count t (concat (tokenize <$> bucket)))
              <$> tokenize sentence).

(** The number of ranked items the lists of a dictionary hold. *)
Definition pool_total (d : list (string * nat)) (h : list (list (string * Qc)))
    : nat :=
  sum_list ((λ kv, length (V1.deref h kv.2)) <$> d).

(** The sentences the lists of a dictionary hold. *)
Definition pool_sentences (d : list (string * nat))
    (h : list (list (string * Qc))) : list string :=
  concat ((λ kv, (V1.deref h kv.2).*1) <$> d).

(** The number a string of two decimal digits stands for. *)
Definition two_digits (s : string) : option N :=
  match s with
  | String a (String b EmptyString) =>
      if Text.is_digit a && Text.is_digit b
      then Some (10 * digit_value a + digit_value b)%N
      else None
  | _ => None
  end.

(** [needle] occurs in [haystack]. *)
Definition occurs_in (needle haystack : string) : Prop :=
  ∃ before after, haystack = before +:+ needle +:+ after.

(** The strict order of strings that [sorted] goes by. *)
Definition string_lt (a b : string) : Prop := String.compare a b = Lt.

(** White space as [re.sub(r"\s+", " ", text)] leaves it: only spaces,
    never two in a row.  [after_space] tells that the character before was
    a space. *)
Fixpoint single_spaced (after_space : bool) (s : string) : bool :=
  match s with
  | EmptyString => true
  | String c s' =>
      if Text.is_space c
      then bool_decide (c = " "%char) && negb after_space && single_spaced true s'
      else single_spaced false s'
  end.

(** The text of one message of a chat export: its string content, and for
    a message that is no object its [str]. *)
Definition message_text (repr : Py.json → string) (m : Py.json) (text : string)
    : Prop :=
  match m with
  | Py.JObj fields => Py.assoc "content" fields = Some (Py.JStr text)
  | Py.JStr s => text = s
  | other => text = repr other
  end.

(** The decoded file is a chat export with these messages: a list, or an
    object whose ["messages"] is a list. *)
Definition export_of (data : Py.json) (messages : list Py.json) : Prop :=
  data = Py.JArr messages ∨
  ∃ members, data = Py.JObj members ∧
             Py.assoc "messages" members = Some (Py.JArr messages).

(** A message object whose content is there but is no string. *)
Definition content_not_text (m : Py.json) : Prop :=
  ∃ fields v, m = Py.JObj fields ∧ Py.assoc "content" fields = Some v ∧
              ∀ s, v ≠ Py.JStr s.

(** What the inventory of a ranked pool is: some of its sentences, at
    most ten, none twice; all of them when fewer than ten are listed. *)
Definition inventory_of (pool : list (string * Qc)) (items : list string) : Prop :=
  items ≠ [] ∧ length items ≤ 10 ∧ NoDup items ∧
  (∀ s, s ∈ items → s ∈ pool.*1) ∧
  (length items < 10 → ∀ s, s ∈ pool.*1 → s ∈ items).

End Spec.

(** ** Sample inputs *)

Module Sample.

(** A folder with one file that is no valid UTF-8 (Latin-1 bytes): reading
    it as UTF-8 text raises [UnicodeDecodeError]. *)
Definition latin1_folder : list string := ["readme.md"; "notes/latin1.txt"].

Definition latin1_fs (path : string) : Py.result string :=
  if String.eqb path "notes/latin1.txt" then Py.Raise Py.UnicodeDecodeError
  else Py.Ok "The kernel schedules every task.".

(** [path.suffix] of the two files. *)
Definition latin1_suffix (path : string) : string :=
  if String.eqb path "readme.md" then ".md" else ".txt".

(** A parser and a printer to run the loaders with; the sample files are
    no JSON files. *)
Definition no_json (raw : string) : Py.result Py.json := Py.Raise Py.JSONDecodeError.
Definition no_repr (v : Py.json) : string := "".

Definition corpus_of (texts : list string) : string :=
  Py.join (String "010"%char (String "010"%char EmptyString)) texts.

(** Three files whose eleven sentences fall into six themes: one sentence
    for the first theme of the thematic map, two for each of the next
    five. *)
Definition eleven_texts : list string := [
  "The kernel schedules every task. Each simulation runs two thousand rounds. Recursion depth limits the operators used. The benchmark follows a written methodology.";
  "Futures settle against the listing price. Verification checks every truthseal signature. The treasury ledger holds signed entries.";
  "The developer handbook explains each module. Our white paper motivates the design. Morphology drives the growth of each lineage. The forge builds new polygnome variants."
].

(** Their ranked pools, as [build_report] of [account_summarizer.py] stores
    them. *)
Definition eleven_pools : V1.pydict * V1.store :=
  V1.rank_buckets (V1.domain_buckets (V1.split_sentences (corpus_of eleven_texts))).
Definition eleven_ranked : V1.pydict := eleven_pools.1.
Definition eleven_store : V1.store := eleven_pools.2.


(** A thematic map of three themes, and three files with twelve sentences,
    three for each theme and three for the default theme, no two of them
    alike. *)
Definition three_themes : list (string * list string) := [
  ("Runtime", ["kernel"; "runtime"; "orchestrator"]);
  ("Market", ["benchmark"; "futures"; "market-maker"]);
  ("Docs", ["developer handbook"; "white paper"; "sdk"])
].

Definition four_texts : list string := [
  "The kernel schedules every task. The benchmark follows a written methodology. The developer handbook explains each module. Lunch was served at noon on Friday.";
  "Our runtime loads signed modules. Futures settle against the listing price. Our white paper motivates the design. Parking is free behind the main hall.";
  "An orchestrator restarts failed jobs. Each market-maker quotes both sides. The sdk ships with worked examples. Visitors must sign the guest book."
].

(** Their buckets, ranked pools and theme order, as [build_report] of
    [account_summarizer_v3.py] computes them. *)
Definition four_buckets : gmap string (list string) :=
  match V3.split_sentences (corpus_of four_texts) with
  | Py.Ok sentences =>
      V3.domain_buckets sentences (V3.build_keyword_index three_themes)
  | Py.Raise _ => ∅
  end.

Definition four_pools : V3.pools :=
  (λ sents, V3.ranked_pool Py.Compensated sents 50) <$> four_buckets.

Definition four_order : list string :=
  V3.domain_order three_themes.*1 (elements (dom four_buckets)).

(** A sentence made of stop-words: it has no token. *)
Definition stopword_sentence : string := "I am at it, is it so?".

End Sample.

(** * Properties *)

(** ** Characters and scanners *)

Section Scanners.
Import Text.

Lemma lower_char_not_upper c : is_upper (lower_char c) = false.
Proof. destruct c as [[] [] [] [] [] [] [] []]; reflexivity. Qed.

Lemma lower_char_fixed c : is_upper c = false → lower_char c = c.
Proof. unfold lower_char. intros ->. reflexivity. Qed.

Lemma all_chars_lower s : all_chars (λ c, negb (is_upper c)) (lower s) = true.
Proof.
  induction s as [|c s IH]; simpl; [reflexivity|].
  rewrite lower_char_not_upper. exact IH.
Qed.

Lemma lower_fixed s : all_chars (λ c, negb (is_upper c)) s = true → lower s = s.
Proof.
  induction s as [|c s IH]; simpl; [reflexivity|].
  intros [Hc Hs]%andb_true_iff. apply negb_true_iff in Hc.
  rewrite lower_char_fixed, IH; auto.
Qed.

Lemma lower_idempotent s : lower (lower s) = lower s.
Proof. apply lower_fixed, all_chars_lower. Qed.

Lemma all_chars_snoc q cur c :
  all_chars q cur = true → q c = true → all_chars q (snoc cur c) = true.
Proof.
  unfold snoc. induction cur as [|d cur IH]; simpl.
  - intros _ ->. reflexivity.
  - intros [Hd Hcur]%andb_true_iff Hc. rewrite Hd. simpl. auto.
Qed.

Lemma elem_of_emit t cur : t ∈ emit cur → t = cur.
Proof.
  destruct cur; simpl; [intros H; inversion H|].
  intros H. apply list_elem_of_singleton in H. exact H.
Qed.

(** A run found in a text is made of characters of the text. *)
Lemma findall_runs_chars p q s : ∀ cur t,
  all_chars q cur = true → all_chars q s = true →
  t ∈ findall_runs p cur s → all_chars q t = true.
Proof.
  induction s as [|c s IH]; simpl; intros cur t Hcur Hs Ht.
  - apply elem_of_emit in Ht. subst. exact Hcur.
  - apply andb_true_iff in Hs as [Hc Hs].
    destruct (p c).
    + eapply IH; [| exact Hs | exact Ht]. apply all_chars_snoc; auto.
    + apply elem_of_app in Ht as [Ht|Ht].
      * apply elem_of_emit in Ht. subst. exact Hcur.
      * eapply IH; [| exact Hs | exact Ht]. reflexivity.
Qed.

Lemma findall_class_chars p q s t :
  all_chars q s = true → t ∈ findall_class p s → all_chars q t = true.
Proof. intros Hs Ht. eapply findall_runs_chars; [| exact Hs | exact Ht]. reflexivity. Qed.

Lemma findall_lower_is_lower p s t :
  t ∈ findall_class p (lower s) → lower t = t.
Proof.
  intros Ht. apply lower_fixed.
  eapply findall_class_chars; [apply all_chars_lower | exact Ht].
Qed.
End Scanners.

(** ** The tokenizers *)

Lemma V1_tokenize_spec text t :
  t ∈ V1.tokenize text →
  Text.lower t = t ∧ (t ∉ V1.STOPWORDS) ∧ 1 < String.length t.
Proof.
  unfold V1.tokenize. intros [[Hstop Hlen] Hin]%list_elem_of_filter.
  split; [|split]; [| exact Hstop | exact Hlen].
  eapply findall_lower_is_lower, Hin.
Qed.

Lemma V3_tokenize_spec text t :
  t ∈ V3.tokenize text →
  Text.lower t = t ∧ (t ∉ V3.STOPWORDS) ∧ 1 < String.length t.
Proof.
  unfold V3.tokenize. intros [[Hstop Hlen] Hin]%list_elem_of_filter.
  split; [|split]; [| exact Hstop | exact Hlen].
  eapply findall_lower_is_lower, Hin.
Qed.

Lemma Orbit_tokenize_spec text t :
  t ∈ Orbit.tokenize text → Text.lower t = t ∧ t ∉ Orbit.STOPWORDS.
Proof.
  unfold Orbit.tokenize. intros (tok & -> & [Hstop Hin]%list_elem_of_filter)%list_elem_of_fmap.
  split; [apply lower_idempotent | exact Hstop].
Qed.

(** C5, as stated, fails for the tokenizer of [scripts/account_summarizer.py]:
    it has no length filter, and returns the one-character token of ["x"]. *)
Lemma C5_single_character_token :
  ¬ (∀ text t, t ∈ Orbit.tokenize text →
       Text.lower t = t ∧ (t ∉ Orbit.STOPWORDS) ∧ 1 < String.length t).
Proof.
  intros H. destruct (H "x" "x") as (_ & _ & Hlen).
  - vm_compute. left.
  - vm_compute in Hlen. lia.
Qed.

(** C5 (amended): every token of every tokenizer is lowercase and no
    stop-word of its script; the tokens of [account_summarizer.py] and of
    [account_summarizer_v3.py] are moreover longer than one character. *)
Theorem C5_tokens_lowercase_no_stopword (text t : string) :
  (t ∈ V1.tokenize text →
     Text.lower t = t ∧ (t ∉ V1.STOPWORDS) ∧ 1 < String.length t) ∧
  (t ∈ V3.tokenize text →
     Text.lower t = t ∧ (t ∉ V3.STOPWORDS) ∧ 1 < String.length t) ∧
  (t ∈ Orbit.tokenize text →
     Text.lower t = t ∧ t ∉ Orbit.STOPWORDS).
Proof.
  split; [|split].
  - apply V1_tokenize_spec.
  - apply V3_tokenize_spec.
  - apply Orbit_tokenize_spec.
Qed.

Lemma C5_tokens_witness :
  "kernel" ∈ V1.tokenize "The Kernel is a X" ∧
  Text.lower "kernel" = "kernel" ∧ ("kernel" ∉ V1.STOPWORDS) ∧ 1 < String.length "kernel".
Proof.
  assert (Hin : "kernel" ∈ V1.tokenize "The Kernel is a X") by (vm_compute; left).
  split; [exact Hin|].
  exact (proj1 (C5_tokens_lowercase_no_stopword "The Kernel is a X" "kernel") Hin).
Defined.

(** ** The date extractor *)

Section Dates.
Import Text.

Lemma bool_decide_char (a b : ascii) : bool_decide (a = b) = true → a = b.
Proof. apply bool_decide_eq_true_1. Qed.

(** A match has the year [20dd]. *)
Lemma date_at_year s y m d :
  date_at s = Some (y, m, d) →
  ∃ c3 c4, y = String "2" (String "0" (String c3 (String c4 EmptyString)))
           ∧ is_digit c3 = true ∧ is_digit c4 = true
           ∧ String.length m = 2 ∧ String.length d = 2.
Proof.
  unfold date_at.
  destruct s as [|y1 [|y2 [|y3 [|y4 [|p1 [|m1 [|m2 [|p2 [|d1 [|d2 rest]]]]]]]]]];
    try discriminate.
  destruct (bool_decide (y1 = "2"%char)) eqn:H1; [|discriminate].
  destruct (bool_decide (y2 = "0"%char)) eqn:H2; [|discriminate].
  destruct (is_digit y3) eqn:H3; [|discriminate].
  destruct (is_digit y4) eqn:H4; [|discriminate].
  simpl. intros H.
  destruct (_ && _) in H; [|discriminate].
  apply bool_decide_char in H1, H2. subst y1 y2.
  injection H as <- <- <-. exists y3, y4. auto.
Qed.

Lemma findall_dates_match s : ∀ prev skip x,
  x ∈ findall_dates prev skip s → ∃ s', date_at s' = Some x.
Proof.
  induction s as [|c s IH]; intros prev skip x; [intros H; inversion H|].
  cbn [findall_dates]. destruct skip as [|k]; [|apply IH].
  destruct (boundary_before prev); [|apply IH].
  destruct (date_at (String c s)) as [d|] eqn:Hd; [|apply IH].
  intros [->|H]%elem_of_cons; [eauto | eapply IH, H].
Qed.

Lemma digit_value_bound c : is_digit c = true → (Spec.digit_value c ≤ 9)%N.
Proof.
  unfold is_digit, in_range, Spec.digit_value.
  intros [H1%N.leb_le H2%N.leb_le]%andb_true_iff. lia.
Qed.

Lemma year_of_match c3 c4 rest :
  is_digit c3 = true → is_digit c4 = true →
  ∃ y, Spec.year (String "2" (String "0" (String c3 (String c4 rest)))) = Some y
       ∧ (2000 ≤ y ≤ 2099)%N.
Proof.
  intros H3 H4. unfold Spec.year. rewrite H3, H4.
  change (is_digit "2") with true. change (is_digit "0") with true.
  cbn [andb]. eexists; split; [reflexivity|].
  apply digit_value_bound in H3, H4.
  change (Spec.digit_value "2") with 2%N. change (Spec.digit_value "0") with 0%N.
  lia.
Qed.

Lemma elem_of_insert_unique x y l : x ∈ Py.insert_unique y l → x = y ∨ x ∈ l.
Proof.
  induction l as [|z l IH]; simpl.
  - intros H%list_elem_of_singleton. auto.
  - destruct (String.compare y z) eqn:Hc.
    + auto.
    + intros [->|H]%elem_of_cons; auto.
    + intros [->|H]%elem_of_cons; [right; left|].
      destruct (IH H) as [->|H']; [auto | right; right; exact H'].
Qed.

Lemma elem_of_sorted_set x l : x ∈ Py.sorted_set l → x ∈ l.
Proof.
  induction l as [|y l IH]; simpl; [auto|].
  intros [->|H]%elem_of_insert_unique; [left | right; auto].
Qed.

Lemma match_year_20xx y m d s :
  date_at s = Some (y, m, d) → Spec.year_20xx (y +:+ "-" +:+ m +:+ "-" +:+ d).
Proof.
  intros (c3 & c4 & -> & H3 & H4 & Hm & Hd)%date_at_year.
  destruct m as [|m1 [|m2 [|]]]; try discriminate.
  destruct d as [|d1 [|d2 [|]]]; try discriminate.
  split; [reflexivity|]. split; [reflexivity|].
  apply year_of_match; assumption.
Qed.

Lemma V1_extract_dates_year text date :
  date ∈ V1.extract_dates text → Spec.year_20xx date.
Proof.
  unfold V1.extract_dates.
  intros ([[y m] d] & -> & H)%elem_of_sorted_set%list_elem_of_fmap.
  apply findall_dates_match in H as [s Hs].
  apply match_year_20xx in Hs. exact Hs.
Qed.

Lemma V3_extract_dates_year text date :
  date ∈ V3.extract_dates text → Spec.year_20xx date.
Proof.
  unfold V3.extract_dates.
  intros ([[y m] d] & -> & H)%list_elem_of_fmap.
  apply findall_dates_match in H as [s Hs].
  apply match_year_20xx in Hs. exact Hs.
Qed.

End Dates.

(** C10: every date returned by [extract_dates], in [account_summarizer.py]
    and in [account_summarizer_v3.py], is ten characters long, starts with
    ["20"] and has a year from 2000 to 2099; in particular neither
    ["1999-03-05"] nor ["2112-01-01"] is ever returned. *)
Theorem C10_dates_have_year_20xx (text date : string) :
  (date ∈ V1.extract_dates text ∨ date ∈ V3.extract_dates text →
     String.length date = 10 ∧ String.substring 0 2 date = "20" ∧
     ∃ y, Spec.year date = Some y ∧ (2000 ≤ y ≤ 2099)%N) ∧
  ("1999-03-05" ∉ V1.extract_dates text) ∧
  ("1999-03-05" ∉ V3.extract_dates text) ∧
  ("2112-01-01" ∉ V1.extract_dates text) ∧
  ("2112-01-01" ∉ V3.extract_dates text).
Proof.
  assert (Hno : ∀ d, d = "1999-03-05" ∨ d = "2112-01-01" → ¬ Spec.year_20xx d).
  { intros d [-> | ->] (_ & H & _); discriminate H. }
  split; [intros [H|H]; [apply V1_extract_dates_year in H | apply V3_extract_dates_year in H]; exact H|].
  repeat split; intros H.
  - apply V1_extract_dates_year in H. revert H. apply Hno. auto.
  - apply V3_extract_dates_year in H. revert H. apply Hno. auto.
  - apply V1_extract_dates_year in H. revert H. apply Hno. auto.
  - apply V3_extract_dates_year in H. revert H. apply Hno. auto.
Qed.

Lemma C10_dates_witness :
  "2024-03-05" ∈ V1.extract_dates "Launched on 2024-03-05 and revised 2024/13/40, not 1999-03-05" ∧
  String.substring 0 2 "2024-03-05" = "20" ∧
  V3.extract_dates "Old 1999-03-05, far 2112-01-01, now 2024/03/05" = ["2024-03-05"].
Proof.
  assert (Hin : "2024-03-05" ∈ V1.extract_dates "Launched on 2024-03-05 and revised 2024/13/40, not 1999-03-05")
    by (vm_compute; left).
  split; [exact Hin|]. split; [|reflexivity].
  exact (proj1 (proj2 (proj1 (C10_dates_have_year_20xx _ _) (or_introl Hin)))).
Defined.

(** ** The text loaders *)

Section Loaders.
Variable fs : string → Py.result string.
Variable json_loads : string → Py.result Py.json.
Variable repr : Py.json → string.
Variable suffix : string → string.

(** [load_text_from_file] of [account_summarizer.py] never raises, and a
    file that cannot be read or decoded gives the empty string. *)
Lemma V1_load_text_total path :
  ∃ text, V1.load_text_from_file fs json_loads repr path = Py.Ok text.
Proof.
  unfold V1.load_text_from_file, Py.try_except.
  destruct (V1.load_body _ _ _ _); simpl; eauto.
Qed.

Lemma V1_load_text_unreadable path e :
  fs path = Py.Raise e →
  V1.load_text_from_file fs json_loads repr path = Py.Ok "".
Proof.
  intros H. unfold V1.load_text_from_file, V1.load_body.
  destruct (Py.endswith _ _); rewrite H; reflexivity.
Qed.

Lemma mapM_total {A B} (f : A → Py.result B) l :
  (∀ x, ∃ y, f x = Py.Ok y) → ∃ ys, Py.mapM f l = Py.Ok ys.
Proof.
  intros Hf. induction l as [|x l [ys IH]]; simpl; [eauto|].
  destruct (Hf x) as [y ->]. simpl. rewrite IH. simpl. eauto.
Qed.

Lemma V1_load_corpus_total paths :
  ∃ texts, V1.load_corpus fs json_loads repr paths = Py.Ok texts.
Proof.
  unfold V1.load_corpus.
  destruct (mapM_total (V1.load_text_from_file fs json_loads repr) paths) as [ys ->].
  - apply V1_load_text_total.
  - simpl. eauto.
Qed.

(** So does [load_text] of [account_summarizer_v3.py]. *)
Lemma V3_load_text_total path :
  ∃ text, V3.load_text fs json_loads repr path = Py.Ok text.
Proof.
  unfold V3.load_text, Py.try_except.
  destruct (V3.load_body _ _ _ _); simpl; eauto.
Qed.

Lemma V3_load_text_unreadable path e :
  fs path = Py.Raise e → V3.load_text fs json_loads repr path = Py.Ok "".
Proof.
  intros H. unfold V3.load_text, V3.load_body.
  destruct (Py.endswith _ _); rewrite H; reflexivity.
Qed.

Lemma V3_load_texts_total paths :
  ∃ texts, V3.load_texts fs json_loads repr paths = Py.Ok texts.
Proof. apply mapM_total, V3_load_text_total. Qed.

(** [load_text] of [scripts/account_summarizer.py] gives the empty string
    for a file that cannot be opened or read ([OSError]) ... *)
Lemma Orbit_load_text_unreadable path :
  fs path = Py.Raise Py.OSError →
  Orbit.load_text fs json_loads repr suffix path = Py.Ok "".
Proof. intros H. unfold Orbit.load_text. rewrite H. reflexivity. Qed.

(** ... but lets the error of a file that cannot be decoded through. *)
Lemma Orbit_load_text_undecodable path :
  fs path = Py.Raise Py.UnicodeDecodeError →
  Orbit.load_text fs json_loads repr suffix path = Py.Raise Py.UnicodeDecodeError.
Proof. intros H. unfold Orbit.load_text. rewrite H. reflexivity. Qed.

Lemma mapM_raises {A B} (f : A → Py.result B) l x e :
  x ∈ l → f x = Py.Raise e → ∃ e', Py.mapM f l = Py.Raise e'.
Proof.
  intros Hin Hx. induction l as [|y l IH]; [inversion Hin|].
  simpl. apply elem_of_cons in Hin as [<-|Hin].
  - rewrite Hx. simpl. eauto.
  - destruct (f y); simpl; [|eauto].
    destruct (IH Hin) as [e' ->]. simpl. eauto.
Qed.

Lemma Orbit_load_texts_undecodable files path :
  path ∈ files → fs path = Py.Raise Py.UnicodeDecodeError →
  ∃ e, Orbit.load_texts fs json_loads repr suffix files = Py.Raise e.
Proof.
  intros Hin H. eapply mapM_raises; [exact Hin|].
  apply Orbit_load_text_undecodable, H.
Qed.
End Loaders.

(** C7, at the failing input: in [scripts/account_summarizer.py] a file
    that is no valid UTF-8 makes [load_text] raise [UnicodeDecodeError]
    instead of returning the empty string, and the reading step of
    [build_summary] raises with it, whatever the JSON parser is. *)
Theorem C7_orbit_undecodable_file_raises
    (json_loads : string → Py.result Py.json) (repr : Py.json → string)
    (suffix : string → string) :
  Orbit.load_text Sample.latin1_fs json_loads repr suffix "notes/latin1.txt"
    = Py.Raise Py.UnicodeDecodeError ∧
  Orbit.load_texts Sample.latin1_fs json_loads repr Sample.latin1_suffix
    Sample.latin1_folder
    = Py.Raise Py.UnicodeDecodeError.
Proof. split; reflexivity. Qed.

(** The loaders of the two other scripts give the empty string there, and
    their runs go on. *)
Lemma C7_siblings_skip_undecodable_file
    (json_loads : string → Py.result Py.json) (repr : Py.json → string) :
  V1.load_text_from_file Sample.latin1_fs json_loads repr "notes/latin1.txt" = Py.Ok "" ∧
  V3.load_text Sample.latin1_fs json_loads repr "notes/latin1.txt" = Py.Ok "" ∧
  V1.load_corpus Sample.latin1_fs json_loads repr Sample.latin1_folder
    = Py.Ok ["The kernel schedules every task."] ∧
  V3.load_texts Sample.latin1_fs json_loads repr Sample.latin1_folder
    = Py.Ok ["The kernel schedules every task."; ""].
Proof. repeat split; reflexivity. Qed.

(** ** The executive summary *)

Lemma slice_to_nonneg {A} (n : nat) (l : list A) :
  Py.slice_to (Z.of_nat n) l = take n l.
Proof.
  unfold Py.slice_to. rewrite bool_decide_eq_true_2 by lia.
  rewrite Nat2Z.id. reflexivity.
Qed.

Lemma slice_to_prefix {A} (n : Z) (l : list A) : Py.slice_to n l `prefix_of` l.
Proof. unfold Py.slice_to. destruct (bool_decide _); apply prefix_take. Qed.

Lemma V3_executive_loop_prefix domain_ranked order : ∀ acc,
  V3.executive_loop domain_ranked order acc
    `prefix_of` acc ++ Spec.top_two domain_ranked order.
Proof.
  induction order as [|dom order IH]; intros acc; simpl.
  - unfold Spec.top_two. simpl. rewrite app_nil_r. reflexivity.
  - unfold Spec.top_two. simpl. fold (Spec.top_two domain_ranked order).
    change 2%Z with (Z.of_nat 2). rewrite slice_to_nonneg.
    set (picks := (λ p, dom +:+ ": " +:+ p) <$> _).
    rewrite (assoc_L (++)).
    destruct (bool_decide _).
    + apply prefix_app_r. reflexivity.
    + apply IH.
Qed.

(** In [account_summarizer_v3.py] the summary has at most ten entries, the
    first entries of the top-two lists of the themes in order. *)
Lemma V3_executive_summary_capped domain_ranked order :
  length (V3.executive_summary domain_ranked order) ≤ 10 ∧
  V3.executive_summary domain_ranked order
    `prefix_of` Spec.top_two domain_ranked order.
Proof.
  unfold V3.executive_summary. change 10%Z with (Z.of_nat 10).
  rewrite slice_to_nonneg. split.
  - rewrite length_take. lia.
  - etrans; [apply prefix_take|].
    apply (V3_executive_loop_prefix domain_ranked order []).
Qed.

(** In [account_summarizer.py] the loop adds up to two entries per theme
    and is left once ten are reached: eleven entries are possible, not
    more. *)
Lemma V1_executive_loop_length d h order : ∀ acc,
  length acc ≤ 9 → length (V1.executive_loop d h order acc) ≤ 11.
Proof.
  induction order as [|dom order IH]; intros acc Hacc; simpl; [lia|].
  change 2%Z with (Z.of_nat 2). rewrite slice_to_nonneg.
  set (picks := (λ p, dom +:+ ": " +:+ p) <$> _).
  assert (length picks ≤ 2) as Hp.
  { unfold picks. rewrite !length_fmap, length_take. lia. }
  case_bool_decide as Hlen.
  - rewrite length_app. lia.
  - apply IH. lia.
Qed.

Lemma V1_executive_summary_length d h :
  length (V1.executive_summary d h) ≤ 11.
Proof. apply V1_executive_loop_length. simpl. lia. Qed.

(** C6, at the failing input: in [account_summarizer.py], for a corpus in
    which the first theme has one ranked sentence and the next five have
    two each, the executive summary of the report has eleven entries;
    nothing cuts it to ten. *)
Theorem C6_v1_executive_summary_has_eleven :
  length (V1.executive_summary_of (V1.build_report Sample.eleven_texts 100)) = 11.
Proof. vm_compute. reflexivity. Qed.

(** ** Round-robin sampling and the lists it works on *)

Section RoundRobin.
Implicit Types (d : V1.pydict) (h : V1.store) (picked : list string).

Lemma deref_insert_ne h l l' rest :
  l ≠ l' → V1.deref (<[l := rest]> h) l' = V1.deref h l'.
Proof. intros Hne. unfold V1.deref. rewrite list_lookup_insert_ne; auto. Qed.

Lemma deref_insert_suffix h l l' rest x :
  V1.deref h l = x :: rest →
  V1.deref (<[l := rest]> h) l' `suffix_of` V1.deref h l'.
Proof.
  intros Hl. destruct (decide (l = l')) as [<-|Hne].
  - unfold V1.deref in *. destruct (h !! l) as [old|] eqn:Hh; [|discriminate].
    simpl in Hl. subst old.
    rewrite list_lookup_insert_eq by (eapply lookup_lt_Some, Hh).
    simpl. apply suffix_cons_r. reflexivity.
  - rewrite deref_insert_ne by exact Hne. reflexivity.
Qed.

(** A turn touches at most the list of the theme whose turn it is, and
    only takes its first item away. *)
Lemma sample_turn_frame d index picked h l :
  l ∉ d.*2 → (V1.sample_turn d index picked h).2 !! l = h !! l.
Proof.
  intros Hl. unfold V1.sample_turn.
  destruct (d !! _) as [[k l']|] eqn:Hd; [|reflexivity].
  destruct (V1.deref h l') as [|[s q] rest]; [reflexivity|]. simpl.
  apply list_lookup_insert_ne. intros ->. apply Hl.
  apply list_elem_of_fmap. exists (k, l). split; [reflexivity|].
  eapply list_elem_of_lookup_2, Hd.
Qed.

Lemma sample_turn_suffix d index picked h l :
  V1.deref (V1.sample_turn d index picked h).2 l `suffix_of` V1.deref h l.
Proof.
  unfold V1.sample_turn.
  destruct (d !! _) as [[k l']|]; [|reflexivity].
  destruct (V1.deref h l') as [|[s q] rest] eqn:Hl'; [reflexivity|]. simpl.
  eapply deref_insert_suffix, Hl'.
Qed.

Lemma sample_loop_frame turns d target_n l : ∀ index picked h,
  l ∉ d.*2 →
  (V1.sample_loop turns d target_n index picked h).2 !! l = h !! l.
Proof.
  induction turns as [|turns IH]; intros index picked h Hl; simpl; [reflexivity|].
  destruct (_ && _); [|reflexivity].
  destruct (V1.sample_turn d index picked h) as [picked' h'] eqn:Ht.
  rewrite IH by exact Hl.
  change h' with (picked', h').2. rewrite <- Ht. apply sample_turn_frame, Hl.
Qed.

Lemma sample_loop_suffix turns d target_n l : ∀ index picked h,
  V1.deref (V1.sample_loop turns d target_n index picked h).2 l
    `suffix_of` V1.deref h l.
Proof.
  induction turns as [|turns IH]; intros index picked h; simpl; [reflexivity|].
  destruct (_ && _); [|reflexivity].
  destruct (V1.sample_turn d index picked h) as [picked' h'] eqn:Ht.
  etrans; [apply IH|].
  change h' with (picked', h').2. rewrite <- Ht. apply sample_turn_suffix.
Qed.

Lemma balanced_sample_store d target_n h :
  (V1.balanced_sample d target_n h).2
  = (V1.sample_loop V1.SAFETY_TURNS d target_n 0 [] h).2.
Proof.
  unfold V1.balanced_sample.
  destruct (V1.sample_loop _ _ _ _ _ _). reflexivity.
Qed.

(** The copy lives at fresh addresses and leaves the old ones alone. *)
Lemma copy_dict_fresh d : ∀ h,
  (∀ l, l ∈ (V1.copy_dict d h).1.*2 → length h ≤ l) ∧
  (∀ l, l < length h → (V1.copy_dict d h).2 !! l = h !! l).
Proof.
  induction d as [|[k a] d IH]; intros h; simpl.
  - split; [intros l Hl; inversion Hl | reflexivity].
  - destruct (V1.copy_dict d (h ++ [V1.deref h a])) as [c h'] eqn:Hc.
    specialize (IH (h ++ [V1.deref h a])). rewrite Hc in IH.
    destruct IH as [IH1 IH2]. rewrite length_app in IH1, IH2. simpl in *.
    split.
    + intros l [->|Hl]%elem_of_cons; [lia|]. apply IH1 in Hl. lia.
    + intros l Hl. rewrite IH2 by lia. apply lookup_app_l. exact Hl.
Qed.

End RoundRobin.

(** C8, as stated, fails: [balanced_sample] takes the sentences it picks
    out of the lists of the mapping it is given.  After three picks from
    the sample pools the first three lists have lost their first item. *)
Lemma C8_balanced_sample_mutates_its_argument :
  ¬ (∀ (d : V1.pydict) (target_n : Z) (h : V1.store),
       (V1.balanced_sample d target_n h).2 = h).
Proof.
  intros H.
  specialize (H Sample.eleven_ranked 3%Z Sample.eleven_store).
  apply (f_equal (fmap (M := list) length)) in H.
  vm_compute in H. discriminate H.
Qed.

(** The sampling step of [build_report] leaves every list that was there
    before it as it was. *)
Lemma canonical_step_frame
    (domain_ranked : V1.pydict) (target_sentences : Z) (h : V1.store) (l : nat) :
  l < length h →
  (V1.canonical_step domain_ranked target_sentences h).2 !! l = h !! l.
Proof.
  intros Hl. unfold V1.canonical_step.
  destruct (V1.copy_dict domain_ranked h) as [c h1] eqn:Hc.
  pose proof (copy_dict_fresh domain_ranked h) as [Hfresh Hsame].
  rewrite Hc in Hfresh, Hsame. simpl in Hfresh, Hsame.
  rewrite balanced_sample_store, sample_loop_frame.
  - apply Hsame, Hl.
  - intros Hin. apply Hfresh in Hin. lia.
Qed.

(** C8 (amended): [balanced_sample] only takes items from the front of the
    lists it is given (each list is afterwards a suffix of what it was),
    and the sampling step of [build_report], which hands it a copy, leaves
    every list that existed before the step as it was. *)
Theorem C8_sampling_works_on_a_copy
    (domain_ranked : V1.pydict) (target_sentences : Z) (h : V1.store) (l : nat) :
  V1.deref (V1.balanced_sample domain_ranked target_sentences h).2 l
    `suffix_of` V1.deref h l ∧
  (l < length h →
   (V1.canonical_step domain_ranked target_sentences h).2 !! l = h !! l).
Proof.
  split.
  - rewrite balanced_sample_store. apply sample_loop_suffix.
  - apply canonical_step_frame.
Qed.

Lemma omap_pointwise {B C} (f g : B → option C) (l : list B) :
  (∀ x, f x = g x) → omap f l = omap g l.
Proof.
  intros H. induction l as [|x l IH]; [reflexivity|].
  cbn [omap list_omap]. rewrite H, IH. reflexivity.
Qed.

(** So the inventories, which [build_report] reads from [domain_ranked]
    after the sampling step, are those of the full pools. *)
Lemma V1_inventories_after_sampling (domain_ranked : V1.pydict)
    (target_sentences : Z) (h : V1.store) :
  (∀ l, l ∈ domain_ranked.*2 → l < length h) →
  V1.inventories domain_ranked
    (V1.canonical_step domain_ranked target_sentences h).2
  = V1.inventories domain_ranked h.
Proof.
  intros Hd. unfold V1.inventories.
  assert (Hget : ∀ k, V1.dict_get domain_ranked
                        (V1.canonical_step domain_ranked target_sentences h).2 k
                      = V1.dict_get domain_ranked h k).
  { intros k. unfold V1.dict_get.
    destruct (Py.assoc k domain_ranked) as [l|] eqn:Hk; [|reflexivity].
    unfold V1.deref.
    rewrite (canonical_step_frame domain_ranked target_sentences h l);
      [reflexivity|].
    apply Hd. clear -Hk. induction domain_ranked as [|[k' l'] d IH]; [discriminate|].
    simpl in Hk. destruct (String.eqb k k'); [injection Hk as ->; left|].
    right. apply IH, Hk. }
  apply omap_pointwise. intros domain. rewrite Hget. reflexivity.
Qed.

Lemma C8_sampling_witness :
  (V1.canonical_step Sample.eleven_ranked 3 Sample.eleven_store).2 !! 0
  = Sample.eleven_store !! 0.
Proof.
  apply (C8_sampling_works_on_a_copy Sample.eleven_ranked 3 Sample.eleven_store 0).
  vm_compute. lia.
Defined.

(** ** The sentence segmenters *)

Section Words.
Import Text.

Lemma findall_runs_nonempty p s : ∀ cur,
  cur ≠ EmptyString → findall_runs p cur s ≠ [].
Proof.
  induction s as [|c s IH]; intros cur Hcur; simpl.
  - destruct cur; [congruence | discriminate].
  - destruct (p c).
    + apply IH. unfold snoc. destruct cur; discriminate.
    + destruct cur; [congruence | discriminate].
Qed.

(** A character outside the class separates the runs on its two sides. *)
Lemma findall_runs_sep p c b a : ∀ cur,
  p c = false →
  findall_runs p cur (a +:+ String c b)
  = findall_runs p cur a ++ findall_runs p EmptyString b.
Proof.
  induction a as [|x a IH]; intros cur Hc; simpl.
  - rewrite Hc. reflexivity.
  - destruct (p x).
    + apply IH, Hc.
    + rewrite IH by exact Hc. rewrite (assoc_L (++)). reflexivity.
Qed.

Lemma split_space a b :
  Py.split (a +:+ " " +:+ b) = Py.split a ++ Py.split b.
Proof. unfold Py.split, findall_class. apply findall_runs_sep. reflexivity. Qed.

Lemma rstrip_head c s :
  is_space c = false → ∃ r, Py.rstrip (String c s) = String c r.
Proof.
  intros Hc. simpl. destruct (Py.rstrip s); rewrite ?Hc; eauto.
Qed.

Lemma lstrip_head s :
  Py.lstrip s = EmptyString ∨
  ∃ c r, Py.lstrip s = String c r ∧ is_space c = false.
Proof.
  induction s as [|c s IH]; simpl; [auto|].
  destruct (is_space c) eqn:Hc; [exact IH | right; eauto].
Qed.

(** A trimmed string that is not empty starts with a character that is no
    white space, hence has a word. *)
Lemma strip_has_word s : Py.strip s ≠ EmptyString → Py.split (Py.strip s) ≠ [].
Proof.
  unfold Py.strip. destruct (lstrip_head s) as [->|(c & r & -> & Hc)].
  - simpl. congruence.
  - intros _. destruct (rstrip_head c r Hc) as [r' ->].
    unfold Py.split, findall_class. simpl. rewrite Hc. simpl.
    apply findall_runs_nonempty. discriminate.
Qed.

Lemma long_has_word s : 10 ≤ String.length (Py.strip s) → Py.split (Py.strip s) ≠ [].
Proof.
  intros Hlen. apply strip_has_word. intros H. rewrite H in Hlen. simpl in Hlen. lia.
Qed.
End Words.

Section Merge.

Lemma ends_with_abbrev_total previous :
  Py.split previous ≠ [] → ∃ b, V3.ends_with_abbrev previous = Py.Ok b.
Proof.
  intros H. unfold V3.ends_with_abbrev.
  destruct (last (Py.split previous)) eqn:Hl; [eauto|].
  apply last_None in Hl. contradiction.
Qed.

Lemma last_has_words out previous :
  Spec.has_words out → last out = Some previous → Py.split previous ≠ [].
Proof.
  intros Hw Hl. apply last_Some in Hl as [out' ->].
  apply Forall_app in Hw as [_ Hw]. inversion Hw; assumption.
Qed.

Lemma removelast_snoc {A} (l : list A) x : removelast (l ++ [x]) = l.
Proof. apply removelast_last. Qed.

(** A turn on a piece of at least ten characters ends with a last sentence
    whose words end with the words of the piece. *)
Lemma merge_turn_long out s :
  Spec.has_words out → 10 ≤ String.length (Py.strip s) →
  ∃ out' x ws,
    V3.merge_turn out s = Py.Ok (out' ++ [x]) ∧
    Py.split x = ws ++ Py.split (Py.strip s) ∧
    (x = Py.strip s ∨ ∃ previous, x = previous +:+ " " +:+ Py.strip s) ∧
    Spec.has_words (out' ++ [x]).
Proof.
  intros Hw Hlen. unfold V3.merge_turn.
  rewrite bool_decide_eq_false_2 by lia.
  pose proof (long_has_word s Hlen) as Hs.
  destruct (last out) as [previous|] eqn:Hl.
  - pose proof (last_has_words _ _ Hw Hl) as Hp.
    destruct (ends_with_abbrev_total previous Hp) as [b ->]. simpl.
    apply last_Some in Hl as [out0 ->]. destruct b.
    + exists out0, (previous +:+ " " +:+ Py.strip s), (Py.split previous).
      rewrite removelast_snoc. split; [reflexivity|].
      split; [apply split_space|]. split; [eauto|].
      apply Forall_app in Hw as [Hw0 _].
      apply Forall_app. split; [exact Hw0|]. constructor; [|constructor].
      rewrite split_space. intros [? _]%app_eq_nil. contradiction.
    + exists (out0 ++ [previous]), (Py.strip s), []. split; [reflexivity|].
      split; [reflexivity|]. split; [auto|].
      apply Forall_app. split; [exact Hw|]. constructor; [exact Hs | constructor].
  - apply last_None in Hl. subst out. simpl.
    exists [], (Py.strip s), []. split; [reflexivity|].
    split; [reflexivity|]. split; [auto|].
    constructor; [exact Hs | constructor].
Qed.

Lemma merge_turn_total out s :
  Spec.has_words out → ∃ out', V3.merge_turn out s = Py.Ok out' ∧ Spec.has_words out'.
Proof.
  intros Hw. destruct (decide (10 ≤ String.length (Py.strip s))) as [Hlen|Hlen].
  - destruct (merge_turn_long out s Hw Hlen) as (out' & x & ws & -> & _ & _ & Hw').
    eauto.
  - unfold V3.merge_turn. rewrite bool_decide_eq_true_2 by lia. eauto.
Qed.

Lemma merge_loop_total tentative : ∀ out,
  Spec.has_words out → ∃ out', V3.merge_loop out tentative = Py.Ok out' ∧ Spec.has_words out'.
Proof.
  induction tentative as [|s tentative IH]; intros out Hw; simpl; [eauto|].
  destruct (merge_turn_total out s Hw) as (out1 & -> & Hw1). simpl.
  apply IH, Hw1.
Qed.

Lemma merge_loop_app l1 l2 : ∀ out,
  V3.merge_loop out (l1 ++ l2)
  = Py.bind (V3.merge_loop out l1) (λ out1, V3.merge_loop out1 l2).
Proof.
  induction l1 as [|s l1 IH]; intros out; simpl; [reflexivity|].
  destruct (V3.merge_turn out s); simpl; [apply IH | reflexivity].
Qed.

(** [split_sentences] never fails on its index. *)
Lemma V3_split_sentences_total text :
  ∃ out, V3.split_sentences text = Py.Ok out.
Proof.
  unfold V3.split_sentences.
  destruct (Py.strip _); [eauto|].
  destruct (merge_loop_total (Text.sentence_split (String a s)) []) as (out & -> & _);
    [constructor | eauto].
Qed.

(** The piece [b] behind a piece [a] that ends with an abbreviation joins
    the sentence that [a] is in. *)
Lemma merge_after_abbreviation pre a b word :
  10 ≤ String.length (Py.strip a) → 10 ≤ String.length (Py.strip b) →
  last (Py.split (Py.strip a)) = Some word → Text.lower word ∈ V3.ABBREV →
  ∃ out x,
    V3.merge_loop [] (pre ++ [a]) = Py.Ok (out ++ [x]) ∧
    (x = Py.strip a ∨ ∃ previous, x = previous +:+ " " +:+ Py.strip a) ∧
    V3.merge_loop [] (pre ++ [a; b]) = Py.Ok (out ++ [x +:+ " " +:+ Py.strip b]).
Proof.
  intros Ha Hb Hword Habbrev.
  destruct (merge_loop_total pre []) as (out0 & Hpre & Hw0); [constructor|].
  destruct (merge_turn_long out0 a Hw0 Ha) as (out & x & ws & Hturn & Hsplit & Hx & Hw).
  exists out, x. split; [|split; [exact Hx|]].
  - rewrite merge_loop_app, Hpre. simpl. rewrite Hturn. reflexivity.
  - change [a; b] with ([a] ++ [b]). rewrite (assoc_L (++)).
    rewrite merge_loop_app.
    rewrite merge_loop_app, Hpre. simpl. rewrite Hturn. simpl.
    unfold V3.merge_turn. rewrite bool_decide_eq_false_2 by lia.
    rewrite last_snoc. unfold V3.ends_with_abbrev.
    rewrite Hsplit, last_app, Hword. simpl.
    rewrite bool_decide_eq_true_2 by exact Habbrev.
    rewrite removelast_snoc. reflexivity.
Qed.
End Merge.

(** C9, as stated, fails.  The segmenters of [account_summarizer.py] and
    of [scripts/account_summarizer.py] know no abbreviations, and emit the
    piece behind ["Dr."] as a sentence of its own.  The segmenter of
    [account_summarizer_v3.py] filters by length before it looks at the
    abbreviation: a short piece behind ["Dr."] is dropped, and a piece
    behind a ["Mr."] that stands alone opens a new sentence. *)
Lemma C9_segmenters_without_abbreviations :
  "dr." ∈ V3.ABBREV ∧ "mr." ∈ V3.ABBREV ∧
  V1.split_sentences "We talked to Dr. Smith about the plan."
    = ["We talked to Dr."; "Smith about the plan."] ∧
  Orbit.split_sentences "We talked to Dr. Smith about the plan."
    = ["We talked to Dr."; "Smith about the plan."] ∧
  V3.split_sentences "We met with Dr. Smith." = Py.Ok ["We met with Dr."] ∧
  V3.split_sentences "Hello world today. Mr. Smith went home."
    = Py.Ok ["Hello world today."; "Smith went home."].
Proof.
  split; [apply (bool_decide_eq_true_1 ("dr." ∈ V3.ABBREV)); reflexivity|].
  split; [apply (bool_decide_eq_true_1 ("mr." ∈ V3.ABBREV)); reflexivity|].
  repeat split; reflexivity.
Qed.

(** C9 (amended): in [account_summarizer_v3.py], when two pieces [a] and
    [b] that follow each other at a detected boundary both have at least
    ten characters after trimming and the last word of [a], in lower case,
    is in the abbreviation list, then [b] opens no sentence: it is appended,
    behind a space, to the sentence that ends with [a], and the loop goes
    on from there. *)
Theorem C9_abbreviation_joins_next_piece
    (text : string) (pre : list string) (a b : string) (post : list string)
    (word : string) :
  Text.sentence_split (Py.strip (Py.collapse_ws false text)) = pre ++ a :: b :: post →
  10 ≤ String.length (Py.strip a) →
  10 ≤ String.length (Py.strip b) →
  last (Py.split (Py.strip a)) = Some word →
  Text.lower word ∈ V3.ABBREV →
  ∃ out x,
    V3.merge_loop [] (pre ++ [a]) = Py.Ok (out ++ [x]) ∧
    (x = Py.strip a ∨ ∃ previous, x = previous +:+ " " +:+ Py.strip a) ∧
    V3.split_sentences text
      = V3.merge_loop (out ++ [x +:+ " " +:+ Py.strip b]) post.
Proof.
  intros Hsplit Ha Hb Hword Habbrev.
  destruct (merge_after_abbreviation pre a b word Ha Hb Hword Habbrev)
    as (out & x & Hpre & Hx & Hab).
  exists out, x. split; [exact Hpre|]. split; [exact Hx|].
  unfold V3.split_sentences.
  destruct (Py.strip (Py.collapse_ws false text)) as [|c s] eqn:Hn.
  - destruct pre as [|? [|? ?]]; discriminate Hsplit.
  - rewrite Hsplit.
    change (pre ++ a :: b :: post) with (pre ++ [a; b] ++ post).
    rewrite (assoc_L (++)), merge_loop_app, Hab. reflexivity.
Qed.

Lemma C9_abbreviation_witness :
  ∃ out x,
    V3.merge_loop [] (["Hello there friend."] ++ ["We talked to Dr."])
      = Py.Ok (out ++ [x]) ∧
    (x = Py.strip "We talked to Dr."
     ∨ ∃ previous, x = previous +:+ " " +:+ Py.strip "We talked to Dr.") ∧
    V3.split_sentences
      "Hello there friend.  We talked to Dr. Smith about the plan. It went well!"
      = V3.merge_loop (out ++ [x +:+ " " +:+ Py.strip "Smith about the plan."])
                      ["It went well!"].
Proof.
  apply (C9_abbreviation_joins_next_piece
           "Hello there friend.  We talked to Dr. Smith about the plan. It went well!"
           ["Hello there friend."] "We talked to Dr." "Smith about the plan."
           ["It went well!"] "Dr.").
  - reflexivity.
  - vm_compute. lia.
  - vm_compute. lia.
  - reflexivity.
  - apply (bool_decide_eq_true_1 (Text.lower "Dr." ∈ V3.ABBREV)). reflexivity.
Defined.

(** ** Sorting by score *)

Section Sorting.
Context {A : Type}.
Implicit Types (x y : A * Qc) (l : list (A * Qc)).

Lemma before_trans x y z : Spec.before x y → Spec.before y z → Spec.before x z.
Proof. unfold Spec.before. intros H1 H2. eapply Qcle_trans; eauto. Qed.

Lemma insert_desc_perm x l : Py.insert_desc x l ≡ₚ x :: l.
Proof.
  induction l as [|y l IH]; simpl; [reflexivity|].
  case_bool_decide; [reflexivity|].
  rewrite IH. apply Permutation_swap.
Qed.

Lemma sort_fold_perm l : ∀ acc,
  foldl (λ sorted x, Py.insert_desc x sorted) acc l ≡ₚ acc ++ l.
Proof.
  induction l as [|x l IH]; intros acc; simpl.
  - rewrite app_nil_r. reflexivity.
  - rewrite IH, insert_desc_perm. apply Permutation_middle.
Qed.

Lemma sort_by_score_desc_perm l : Py.sort_by_score_desc l ≡ₚ l.
Proof. apply (sort_fold_perm l []). Qed.

Lemma insert_desc_sorted x l :
  StronglySorted Spec.before l → StronglySorted Spec.before (Py.insert_desc x l).
Proof.
  induction 1 as [|y l Hl IH Hy]; simpl.
  - repeat constructor.
  - case_bool_decide as Hlt.
    + constructor; [constructor; assumption|].
      assert (Spec.before x y) as Hxy by (apply Qclt_le_weak, Hlt).
      constructor; [exact Hxy|].
      eapply Forall_impl; [exact Hy|]. intros z Hz. eapply before_trans; eauto.
    + constructor; [exact IH|].
      rewrite insert_desc_perm. constructor; [|exact Hy].
      apply Qcnot_lt_le, Hlt.
Qed.

Lemma sort_fold_sorted l : ∀ acc,
  StronglySorted Spec.before acc →
  StronglySorted Spec.before (foldl (λ sorted x, Py.insert_desc x sorted) acc l).
Proof.
  induction l as [|x l IH]; intros acc Hacc; simpl; [exact Hacc|].
  apply IH, insert_desc_sorted, Hacc.
Qed.

Lemma strongly_sorted_lookup l :
  StronglySorted Spec.before l →
  ∀ i j x y, i < j → l !! i = Some x → l !! j = Some y → Spec.before x y.
Proof.
  induction 1 as [|z l Hl IH Hz]; intros i j x y Hij Hi Hj; [destruct i; discriminate|].
  destruct j as [|j]; [lia|]. simpl in Hj. destruct i as [|i]; simpl in Hi.
  - injection Hi as ->. rewrite Forall_forall in Hz.
    apply Hz. eapply list_elem_of_lookup_2, Hj.
  - eapply (IH i j); eauto. lia.
Qed.

Lemma strongly_sorted_descending l : StronglySorted Spec.before l → Spec.descending l.
Proof.
  intros Hs i j x y Hij Hi Hj.
  destruct (decide (i = j)) as [->|Hne].
  - rewrite Hi in Hj. injection Hj as ->. apply Qcle_refl.
  - eapply (strongly_sorted_lookup l Hs i j); eauto. lia.
Qed.

Lemma sort_by_score_desc_descending l :
  Spec.descending (Py.sort_by_score_desc l).
Proof. apply strongly_sorted_descending, sort_fold_sorted. constructor. Qed.

Lemma descending_prefix l k : k `prefix_of` l → Spec.descending l → Spec.descending k.
Proof.
  intros [t ->] Hd i j x y Hij Hi Hj.
  apply (Hd i j); [exact Hij | apply lookup_app_l_Some, Hi | apply lookup_app_l_Some, Hj].
Qed.
End Sorting.

(** ** Counters and document frequencies *)

Section Counters.
Implicit Types (c df : gmap string nat) (t k : string) (l toks : list string).

Lemma count_incr c k t :
  Py.count (Py.incr c k) t = Py.count c t + (if decide (t = k) then 1 else 0).
Proof.
  unfold Py.incr, Py.count. destruct (decide (t = k)) as [->|Hne].
  - rewrite lookup_insert_eq. simpl. lia.
  - rewrite lookup_insert_ne by congruence. lia.
Qed.

Lemma term_count_cons t k l :
  Spec.term_count t (k :: l)
  = (if decide (t = k) then 1 else 0) + Spec.term_count t l.
Proof.
  unfold Spec.term_count. rewrite filter_cons.
  destruct (decide (k = t)) as [->|Hne].
  - rewrite decide_True by reflexivity. reflexivity.
  - rewrite decide_False by congruence. reflexivity.
Qed.

Lemma count_fold_incr l : ∀ c t,
  Py.count (foldl Py.incr c l) t = Py.count c t + Spec.term_count t l.
Proof.
  induction l as [|k l IH]; intros c t; simpl.
  - unfold Spec.term_count. simpl. lia.
  - rewrite IH, count_incr, term_count_cons. lia.
Qed.

Lemma count_Counter l t : Py.count (Py.Counter l) t = Spec.term_count t l.
Proof.
  unfold Py.Counter. rewrite count_fold_incr. unfold Py.count.
  rewrite lookup_empty. reflexivity.
Qed.

Lemma term_count_pos t l : t ∈ l ↔ 0 < Spec.term_count t l.
Proof.
  induction l as [|k l IH]; [split; [intros H; inversion H | unfold Spec.term_count; simpl; lia]|].
  rewrite term_count_cons, elem_of_cons.
  destruct (decide (t = k)) as [->|Hne]; [split; [lia | auto]|].
  rewrite IH. simpl. split; [intros [?|?]; [contradiction | assumption] | auto].
Qed.

Lemma term_count_NoDup t l :
  NoDup l → Spec.term_count t l = if decide (t ∈ l) then 1 else 0.
Proof.
  induction 1 as [|k l Hk Hl IH]; [reflexivity|].
  rewrite term_count_cons, IH.
  destruct (decide (t = k)) as [->|Hne].
  - rewrite (decide_False (P := k ∈ l)) by exact Hk.
    rewrite decide_True by left. reflexivity.
  - destruct (decide (t ∈ l)) as [Hin|Hin].
    + rewrite decide_True by (right; exact Hin). reflexivity.
    + rewrite decide_False; [reflexivity|].
      intros [?|?]%elem_of_cons; contradiction.
Qed.

(** Keys are entered with a count of one or more, and stay. *)
Lemma lookup_fold_incr l : ∀ c t,
  foldl Py.incr c l !! t = None ↔ c !! t = None ∧ t ∉ l.
Proof.
  induction l as [|k l IH]; intros c t; simpl.
  - split; [intros H; split; [exact H | intros Hin; inversion Hin] | tauto].
  - rewrite IH. unfold Py.incr. rewrite not_elem_of_cons.
    destruct (decide (k = t)) as [->|Hne].
    + rewrite lookup_insert_eq. split; [intros [? _]; discriminate | tauto].
    + rewrite lookup_insert_ne by exact Hne. split; [intros [? ?] | intros (? & ? & ?)]; auto.
Qed.

Lemma lookup_Counter l t (n : nat) :
  Py.Counter l !! t = Some n ↔ t ∈ l ∧ n = Spec.term_count t l.
Proof.
  pose proof (count_Counter l t) as Hc. unfold Py.count in Hc.
  pose proof (lookup_fold_incr l ∅ t) as Hn. fold (Py.Counter l) in Hn.
  rewrite lookup_empty in Hn.
  destruct (Py.Counter l !! t) as [m|] eqn:Hl; simpl in Hc.
  - assert (t ∈ l) as Hin.
    { destruct (decide (t ∈ l)) as [?|Hnin]; [assumption|].
      destruct Hn as [_ Hn]. specialize (Hn (conj eq_refl Hnin)). discriminate. }
    split; [intros [= <-]; auto | intros [_ ->]; congruence].
  - destruct Hn as [Hn _]. specialize (Hn eq_refl) as [_ Hnin].
    split; [discriminate | intros [? _]; contradiction].
Qed.

(** The items of the counter of a token list: each distinct token with the
    number of its occurrences. *)
Lemma Counter_items toks :
  map_to_list (Py.Counter toks)
  ≡ₚ (λ t, (t, Spec.term_count t toks))
       <$> elements (list_to_set toks : gset string).
Proof.
  apply NoDup_Permutation.
  - apply NoDup_map_to_list.
  - apply NoDup_fmap_2; [intros ?? [=]; assumption | apply NoDup_elements].
  - intros [t c]. rewrite elem_of_map_to_list, lookup_Counter, list_elem_of_fmap.
    split.
    + intros [Hin ->]. exists t. split; [reflexivity|].
      apply elem_of_elements, elem_of_list_to_set, Hin.
    + intros (t' & [= -> ->] & Hin%elem_of_elements%elem_of_list_to_set). auto.
Qed.

Section DocumentFrequency.
Variable tokenize : string → list string.

Lemma count_count_once df toks t :
  Py.count (Py.count_once df toks) t
  = Py.count df t + (if decide (t ∈ toks) then 1 else 0).
Proof.
  unfold Py.count_once. rewrite count_fold_incr.
  rewrite term_count_NoDup by apply NoDup_elements. f_equal.
  destruct (decide (t ∈ toks)) as [Hin|Hin].
  - rewrite decide_True; [reflexivity|]. apply elem_of_elements, elem_of_list_to_set, Hin.
  - rewrite decide_False; [reflexivity|].
    intros H%elem_of_elements%elem_of_list_to_set. contradiction.
Qed.

Lemma count_fold_count_once bucket : ∀ df t,
  Py.count (foldl Py.count_once df (tokenize <$> bucket)) t
  = Py.count df t + Spec.df tokenize bucket t.
Proof.
  induction bucket as [|s bucket IH]; intros df t; simpl.
  - unfold Spec.df. simpl. lia.
  - rewrite IH, count_count_once. unfold Spec.df. rewrite filter_cons.
    destruct (decide (t ∈ tokenize s)); simpl; lia.
Qed.

(** The counter the two loops build holds [df(token)]. *)
Lemma count_document_frequencies bucket t :
  Py.count (Py.document_frequencies (tokenize <$> bucket)) t
  = Spec.df tokenize bucket t.
Proof.
  unfold Py.document_frequencies. rewrite count_fold_count_once.
  unfold Py.count. rewrite lookup_empty. reflexivity.
Qed.

Lemma df_pos bucket s t :
  s ∈ bucket → t ∈ tokenize s → 0 < Spec.df tokenize bucket t.
Proof.
  intros Hs Ht. unfold Spec.df.
  assert (s ∈ filter (λ sentence, t ∈ tokenize sentence) bucket) as Hin
    by (apply list_elem_of_filter; auto).
  destruct (filter _ bucket); [inversion Hin | simpl; lia].
Qed.
End DocumentFrequency.
End Counters.

(** ** The TF-IDF rankers *)

Section Scores.

Lemma elem_of_zip_fmap {B C} (f : B → C) (l : list B) x y :
  (x, y) ∈ zip l (f <$> l) → x ∈ l ∧ y = f x.
Proof.
  induction l as [|b l IH]; simpl; [intros H; inversion H|].
  intros [[= -> ->]|H]%elem_of_cons; [split; [left | reflexivity]|].
  destruct (IH H). split; [right|]; assumption.
Qed.

Lemma zip_fmap_fst {B C} (f : B → C) (l : list B) : (zip l (f <$> l)).*1 = l.
Proof. induction l as [|b l IH]; [reflexivity|]. simpl. f_equal. exact IH. Qed.

Lemma foldl_pointwise {B C} (f g : C → B → C) (l : list B) : ∀ a,
  (∀ a x, f a x = g a x) → foldl f a l = foldl g a l.
Proof.
  induction l as [|x l IH]; intros a H; simpl; [reflexivity|].
  rewrite H. apply IH, H.
Qed.

Lemma foldl_fmap_fuse {B C D} (f : D → C → D) (g : B → C) (l : list B) : ∀ a,
  foldl f a (g <$> l) = foldl (λ a x, f a (g x)) a l.
Proof. induction l as [|x l IH]; intros a; [reflexivity|]. simpl. apply IH. Qed.

Lemma elem_of_distinct l t : t ∈ Spec.distinct l ↔ t ∈ l.
Proof.
  induction l as [|k l IH]; [reflexivity|]. cbn [Spec.distinct].
  rewrite !elem_of_cons, list_elem_of_filter, IH.
  destruct (decide (t = k)); tauto.
Qed.

Lemma distinct_filter x l :
  Spec.distinct (filter (λ y, y ≠ x) l) = filter (λ y, y ≠ x) (Spec.distinct l).
Proof.
  induction l as [|y l IH]; [reflexivity|].
  cbn [Spec.distinct]. rewrite !filter_cons.
  destruct (decide (y ≠ x)) as [Hne|Heq].
  - cbn [Spec.distinct]. rewrite IH. f_equal.
    rewrite !list_filter_filter. apply list_filter_iff. intros z. tauto.
  - rewrite IH, list_filter_filter. apply list_filter_iff. intros z.
    destruct (decide (y = x)) as [->|?]; [tauto | contradiction].
Qed.

Lemma term_count_filter t x l :
  t ≠ x → Spec.term_count t (filter (λ y, y ≠ x) l) = Spec.term_count t l.
Proof.
  intros Hne. unfold Spec.term_count. rewrite list_filter_filter.
  f_equal. apply list_filter_iff. intros z. split; [tauto|].
  intros ->. auto.
Qed.

(** The counter keeps its first key in front, whatever comes later. *)
Lemma counter_fold_head x l : ∀ (n : nat) acc,
  foldl Py.counter_add ((x, n) :: acc) l
  = (x, n + Spec.term_count x l)
      :: foldl Py.counter_add acc (filter (λ y, y ≠ x) l).
Proof.
  induction l as [|k l IH]; intros n acc.
  - simpl. unfold Spec.term_count. simpl. rewrite Nat.add_0_r. reflexivity.
  - cbn [foldl Py.counter_add]. rewrite filter_cons, term_count_cons.
    destruct (String.eqb x k) eqn:Hk.
    + apply String.eqb_eq in Hk as <-.
      rewrite IH, decide_True, decide_False by auto.
      f_equal. f_equal. lia.
    + apply String.eqb_neq in Hk.
      rewrite IH, (decide_False (P := x = k)), decide_True by congruence.
      reflexivity.
Qed.

(** The items of a term counter: the distinct tokens in the order in
    which they first occur, each with the number of its occurrences. *)
Lemma counter_items_distinct l :
  Py.counter_items l = (λ t, (t, Spec.term_count t l)) <$> Spec.distinct l.
Proof.
  remember (length l) as n eqn:Hn. revert l Hn.
  induction n as [n IH] using lt_wf_ind. intros l ->.
  destruct l as [|x l]; [reflexivity|].
  unfold Py.counter_items. cbn [foldl Py.counter_add Spec.distinct].
  rewrite counter_fold_head, fmap_cons. f_equal.
  - rewrite term_count_cons, decide_True by reflexivity. reflexivity.
  - fold (Py.counter_items (filter (λ y, y ≠ x) l)).
    rewrite (IH (length (filter (λ y, y ≠ x) l))); [| |reflexivity].
    + rewrite distinct_filter. apply list_fmap_ext.
      intros i t [Hne _]%list_elem_of_lookup_2%list_elem_of_filter.
      rewrite term_count_filter by exact Hne.
      rewrite term_count_cons, decide_False by exact Hne. reflexivity.
    + simpl. pose proof (length_filter (λ y, y ≠ x) l). lia.
Qed.

(** [account_summarizer_v3.py]: inside its bucket the score of a sentence
    is the sum of its TF-IDF terms. *)
Lemma V3_sentence_score_spec how bucket s :
  s ∈ bucket →
  V3.sentence_score how
    (V3.idf_table (length bucket) (Py.document_frequencies (V3.tokenize <$> bucket)))
    (V3.tokenize s)
  = Py.sum how (Spec.tfidf_terms V3.tokenize bucket s).
Proof.
  intros Hs. unfold V3.sentence_score, Spec.tfidf_terms.
  rewrite counter_items_distinct, <- list_fmap_compose. f_equal.
  apply list_fmap_ext. intros i t Ht%list_elem_of_lookup_2.
  apply (proj1 (elem_of_distinct _ _)) in Ht.
  simpl. f_equal. unfold V3.idf_table, Spec.idf_float. rewrite lookup_fmap.
  pose proof (count_document_frequencies V3.tokenize bucket t) as Hc.
  pose proof (df_pos V3.tokenize bucket s t Hs Ht) as Hpos.
  unfold Py.count in Hc.
  destruct (Py.document_frequencies _ !! t) as [d|]; simpl in *; [|lia].
  subst d. reflexivity.
Qed.

(** [scripts/account_summarizer.py]: the score of a sentence is its
    TF-IDF terms added up from zero. *)
Lemma Orbit_sentence_score_spec bucket s :
  Orbit.sentence_score (length bucket)
    (Py.document_frequencies (Orbit.tokenize <$> bucket)) (Orbit.tokenize s)
  = foldl Py.fadd 0%Qc (Spec.tfidf_terms Orbit.tokenize bucket s).
Proof.
  unfold Orbit.sentence_score, Spec.tfidf_terms.
  rewrite counter_items_distinct, !foldl_fmap_fuse.
  apply foldl_pointwise. intros score t. simpl.
  unfold Spec.idf_float. rewrite count_document_frequencies. reflexivity.
Qed.
End Scores.

Section Rankers.

Lemma V3_rank_tfidf_unfold how bucket :
  V3.rank_tfidf how bucket
  = Py.sort_by_score_desc
      ((λ '(s, toks),
          (s, V3.sentence_score how
                (V3.idf_table (length bucket)
                   (Py.document_frequencies (V3.tokenize <$> bucket))) toks))
         <$> zip bucket (V3.tokenize <$> bucket)).
Proof. destruct bucket; reflexivity. Qed.

Lemma V3_rank_tfidf_score how bucket s score :
  (s, score) ∈ V3.rank_tfidf how bucket →
  s ∈ bucket ∧ score = Py.sum how (Spec.tfidf_terms V3.tokenize bucket s).
Proof.
  rewrite V3_rank_tfidf_unfold, sort_by_score_desc_perm.
  intros ([s' toks] & [= -> ->] & [Hs ->]%elem_of_zip_fmap)%list_elem_of_fmap.
  split; [exact Hs | apply V3_sentence_score_spec, Hs].
Qed.

(** [rank_tfidf] keeps every sentence of the bucket. *)
Lemma V3_rank_tfidf_sentences how bucket : (V3.rank_tfidf how bucket).*1 ≡ₚ bucket.
Proof.
  rewrite V3_rank_tfidf_unfold, sort_by_score_desc_perm.
  rewrite <- list_fmap_compose.
  erewrite list_fmap_ext; [rewrite zip_fmap_fst; reflexivity|].
  intros i [s toks] _. reflexivity.
Qed.

Lemma Orbit_rank_sentences_score bucket s score :
  (s, score) ∈ Orbit.rank_sentences bucket →
  s ∈ bucket ∧ Orbit.tokenize s ≠ [] ∧
  score = foldl Py.fadd 0%Qc (Spec.tfidf_terms Orbit.tokenize bucket s).
Proof.
  unfold Orbit.rank_sentences. rewrite sort_by_score_desc_perm.
  intros ([s' toks] & [Hs ->]%elem_of_zip_fmap & Hsome)%list_elem_of_omap.
  destruct (Orbit.tokenize s') eqn:Htok; [discriminate|].
  injection Hsome as -> <-. rewrite <- Htok.
  split; [exact Hs|]. split; [rewrite Htok; discriminate|].
  apply Orbit_sentence_score_spec.
Qed.

(** [rank_sentences] keeps the sentences that have a token, and only
    those. *)
Lemma Orbit_rank_sentences_sentences bucket :
  (Orbit.rank_sentences bucket).*1
  ≡ₚ filter (λ s, Orbit.tokenize s ≠ []) bucket.
Proof.
  unfold Orbit.rank_sentences. rewrite sort_by_score_desc_perm.
  set (df := Py.document_frequencies _). set (n := length bucket).
  clearbody df n.
  induction bucket as [|s bucket IH]; [reflexivity|].
  simpl. rewrite filter_cons.
  destruct (Orbit.tokenize s) eqn:Htok.
  - rewrite decide_False by auto. exact IH.
  - rewrite decide_True by discriminate. simpl. rewrite IH. reflexivity.
Qed.

Lemma V3_ranked_pool_spec how bucket max_per_domain :
  V3.ranked_pool how bucket max_per_domain `prefix_of` V3.rank_tfidf how bucket ∧
  ((0 ≤ max_per_domain)%Z →
   length (V3.ranked_pool how bucket max_per_domain) ≤ Z.to_nat max_per_domain).
Proof.
  unfold V3.ranked_pool. split; [apply slice_to_prefix|].
  intros Hn. unfold Py.slice_to. rewrite bool_decide_eq_true_2 by exact Hn.
  rewrite length_take. lia.
Qed.

Lemma Orbit_top_sentences_spec bucket top_k :
  Orbit.top_sentences bucket top_k `prefix_of` (Orbit.rank_sentences bucket).*1 ∧
  ((0 ≤ top_k)%Z → length (Orbit.top_sentences bucket top_k) ≤ Z.to_nat top_k).
Proof.
  unfold Orbit.top_sentences. destruct bucket as [|s bucket].
  - split; [apply prefix_nil | simpl; lia].
  - split.
    + generalize (Orbit.rank_sentences (s :: bucket)). intros ranked.
      destruct (slice_to_prefix top_k ranked) as [t Ht].
      exists (t.*1). rewrite <- fmap_app. f_equal. exact Ht.
    + intros Hn. unfold Py.slice_to. rewrite bool_decide_eq_true_2 by exact Hn.
      rewrite length_fmap, length_take. lia.
Qed.

(** The caller's slice keeps as many ranked sentences as the ceiling
    allows. *)
Lemma V3_ranked_pool_length how bucket (max_per_domain : Z) :
  (0 ≤ max_per_domain)%Z →
  length (V3.ranked_pool how bucket max_per_domain)
  = Z.to_nat max_per_domain `min` length bucket.
Proof.
  intros Hn. unfold V3.ranked_pool, Py.slice_to.
  rewrite bool_decide_eq_true_2 by exact Hn.
  rewrite length_take, <- (length_fmap fst (V3.rank_tfidf how bucket)).
  rewrite (V3_rank_tfidf_sentences how bucket). reflexivity.
Qed.

Lemma Orbit_top_sentences_length bucket (top_k : Z) :
  (0 ≤ top_k)%Z →
  length (Orbit.top_sentences bucket top_k)
  = Z.to_nat top_k `min` length (filter (λ s, Orbit.tokenize s ≠ []) bucket).
Proof.
  intros Hn. rewrite <- (Orbit_rank_sentences_sentences bucket).
  unfold Orbit.top_sentences, Py.slice_to. destruct bucket as [|s bucket].
  - simpl. lia.
  - rewrite bool_decide_eq_true_2 by exact Hn.
    rewrite !length_fmap, length_take. reflexivity.
Qed.
End Rankers.

(** C3, as stated, fails: the scripts compute the score in floats, where
    every operation is rounded, and so the score of a sentence is not the
    value of the formula.  In [rank_sentences] of
    [scripts/account_summarizer.py] the four sentences below all have the
    value 89/15, but two of them get the float below it and two the float
    above, and the ranking puts the second and the third sentence in front
    of the first.  In [rank_tfidf] of [account_summarizer_v3.py] the
    sentence ["alpha"] has the value 5/3 and gets the float nearest to
    it. *)
Lemma C3_float_scores_are_not_the_formula :
  let bucket := ["kernel alpha module"; "kernel module beta";
                 "kernel module alpha"; "kernel beta module"] in
  Forall (λ s, Spec.tfidf_score Orbit.tokenize bucket s
               = (Qc_of_Z 89 / Qc_of_Z 15)%Qc) bucket ∧
  Spec.with_fraction <$> Orbit.rank_sentences bucket
  = [("kernel module beta", 1670084861816559%Z, 281474976710656%positive);
     ("kernel module alpha", 1670084861816559%Z, 281474976710656%positive);
     ("kernel alpha module", 6680339447266235%Z, 1125899906842624%positive);
     ("kernel beta module", 6680339447266235%Z, 1125899906842624%positive)] ∧
  Spec.tfidf_score V3.tokenize ["alpha beta"; "alpha"] "alpha"
  = (Qc_of_Z 5 / Qc_of_Z 3)%Qc ∧
  Forall (λ how,
            Spec.with_fraction <$> V3.rank_tfidf how ["alpha beta"; "alpha"]
            = [("alpha beta", 8256599316845909%Z, 2251799813685248%positive);
               ("alpha", 3752999689475413%Z, 2251799813685248%positive)])
         [Py.LeftToRight; Py.Compensated].
Proof.
  cbv zeta. split; [|split; [|split]].
  - repeat constructor; apply (bool_decide_unpack _); vm_compute; exact I.
  - vm_compute. reflexivity.
  - apply (bool_decide_unpack _). vm_compute. exact I.
  - repeat constructor; vm_compute; reflexivity.
Qed.

(** C3 (amended): in both TF-IDF rankers ([rank_tfidf] of
    [account_summarizer_v3.py] and [rank_sentences] of
    [scripts/account_summarizer.py]) the ranked list holds the sentences of
    the bucket, in the second script those that have a token.  The score
    of a ranked sentence is the formula computed in floats: one term
    [term_count * (1 + N / (1 + df))] for each distinct token, in the order
    in which the tokens first occur, with [N] the size of the bucket and
    [df] the number of its sentences that contain the token, every
    division, addition and multiplication rounded to the nearest float;
    the terms are added by [sum] in the first script and one after the
    other from [0.0] in the second.  The ranked list is in non-increasing
    order of these scores, and the caller keeps its first items, as many
    as the ceiling allows. *)
Theorem C3_tfidf_scores_descending
    (how : Py.summation) (bucket : list string) (ceiling : Z) :
  (V3.rank_tfidf how bucket).*1 ≡ₚ bucket ∧
  (Orbit.rank_sentences bucket).*1 ≡ₚ filter (λ s, Orbit.tokenize s ≠ []) bucket ∧
  (∀ s score, (s, score) ∈ V3.rank_tfidf how bucket →
     score = Py.sum how (Spec.tfidf_terms V3.tokenize bucket s)) ∧
  (∀ s score, (s, score) ∈ Orbit.rank_sentences bucket →
     score = foldl Py.fadd 0%Qc (Spec.tfidf_terms Orbit.tokenize bucket s)) ∧
  Spec.descending (V3.rank_tfidf how bucket) ∧
  Spec.descending (Orbit.rank_sentences bucket) ∧
  V3.ranked_pool how bucket ceiling `prefix_of` V3.rank_tfidf how bucket ∧
  Orbit.top_sentences bucket ceiling `prefix_of` (Orbit.rank_sentences bucket).*1 ∧
  ((0 ≤ ceiling)%Z →
   length (V3.ranked_pool how bucket ceiling) = Z.to_nat ceiling `min` length bucket ∧
   length (Orbit.top_sentences bucket ceiling)
   = Z.to_nat ceiling
       `min` length (filter (λ s, Orbit.tokenize s ≠ []) bucket)).
Proof.
  split; [apply V3_rank_tfidf_sentences|].
  split; [apply Orbit_rank_sentences_sentences|].
  split; [intros s score H; apply V3_rank_tfidf_score, H|].
  split; [intros s score H; apply Orbit_rank_sentences_score, H|].
  split; [rewrite V3_rank_tfidf_unfold; apply sort_by_score_desc_descending|].
  split; [apply sort_by_score_desc_descending|].
  split; [apply V3_ranked_pool_spec|].
  split; [apply Orbit_top_sentences_spec|].
  intros Hc. split; [apply V3_ranked_pool_length | apply Orbit_top_sentences_length];
    exact Hc.
Qed.

(** ** Similarity and the canonical loop *)

Section Similarity.
Open Scope Qc_scope.

Lemma jaccard_sym a b : V3.jaccard a b = V3.jaccard b a.
Proof.
  unfold V3.jaccard.
  rewrite (andb_comm (bool_decide (list_to_set a = ∅))).
  rewrite (comm_L (∩) (list_to_set a)), (comm_L (∪) (list_to_set a)).
  reflexivity.
Qed.

Lemma max2_l a b : a ≤ Py.max2 a b.
Proof.
  unfold Py.max2. case_bool_decide as H; [apply Qclt_le_weak, H | apply Qcle_refl].
Qed.

Lemma max2_r a b : b ≤ Py.max2 a b.
Proof.
  unfold Py.max2. case_bool_decide as H; [apply Qcle_refl | apply Qcnot_lt_le, H].
Qed.

Lemma max2_le a b c : a ≤ c → b ≤ c → Py.max2 a b ≤ c.
Proof. unfold Py.max2. intros. case_bool_decide; assumption. Qed.

Lemma max_from_ge others : ∀ first x,
  x ∈ first :: others → x ≤ Py.max_from first others.
Proof.
  unfold Py.max_from.
  induction others as [|y others IH]; intros first x Hx; simpl.
  - apply list_elem_of_singleton in Hx as ->. apply Qcle_refl.
  - apply elem_of_cons in Hx as [->|Hx].
    + eapply Qcle_trans; [apply (max2_l _ y) | apply IH; left].
    + apply elem_of_cons in Hx as [->|Hx].
      * eapply Qcle_trans; [apply (max2_r first) | apply IH; left].
      * apply IH. right. exact Hx.
Qed.

Lemma max_from_le others : ∀ first c,
  first ≤ c → Forall (λ x, x ≤ c) others → Py.max_from first others ≤ c.
Proof.
  unfold Py.max_from.
  induction others as [|y others IH]; intros first c Hf Ho; simpl; [exact Hf|].
  inversion Ho; subst. apply IH; [apply max2_le|]; assumption.
Qed.

(** A similarity within the threshold bounds the similarity to every
    sentence accepted so far ... *)
Lemma max_similarity_bound toks accepted threshold :
  V3.max_similarity toks accepted ≤ threshold →
  Forall (λ t, V3.jaccard toks t ≤ threshold) accepted.
Proof.
  unfold V3.max_similarity. intros H. apply Forall_forall. intros t Ht.
  assert (V3.jaccard toks t ∈ V3.jaccard toks <$> accepted) as Hin
    by (apply list_elem_of_fmap; eauto).
  destruct (V3.jaccard toks <$> accepted) as [|first others]; [inversion Hin|].
  eapply Qcle_trans; [apply max_from_ge, Hin | exact H].
Qed.

(** ... and the other way round, for a threshold that is not negative. *)
Lemma max_similarity_within toks accepted threshold :
  0 ≤ threshold →
  Forall (λ t, V3.jaccard toks t ≤ threshold) accepted →
  V3.max_similarity toks accepted ≤ threshold.
Proof.
  unfold V3.max_similarity. intros H0 H.
  destruct accepted as [|t accepted]; simpl; [exact H0|].
  inversion H; subst. apply max_from_le; [assumption|].
  apply Forall_forall. intros x (t' & -> & Ht')%list_elem_of_fmap.
  rewrite Forall_forall in H. apply H. right. exact Ht'.
Qed.

Lemma dissimilar_sym tokenize threshold s s' :
  Spec.dissimilar tokenize threshold s s' → Spec.dissimilar tokenize threshold s' s.
Proof. unfold Spec.dissimilar. rewrite jaccard_sym. auto. Qed.

Lemma deduplicated_snoc tokenize threshold l s :
  Spec.deduplicated tokenize threshold l →
  Forall (λ s0, Spec.dissimilar tokenize threshold s s0) l →
  Spec.deduplicated tokenize threshold (l ++ [s]).
Proof.
  intros Hl Hs i j x y Hij Hi Hj. rewrite Forall_forall in Hs.
  apply lookup_snoc_Some in Hi as [[Hil Hi]|[-> <-]];
    apply lookup_snoc_Some in Hj as [[Hjl Hj]|[-> <-]].
  - eapply Hl; eauto.
  - apply dissimilar_sym, Hs. eapply list_elem_of_lookup_2, Hi.
  - apply Hs. eapply list_elem_of_lookup_2, Hj.
  - congruence.
Qed.

Lemma deduplicated_prefix tokenize threshold l k :
  k `prefix_of` l → Spec.deduplicated tokenize threshold l →
  Spec.deduplicated tokenize threshold k.
Proof.
  intros [t ->] Hl i j x y Hij Hi Hj.
  apply (Hl i j); [exact Hij | apply lookup_app_l_Some, Hi | apply lookup_app_l_Some, Hj].
Qed.
End Similarity.

Section Canonical.
Variable threshold : Qc.
Variable domain_ranked : V3.pools.

Abbreviation canon_ok := (Spec.canon_ok threshold).

Lemma consider_ok dom st s : canon_ok st → canon_ok (V3.consider threshold dom st s).
Proof.
  intros (Htok & Hne & Hdd). unfold Spec.canon_ok, V3.consider.
  destruct (V3.tokenize s) as [|t toks] eqn:Hs; [repeat split; assumption|].
  destruct (bool_decide (_ ≤ _)%Qc) eqn:Hsim; [|repeat split; assumption].
  destruct (bool_decide (0 < _)%Z); [|repeat split; assumption].
  apply bool_decide_eq_true_1, max_similarity_bound in Hsim.
  split; [|split]; simpl.
  - rewrite Htok, fmap_app. simpl. rewrite Hs. reflexivity.
  - apply Forall_app. split; [exact Hne|]. constructor; [|constructor].
    rewrite Hs. discriminate.
  - apply deduplicated_snoc; [exact Hdd|].
    apply Forall_forall. intros s0 Hs0. rewrite Forall_forall in Hsim.
    unfold Spec.dissimilar. rewrite Hs. apply Hsim.
    rewrite Htok. apply list_elem_of_fmap. eauto.
Qed.

Lemma take_domain_ok st dom :
  canon_ok st → canon_ok (V3.take_domain threshold domain_ranked st dom).
Proof.
  unfold V3.take_domain. generalize ((default [] (domain_ranked !! dom)).*1).
  intros l. revert st. induction l as [|s l IH]; intros st Hst; simpl; [exact Hst|].
  apply IH, consider_ok, Hst.
Qed.

Lemma canonical_loop_ok order : ∀ st,
  canon_ok st → canon_ok (V3.canonical_loop threshold domain_ranked order st).
Proof.
  unfold V3.canonical_loop.
  induction order as [|dom order IH]; intros st Hst; simpl; [exact Hst|].
  apply IH, take_domain_ok, Hst.
Qed.

Lemma canon_ok_initial q :
  canon_ok {| V3.canonical := []; V3.canonical_tokens := []; V3.quota := q |}.
Proof.
  split; [reflexivity|]. split; [constructor|].
  intros i j s s' _ Hi. destruct i; discriminate Hi.
Qed.

Lemma canonical_sentences_ok order target canon :
  V3.canonical_sentences order domain_ranked target threshold = Py.Ok canon →
  Forall (λ s, V3.tokenize s ≠ []) canon ∧
  Spec.deduplicated V3.tokenize threshold canon.
Proof.
  unfold V3.canonical_sentences.
  destruct (V3.initial_quota order target) as [q|e]; [|discriminate].
  simpl. intros [= <-].
  destruct (canonical_loop_ok order _ (canon_ok_initial q)) as (_ & Hne & Hdd).
  pose proof (slice_to_prefix target
    (V3.canonical (V3.canonical_loop threshold domain_ranked order
       {| V3.canonical := []; V3.canonical_tokens := []; V3.quota := q |}))) as Hp.
  split.
  - destruct Hp as [t Ht]. rewrite Ht in Hne. apply Forall_app in Hne as [H _]. exact H.
  - eapply deduplicated_prefix; eauto.
Qed.
End Canonical.




(** C4, as stated, fails for two of the three rankers: [rank_tfidf] of
    [account_summarizer_v3.py] and [rank_sentences] of
    [account_summarizer.py] return a sentence without tokens, with the
    score zero. *)
Lemma C4_rankers_keep_sentences_without_tokens :
  V3.tokenize Sample.stopword_sentence = [] ∧
  Forall (λ how,
            (V3.rank_tfidf how [Sample.stopword_sentence; "The kernel runs."]).*1
            = ["The kernel runs."; Sample.stopword_sentence])
         [Py.LeftToRight; Py.Compensated] ∧
  V1.tokenize Sample.stopword_sentence = [] ∧
  (V1.rank_sentences [Sample.stopword_sentence; "The kernel runs."] 50).*1
    = ["The kernel runs."; Sample.stopword_sentence].
Proof.
  split; [reflexivity|]. split; [repeat constructor; reflexivity|].
  split; reflexivity.
Qed.

(** ** Equal quotas *)

Section Quota.
Variable threshold : Qc.
Variable domain_ranked : V3.pools.
Abbreviation consider := (V3.consider threshold).
Abbreviation pool dom := ((default [] (domain_ranked !! dom)).*1).
Abbreviation with_token := (filter (λ s, V3.tokenize s ≠ [])).

Lemma quota_of_insert st dom d (q : Z) cs ts :
  V3.quota_of {| V3.canonical := cs; V3.canonical_tokens := ts;
                 V3.quota := <[dom := q]> (V3.quota st) |} d
  = if decide (d = dom) then q else V3.quota_of st d.
Proof.
  unfold V3.quota_of. simpl. destruct (decide (d = dom)) as [->|Hne].
  - rewrite lookup_insert_eq. reflexivity.
  - rewrite lookup_insert_ne by congruence. reflexivity.
Qed.

(** A sentence is taken only while the quota of its theme is positive, and
    uses up one unit of it. *)
Lemma consider_cases dom st s :
  consider dom st s = st ∨
  ((0 < V3.quota_of st dom)%Z ∧
   V3.canonical (consider dom st s) = V3.canonical st ++ [s] ∧
   ∀ d, V3.quota_of (consider dom st s) d
        = if decide (d = dom) then (V3.quota_of st dom - 1)%Z else V3.quota_of st d).
Proof.
  unfold V3.consider. destruct (V3.tokenize s); [auto|].
  destruct (bool_decide (_ ≤ _)%Qc); [|auto].
  case_bool_decide as Hq; [|auto]. simpl. right.
  split; [exact Hq|]. split; [reflexivity|]. intros d. apply quota_of_insert.
Qed.

Lemma fold_consider_bound dom l : ∀ st,
  ∃ added,
    V3.canonical (foldl (consider dom) st l) = V3.canonical st ++ added ∧
    (Z.of_nat (length added) ≤ 0 `max` V3.quota_of st dom)%Z ∧
    ∀ d, d ≠ dom → V3.quota_of (foldl (consider dom) st l) d = V3.quota_of st d.
Proof.
  induction l as [|s l IH]; intros st; simpl.
  - exists []. rewrite app_nil_r. simpl. split; [reflexivity|]. split; [lia | auto].
  - destruct (IH (consider dom st s)) as (added & Hc & Hlen & Hq).
    destruct (consider_cases dom st s) as [Heq|(Hpos & Hcan & Hquota)].
    + rewrite Heq in *. eauto.
    + exists (s :: added). rewrite Hc, Hcan, <- (assoc_L (++)). simpl.
      split; [reflexivity|]. split.
      * rewrite Hquota, decide_True in Hlen by reflexivity. lia.
      * intros d Hd. rewrite Hq by exact Hd.
        rewrite Hquota, decide_False by exact Hd. reflexivity.
Qed.

(** What the themes add, theme by theme, makes up the canonical list, and
    no theme adds more than its share. *)
Lemma contributions_bound (share : Z) order : NoDup order → ∀ st,
  (∀ d, d ∈ order → V3.quota_of st d = share) →
  V3.canonical (V3.canonical_loop threshold domain_ranked order st)
    = V3.canonical st ++ concat (V3.contributions threshold domain_ranked order st).*2 ∧
  Forall (λ c, Z.of_nat (length c.2) ≤ 0 `max` share)%Z
         (V3.contributions threshold domain_ranked order st).
Proof.
  unfold V3.canonical_loop.
  induction 1 as [|dom order Hdom Hnd IH]; intros st Hq; simpl.
  - rewrite app_nil_r. split; [reflexivity | constructor].
  - destruct (fold_consider_bound dom (pool dom) st) as (added & Hc & Hlen & Hother).
    fold (V3.take_domain threshold domain_ranked st dom) in Hc, Hother.
    destruct (IH (V3.take_domain threshold domain_ranked st dom)) as [IHc IHf].
    { intros d Hd. rewrite Hother; [apply Hq; right; exact Hd|].
      intros ->. contradiction. }
    rewrite IHc, Hc, drop_app_length, (assoc_L (++)). split; [reflexivity|].
    constructor; [|exact IHf]. simpl. rewrite (Hq dom) in Hlen by left. exact Hlen.
Qed.

Abbreviation fresh := (Spec.fresh threshold).

Lemma fresh_tail st s cs : fresh st (s :: cs) → fresh st cs.
Proof.
  intros [H1 H2]. inversion H1; subst. inversion H2; subst. split; assumption.
Qed.

Lemma fold_consider_exact dom l : ∀ st rest,
  (0 ≤ threshold)%Qc → Spec.canon_ok threshold st → fresh st (l ++ rest) →
  fresh (foldl (consider dom) st l) rest ∧
  Spec.canon_ok threshold (foldl (consider dom) st l) ∧
  length (V3.canonical (foldl (consider dom) st l))
  = length (V3.canonical st)
    + Z.to_nat (V3.quota_of st dom) `min` length (with_token l).
Proof.
  induction l as [|s l IH]; intros st rest H0 Hok Hfresh.
  - simpl. split; [exact Hfresh|]. split; [exact Hok|]. lia.
  - cbn [foldl]. rewrite filter_cons.
    pose proof (consider_ok threshold dom st s Hok) as Hok'.
    pose proof (fresh_tail _ _ _ Hfresh) as Htail.
    destruct (consider_cases dom st s) as [Heq|(Hpos & Hcan & Hquota)].
    + rewrite Heq.
      destruct (IH st rest H0 Hok Htail) as (Hf & Ho & Hlen).
      split; [exact Hf|]. split; [exact Ho|]. rewrite Hlen.
      destruct (decide (V3.tokenize s ≠ [])) as [Hs|Hs]; [|reflexivity].
      (* a sentence with tokens was passed over: its quota is used up *)
      assert (¬ (0 < V3.quota_of st dom)%Z) as Hq.
      { intros Hq. revert Heq. unfold V3.consider.
        destruct (V3.tokenize s) as [|t toks] eqn:Htok; [congruence|].
        rewrite bool_decide_eq_true_2.
        - rewrite bool_decide_eq_true_2 by exact Hq. simpl.
          intros Heq. apply (f_equal V3.canonical) in Heq. simpl in Heq.
          apply (f_equal length) in Heq. rewrite length_app in Heq. simpl in Heq. lia.
        - apply max_similarity_within; [exact H0|].
          destruct Hok as (-> & _ & _). apply Forall_forall.
          intros ts (s0 & -> & Hs0)%list_elem_of_fmap.
          destruct Hfresh as [Hfr _]. inversion Hfr as [|? ? Hhead _]; subst.
          rewrite Forall_forall in Hhead. specialize (Hhead s0 Hs0).
          apply dissimilar_sym in Hhead. unfold Spec.dissimilar in Hhead.
          rewrite Htok in Hhead. exact Hhead. }
      simpl. lia.
    + assert (V3.tokenize s ≠ []) as Hs.
      { destruct Hok' as (_ & Hne & _). rewrite Hcan in Hne.
        apply Forall_app in Hne as [_ Hne]. inversion Hne; assumption. }
      rewrite decide_True by exact Hs.
      assert (fresh (consider dom st s) (l ++ rest)) as Hfresh'.
      { destruct Hfresh as [Hfr Hpairs].
        inversion Hfr as [|? ? _ Hrest]; subst.
        inversion Hpairs as [|? ? Hs_rest Hpairs']; subst.
        split; [|exact Hpairs'].
        rewrite Hcan. apply Forall_forall. intros c Hc.
        apply Forall_app. split.
        - rewrite Forall_forall in Hrest. apply Hrest, Hc.
        - constructor; [|constructor]. rewrite Forall_forall in Hs_rest.
          apply Hs_rest, Hc. }
      destruct (IH (consider dom st s) rest H0 Hok' Hfresh') as (Hf & Ho & Hlen).
      split; [exact Hf|]. split; [exact Ho|].
      rewrite Hlen, Hcan, length_app, Hquota, decide_True by reflexivity.
      simpl. lia.
Qed.

(** With enough candidates every theme uses up its share. *)
Lemma canonical_loop_exact (share : Z) order : NoDup order → ∀ st,
  (0 ≤ threshold)%Qc → Spec.canon_ok threshold st →
  fresh st (Spec.candidates domain_ranked order) →
  (∀ d, d ∈ order → V3.quota_of st d = share ∧
                     Z.to_nat share ≤ length (with_token (pool d))) →
  length (V3.canonical (V3.canonical_loop threshold domain_ranked order st))
  = length (V3.canonical st) + length order * Z.to_nat share.
Proof.
  unfold V3.canonical_loop.
  induction 1 as [|dom order Hdom Hnd IH]; intros st H0 Hok Hfresh Hq; simpl; [lia|].
  unfold Spec.candidates in Hfresh. simpl in Hfresh.
  fold (Spec.candidates domain_ranked order) in Hfresh.
  destruct (fold_consider_exact dom (pool dom) st _ H0 Hok Hfresh) as (Hf & Ho & Hlen).
  destruct (fold_consider_bound dom (pool dom) st) as (_ & _ & _ & Hother).
  fold (V3.take_domain threshold domain_ranked st dom) in Hf, Ho, Hlen, Hother.
  rewrite IH; [| exact H0 | exact Ho | exact Hf |].
  - rewrite Hlen. destruct (Hq dom ltac:(left)) as [-> Hn]. lia.
  - intros d Hd. rewrite Hother; [apply Hq; right; exact Hd|].
    intros ->. contradiction.
Qed.
End Quota.

Section EqualQuota.

Lemma insert_sorted_perm x l : Py.insert_sorted x l ≡ₚ x :: l.
Proof.
  induction l as [|y l IH]; simpl; [reflexivity|].
  destruct (String.compare x y); try reflexivity.
  rewrite IH. apply Permutation_swap.
Qed.

Lemma sorted_perm l : Py.sorted l ≡ₚ l.
Proof.
  induction l as [|x l IH]; simpl; [reflexivity|].
  rewrite insert_sorted_perm, IH. reflexivity.
Qed.

(** The theme order of [build_report] names no theme twice. *)
Lemma V3_domain_order_NoDup thematic_keys bucket_keys :
  NoDup thematic_keys → NoDup bucket_keys →
  NoDup (V3.domain_order thematic_keys bucket_keys).
Proof.
  intros Ht Hb. unfold V3.domain_order. apply NoDup_app. split; [exact Ht|]. split.
  - intros d Hd [Hnot _]%list_elem_of_filter. contradiction.
  - apply NoDup_filter. rewrite sorted_perm. exact Hb.
Qed.

Lemma mapM_fmap {B C} (f : B → Py.result C) (g : B → C) (l : list B) :
  (∀ x, x ∈ l → f x = Py.Ok (g x)) → Py.mapM f l = Py.Ok (g <$> l).
Proof.
  induction l as [|x l IH]; intros Hf; [reflexivity|].
  simpl. rewrite (Hf x) by left. simpl.
  rewrite IH by (intros y Hy; apply Hf; right; exact Hy). reflexivity.
Qed.

(** The quota never fails: every theme of the order gets
    [target // themes]. *)
Lemma initial_quota_total order (target : Z) :
  V3.initial_quota order target
  = Py.Ok (list_to_map
             ((λ dom, (dom, (target `div` Z.of_nat (length order))%Z)) <$> order)).
Proof.
  unfold V3.initial_quota.
  rewrite (mapM_fmap _ (λ dom, (dom, (target `div` Z.of_nat (length order))%Z)));
    [reflexivity|].
  intros dom Hdom. unfold Py.floordiv.
  rewrite bool_decide_eq_false_2; [reflexivity|].
  destruct order; [inversion Hdom | simpl; lia].
Qed.

Lemma initial_quota_share order (share : Z) d :
  d ∈ order →
  (list_to_map ((λ dom, (dom, share)) <$> order) : gmap string Z) !! d = Some share.
Proof.
  induction order as [|d0 order IH]; [intros H; inversion H|].
  intros Hd. simpl. destruct (decide (d = d0)) as [->|Hne].
  - apply lookup_insert_eq.
  - rewrite lookup_insert_ne by congruence. apply IH.
    apply elem_of_cons in Hd as [?|?]; [contradiction | assumption].
Qed.

Lemma contributions_length threshold domain_ranked order : ∀ st,
  length (V3.contributions threshold domain_ranked order st) = length order.
Proof.
  induction order as [|dom order IH]; intros st; simpl; [reflexivity|].
  rewrite IH. reflexivity.
Qed.

Lemma concat_length_bound (k : nat) (cs : list (string * list string)) :
  Forall (λ c, length c.2 ≤ k) cs → length (concat cs.*2) ≤ length cs * k.
Proof.
  induction 1 as [|c cs Hc _ IH]; [simpl; lia|].
  rewrite fmap_cons. cbn [concat]. rewrite length_app, length_cons. lia.
Qed.

(** Equal quotas, for any target that is not negative: each theme adds at
    most [target // len(domain_order)] sentences, the canonical list is what
    the themes add, and with enough candidates every share is used up. *)
Lemma equal_quota_shares threshold domain_ranked order (target : Z) :
  NoDup order → order ≠ [] → (0 ≤ target)%Z →
  let share := (target `div` Z.of_nat (length order))%Z in
  let st0 := {| V3.canonical := []; V3.canonical_tokens := [];
                V3.quota := list_to_map ((λ dom, (dom, share)) <$> order) |} in
  V3.initial_quota order target = Py.Ok (V3.quota st0) ∧
  V3.canonical_sentences order domain_ranked target threshold
    = Py.Ok (concat (V3.contributions threshold domain_ranked order st0).*2) ∧
  Forall (λ c, length c.2 ≤ Z.to_nat share)
         (V3.contributions threshold domain_ranked order st0) ∧
  length (concat (V3.contributions threshold domain_ranked order st0).*2)
    ≤ length order * Z.to_nat share ∧
  ((0 ≤ threshold)%Qc →
   Spec.enough_candidates threshold domain_ranked order (Z.to_nat share) →
   length (concat (V3.contributions threshold domain_ranked order st0).*2)
     = length order * Z.to_nat share).
Proof.
  intros Hnd Hne Htarget share st0.
  assert (0 < Z.of_nat (length order))%Z as Hn by (destruct order; [congruence | rewrite length_cons; lia]).
  assert (0 ≤ share)%Z as Hshare
    by (unfold share; apply Z.div_pos; [exact Htarget | exact Hn]).
  assert (Hq : ∀ d, d ∈ order → V3.quota_of st0 d = share).
  { intros d Hd. unfold V3.quota_of, st0. simpl.
    rewrite initial_quota_share by exact Hd. reflexivity. }
  destruct (contributions_bound threshold domain_ranked share order Hnd st0 Hq)
    as [Hcanon Hbound].
  simpl in Hcanon.
  assert (Hbound' : Forall (λ c, length c.2 ≤ Z.to_nat share)
                      (V3.contributions threshold domain_ranked order st0)).
  { eapply Forall_impl; [exact Hbound|]. intros c Hc. simpl in Hc. lia. }
  pose proof (concat_length_bound _ _ Hbound') as Hlen.
  rewrite contributions_length in Hlen.
  assert (Hinit : V3.initial_quota order target = Py.Ok (V3.quota st0)).
  { apply initial_quota_total. }
  split; [exact Hinit|]. split; [|split; [exact Hbound'|split; [exact Hlen|]]].
  - unfold V3.canonical_sentences. rewrite Hinit. simpl.
    fold st0. rewrite Hcanon. f_equal.
    unfold Py.slice_to. rewrite bool_decide_eq_true_2 by exact Htarget.
    apply take_ge.
    assert (Z.of_nat (length order) * share ≤ target)%Z
      by (apply Z.mul_div_le; lia).
    nia.
  - intros H0 [Hpairs Hpool].
    pose proof (canonical_loop_exact threshold domain_ranked share order Hnd st0 H0
                  (canon_ok_initial threshold _)) as Hexact.
    rewrite Hcanon in Hexact. simpl in Hexact. apply Hexact.
    + split; [|exact Hpairs]. apply Forall_forall. intros s _. constructor.
    + intros d Hd. split; [apply Hq, Hd | apply Hpool, Hd].
Qed.
End EqualQuota.

(** C1, as stated, fails: with a target of ten and four themes each theme
    is given [10 // 4 = 2] places, so the canonical list has eight
    sentences, not ten, also when every bucket holds three candidates of
    which no two are alike. *)
Lemma C1_ten_over_four_is_eight :
  length Sample.four_order = 4 ∧
  Spec.enough_candidates V3.DEFAULT_DEDUPE_THRESHOLD
    Sample.four_pools Sample.four_order 3 ∧
  Forall (λ how,
            ∃ report,
              V3.build_report how Sample.four_texts Sample.three_themes 10 50
                V3.DEFAULT_DEDUPE_THRESHOLD = Py.Ok report ∧
              length (V3.canonical_sentences_of report) = 8)
         [Py.LeftToRight; Py.Compensated].
Proof.
  split; [reflexivity|]. split.
  - split.
    + assert (Hc : ∃ cs, Spec.candidates Sample.four_pools Sample.four_order = cs)
        by (eexists; vm_compute; reflexivity).
      destruct Hc as (cs & Hcs). rewrite Hcs. revert Hcs.
      vm_compute Spec.candidates. intros <-.
      repeat constructor;
        (unfold Spec.dissimilar; apply (bool_decide_unpack _); vm_compute; exact I).
    + intros dom Hdom. vm_compute in Hdom.
      repeat (apply elem_of_cons in Hdom as [->|Hdom]);
        [vm_compute; lia .. | inversion Hdom].
  - repeat constructor; eexists; (split; [vm_compute; reflexivity | reflexivity]).
Qed.

(** C1 (amended): with a target of ten over four themes (the configured
    ones and the default one) the quota of every theme is [10 // 4 = 2],
    the remainder being given to no theme; every theme adds at most two
    sentences (hence at most [ceil(10/4) = 3]) to the canonical list, which
    is made of what the themes add and so has at most eight sentences; it
    has exactly eight when every theme has at least two candidates with a
    token and no two candidates are more similar than the threshold, which
    must not be negative, allows. *)
Theorem C1_equal_quota_ten_over_four
    (thematic_keys bucket_keys : list string) (domain_ranked : V3.pools)
    (dedupe_threshold : Qc) :
  let order := V3.domain_order thematic_keys bucket_keys in
  let st0 := {| V3.canonical := []; V3.canonical_tokens := [];
                V3.quota := list_to_map ((λ dom, (dom, 2%Z)) <$> order) |} in
  let added := V3.contributions dedupe_threshold domain_ranked order st0 in
  NoDup thematic_keys → NoDup bucket_keys → length order = 4 →
  V3.initial_quota order 10 = Py.Ok (V3.quota st0) ∧
  V3.canonical_sentences order domain_ranked 10 dedupe_threshold
    = Py.Ok (concat added.*2) ∧
  Forall (λ c, length c.2 ≤ 2) added ∧
  length (concat added.*2) ≤ 8 ∧
  ((0 ≤ dedupe_threshold)%Qc →
   Spec.enough_candidates dedupe_threshold domain_ranked order 2 →
   length (concat added.*2) = 8).
Proof.
  intros order st0 added Ht Hb Hlen.
  assert (NoDup order) as Hnd by (apply V3_domain_order_NoDup; assumption).
  assert (order ≠ []) as Hne by (intros H; rewrite H in Hlen; discriminate).
  pose proof (equal_quota_shares dedupe_threshold domain_ranked order 10 Hnd Hne
                ltac:(lia)) as H.
  cbv zeta in H. rewrite Hlen in H.
  change (10 `div` Z.of_nat 4)%Z with 2%Z in H.
  change (Z.to_nat 2) with 2 in H. exact H.
Qed.

Lemma C1_equal_quota_witness :
  V3.canonical_sentences Sample.four_order Sample.four_pools 10
    V3.DEFAULT_DEDUPE_THRESHOLD
  = Py.Ok (concat (V3.contributions V3.DEFAULT_DEDUPE_THRESHOLD Sample.four_pools
                     Sample.four_order
                     {| V3.canonical := []; V3.canonical_tokens := [];
                        V3.quota := list_to_map ((λ dom, (dom, 2%Z))
                                                   <$> Sample.four_order) |}).*2).
Proof.
  apply (C1_equal_quota_ten_over_four Sample.three_themes.*1
           (elements (dom Sample.four_buckets))
           Sample.four_pools V3.DEFAULT_DEDUPE_THRESHOLD).
  - apply (bool_decide_unpack _). vm_compute. exact I.
  - apply (bool_decide_unpack _). vm_compute. exact I.
  - reflexivity.
Defined.

(** * Further properties *)

(** ** The Jaccard similarity *)

Section JaccardFacts.
Open Scope Qc_scope.

Lemma Qc_of_nat_pos n : (0 < n)%nat → 0 < Py.Qc_of_nat n.
Proof.
  intros Hn. unfold Py.Qc_of_nat. rewrite <- Z2Qc_inj_0.
  apply (proj1 (Z2Qc_inj_lt 0 (Z.of_nat n))). lia.
Qed.

Lemma Qc_of_nat_nonneg n : 0 ≤ Py.Qc_of_nat n.
Proof.
  unfold Py.Qc_of_nat. rewrite <- Z2Qc_inj_0.
  apply (proj1 (Z2Qc_inj_le 0 (Z.of_nat n))). lia.
Qed.

Lemma Qc_ratio_unit (n m : nat) :
  (n ≤ m)%nat → (0 < m)%nat →
  0 ≤ Py.Qc_of_nat n / Py.Qc_of_nat m ∧ Py.Qc_of_nat n / Py.Qc_of_nat m ≤ 1.
Proof.
  intros Hnm Hm. pose proof (Qc_of_nat_pos m Hm) as Hpos.
  assert (Py.Qc_of_nat m ≠ 0) as Hne.
  { intros H. rewrite H in Hpos. apply (Qclt_not_eq _ _ Hpos). reflexivity. }
  split.
  - apply (Qcmult_lt_0_le_reg_r _ _ (Py.Qc_of_nat m) Hpos).
    unfold Qcdiv. rewrite <- Qcmult_assoc, (Qcmult_comm (/ _)), Qcmult_inv_r by exact Hne.
    rewrite Qcmult_0_l, Qcmult_1_r. apply Qc_of_nat_nonneg.
  - apply (Qcmult_lt_0_le_reg_r _ _ (Py.Qc_of_nat m) Hpos).
    unfold Qcdiv. rewrite <- Qcmult_assoc, (Qcmult_comm (/ _)), Qcmult_inv_r by exact Hne.
    rewrite Qcmult_1_l, Qcmult_1_r. unfold Py.Qc_of_nat.
    apply (proj1 (Z2Qc_inj_le (Z.of_nat n) (Z.of_nat m))). lia.
Qed.

Lemma jaccard_unit a b : 0 ≤ V3.jaccard a b ∧ V3.jaccard a b ≤ 1.
Proof.
  unfold V3.jaccard. destruct (_ && _).
  - split; [discriminate | apply Qcle_refl].
  - apply Qc_ratio_unit; [|lia].
    etrans; [apply subseteq_size, (intersection_subseteq_l _ (list_to_set b))|].
    etrans; [apply subseteq_size, (union_subseteq_l _ (list_to_set b))|]. lia.
Qed.

Lemma jaccard_self a : V3.jaccard a a = 1.
Proof.
  unfold V3.jaccard.
  destruct (bool_decide (list_to_set a = (∅ : gset string))) eqn:He; [reflexivity|].
  apply bool_decide_eq_false_1 in He. simpl.
  rewrite (idemp_L (∩)), (idemp_L (∪)).
  assert (size (list_to_set a : gset string) ≠ 0%nat) as Hs
    by (intros H; apply size_empty_inv in H; apply He; apply leibniz_equiv, H).
  rewrite Nat.max_r by lia.
  apply Qcmult_inv_r. intros H.
  pose proof (Qc_of_nat_pos (size (list_to_set a : gset string)) ltac:(lia)) as Hpos.
  rewrite H in Hpos. apply (Qclt_not_eq _ _ Hpos). reflexivity.
Qed.
End JaccardFacts.

(** X1: the similarity of [jaccard] does not depend on the order of its
    two arguments, lies between 0 and 1, and is 1 for a token list
    compared with itself (also for the empty one). *)
Theorem X1_jaccard_symmetric_unit (a b : list string) :
  V3.jaccard a b = V3.jaccard b a ∧
  (0 ≤ V3.jaccard a b)%Qc ∧ (V3.jaccard a b ≤ 1)%Qc ∧
  V3.jaccard a a = 1%Qc.
Proof.
  split; [apply jaccard_sym|]. split; [apply jaccard_unit|].
  split; [apply jaccard_unit | apply jaccard_self].
Qed.

(** ** More on the sentence segmenters *)

Section Trimming.
Import Text.

Lemma string_length_app a b :
  String.length (a +:+ b) = String.length a + String.length b.
Proof. induction a as [|c a IH]; simpl; [reflexivity|]. f_equal. exact IH. Qed.

Lemma string_app_assoc a b c : (a +:+ b) +:+ c = a +:+ (b +:+ c).
Proof.
  induction a as [|x a IH]; [reflexivity|].
  change (String x ((a +:+ b) +:+ c) = String x (a +:+ (b +:+ c))).
  rewrite IH. reflexivity.
Qed.

Lemma string_app_nil_r a : a +:+ "" = a.
Proof.
  induction a as [|x a IH]; [reflexivity|].
  change (String x (a +:+ "") = String x a). rewrite IH. reflexivity.
Qed.

Lemma rstrip_idempotent s : Py.rstrip (Py.rstrip s) = Py.rstrip s.
Proof.
  induction s as [|c s IH]; [reflexivity|]. simpl.
  destruct (Py.rstrip s) as [|d r] eqn:Hr.
  - destruct (is_space c) eqn:Hc; [reflexivity|]. simpl. rewrite Hc. reflexivity.
  - simpl in *. rewrite IH. reflexivity.
Qed.

Lemma lstrip_fixed c r : is_space c = false → Py.lstrip (String c r) = String c r.
Proof. intros Hc. simpl. rewrite Hc. reflexivity. Qed.

Lemma strip_idempotent s : Py.strip (Py.strip s) = Py.strip s.
Proof.
  unfold Py.strip. destruct (lstrip_head s) as [->|(c & r & -> & Hc)]; [reflexivity|].
  destruct (rstrip_head c r Hc) as [r' Hr]. rewrite Hr.
  rewrite lstrip_fixed by exact Hc. rewrite <- Hr. apply rstrip_idempotent.
Qed.

Lemma lstrip_blank s : all_chars is_space s = true → Py.lstrip s = EmptyString.
Proof.
  induction s as [|c s IH]; [reflexivity|]. simpl.
  intros [Hc Hs]%andb_true_iff. rewrite Hc. apply IH, Hs.
Qed.

Lemma collapse_blank s : ∀ b,
  all_chars is_space s = true → all_chars is_space (Py.collapse_ws b s) = true.
Proof.
  induction s as [|c s IH]; intros b; [reflexivity|]. simpl.
  intros [Hc Hs]%andb_true_iff. rewrite Hc.
  destruct b; simpl; rewrite ?IH by exact Hs; reflexivity.
Qed.

(** A text of white space only is normalised to the empty string. *)
Lemma normalise_blank text :
  all_chars is_space text = true →
  Py.strip (Py.collapse_ws false text) = EmptyString.
Proof.
  intros H. unfold Py.strip. rewrite lstrip_blank; [reflexivity|].
  apply collapse_blank, H.
Qed.
End Trimming.

Section MergeLengths.

Lemma merge_turn_lengths out s out' :
  V3.merge_turn out s = Py.Ok out' →
  Forall (λ e, 10 ≤ String.length e) out →
  Forall (λ e, 10 ≤ String.length e) out'.
Proof.
  unfold V3.merge_turn. case_bool_decide as Hlen; [intros [= <-]; auto|].
  destruct (last out) as [previous|] eqn:Hl.
  - destruct (V3.ends_with_abbrev previous) as [[]|]; simpl; [| |discriminate];
      intros [= <-] Hout.
    + apply last_Some in Hl as [out0 ->]. rewrite removelast_last.
      apply Forall_app in Hout as [H0 _]. apply Forall_app. split; [exact H0|].
      constructor; [|constructor]. rewrite !string_length_app. lia.
    + apply Forall_app. split; [exact Hout|]. constructor; [lia | constructor].
  - intros [= <-] Hout. apply Forall_app. split; [exact Hout|].
    constructor; [lia | constructor].
Qed.

Lemma merge_loop_lengths tentative : ∀ out out',
  V3.merge_loop out tentative = Py.Ok out' →
  Forall (λ e, 10 ≤ String.length e) out →
  Forall (λ e, 10 ≤ String.length e) out'.
Proof.
  induction tentative as [|s tentative IH]; intros out out'; simpl.
  - intros [= <-]. auto.
  - destruct (V3.merge_turn out s) as [out1|] eqn:Ht; [|discriminate]. simpl.
    intros Hloop Hout. eapply IH; [exact Hloop|].
    eapply merge_turn_lengths; eauto.
Qed.
End MergeLengths.

(** X2: [split_sentences] of [account_summarizer_v3.py] never fails (the
    index into the words of the previous sentence is always in range), and
    every sentence it returns has at least ten characters. *)
Theorem X2_v3_split_sentences_returns_long_sentences (text : string) :
  ∃ out, V3.split_sentences text = Py.Ok out ∧
         Forall (λ sentence, 10 ≤ String.length sentence) out.
Proof.
  destruct (V3_split_sentences_total text) as [out Hout].
  exists out. split; [exact Hout|].
  unfold V3.split_sentences in Hout.
  destruct (Py.strip _); [injection Hout as <-; constructor|].
  eapply merge_loop_lengths; [exact Hout | constructor].
Qed.

(** X3: every sentence returned by [split_sentences] of
    [account_summarizer.py] has at least ten characters, every sentence
    returned by that of [scripts/account_summarizer.py] at least twelve,
    and none has white space at its start or end; a text of white space
    only gives no sentence in any of the three scripts. *)
Theorem X3_split_sentences_minimum_length (text sentence : string) :
  (sentence ∈ V1.split_sentences text →
     10 ≤ String.length sentence ∧ Py.strip sentence = sentence) ∧
  (sentence ∈ Orbit.split_sentences text →
     12 ≤ String.length sentence ∧ Py.strip sentence = sentence) ∧
  (Text.all_chars Text.is_space text = true →
     V1.split_sentences text = [] ∧ Orbit.split_sentences text = [] ∧
     V3.split_sentences text = Py.Ok []).
Proof.
  split; [|split].
  - unfold V1.split_sentences. destruct (Py.strip _); [intros H; inversion H|].
    intros [Hlen (piece & -> & _)%list_elem_of_fmap]%list_elem_of_filter.
    split; [exact Hlen | apply strip_idempotent].
  - unfold Orbit.split_sentences. destruct (Py.strip _); [intros H; inversion H|].
    intros (piece & -> & [Hlen _]%list_elem_of_filter)%list_elem_of_fmap.
    split; [exact Hlen | apply strip_idempotent].
  - intros Hblank. unfold V1.split_sentences, Orbit.split_sentences, V3.split_sentences.
    rewrite (normalise_blank text Hblank). auto.
Qed.

Lemma X3_split_sentences_witness :
  "It went well today!" ∈ V1.split_sentences "Ok.   It went well today!  " ∧
  10 ≤ String.length "It went well today!" ∧
  Py.strip "It went well today!" = "It went well today!".
Proof.
  assert (Hin : "It went well today!" ∈ V1.split_sentences "Ok.   It went well today!  ")
    by (vm_compute; left).
  split; [exact Hin|].
  exact (proj1 (X3_split_sentences_minimum_length "Ok.   It went well today!  "
                  "It went well today!") Hin).
Defined.

Section SplitRoundTrip.
Import Text.

Lemma split_scan_nonempty s : ∀ prev b cur, split_scan prev b cur s ≠ [].
Proof.
  induction s as [|c s IH]; intros prev b cur; simpl; [discriminate|].
  destruct (b && is_space c); [apply IH|].
  destruct (_ && _); [discriminate | apply IH].
Qed.

Lemma join_cons sep x l : l ≠ [] → Py.join sep (x :: l) = x +:+ sep +:+ Py.join sep l.
Proof. destruct l; [congruence | reflexivity]. Qed.

Lemma snoc_app cur c s : snoc cur c +:+ s = cur +:+ String c s.
Proof. unfold snoc. rewrite string_app_assoc. reflexivity. Qed.

(** In a text with single spaces the pieces of the split, put together
    with single spaces, are the text again. *)
Lemma split_scan_join s : ∀ prev b cur after_space,
  Spec.single_spaced after_space s = true →
  (b = true → after_space = true) →
  Py.join " " (split_scan prev b cur s) = cur +:+ s.
Proof.
  induction s as [|c s IH]; intros prev b cur after_space Hs Hb; simpl.
  - rewrite string_app_nil_r. reflexivity.
  - simpl in Hs. destruct (is_space c) eqn:Hc.
    + apply andb_true_iff in Hs as [[Hsp Hafter]%andb_true_iff Hs].
      apply bool_decide_eq_true_1 in Hsp. subst c.
      apply negb_true_iff in Hafter. subst after_space.
      destruct b; [specialize (Hb eq_refl); discriminate|]. simpl.
      destruct (ends_sentence prev && starts_sentence (skip_ws s)).
      * rewrite join_cons by apply split_scan_nonempty.
        rewrite (IH _ true EmptyString true Hs ltac:(auto)). reflexivity.
      * rewrite (IH _ false _ true Hs ltac:(discriminate)). apply snoc_app.
    + rewrite andb_false_r. simpl.
      rewrite (IH _ false _ false Hs ltac:(discriminate)). apply snoc_app.
Qed.

Lemma single_spaced_weaken s b :
  Spec.single_spaced b s = true → Spec.single_spaced false s = true.
Proof.
  destruct s as [|c s]; [reflexivity|]. simpl.
  destruct (is_space c); [|auto].
  intros [[-> _]%andb_true_iff ->]%andb_true_iff. reflexivity.
Qed.

Lemma collapse_single_spaced s : ∀ b,
  Spec.single_spaced b (Py.collapse_ws b s) = true.
Proof.
  induction s as [|c s IH]; intros b; [reflexivity|]. simpl.
  destruct (is_space c) eqn:Hc.
  - destruct b; [apply IH|]. simpl. apply IH.
  - simpl. rewrite Hc. apply IH.
Qed.

Lemma lstrip_single_spaced s : ∀ b,
  Spec.single_spaced b s = true → Spec.single_spaced false (Py.lstrip s) = true.
Proof.
  induction s as [|c s IH]; intros b; [reflexivity|]. simpl.
  destruct (is_space c) eqn:Hc.
  - intros [_ Hs]%andb_true_iff. eapply IH, Hs.
  - intros Hs. simpl. rewrite Hc. exact Hs.
Qed.

Lemma rstrip_single_spaced s : ∀ b,
  Spec.single_spaced b s = true → Spec.single_spaced b (Py.rstrip s) = true.
Proof.
  induction s as [|c s IH]; intros b; [reflexivity|]. simpl.
  destruct (is_space c) eqn:Hc.
  - intros [Hhead Hs]%andb_true_iff. specialize (IH true Hs).
    destruct (Py.rstrip s) as [|d r]; [reflexivity|].
    simpl. rewrite Hc, Hhead. exact IH.
  - intros Hs. specialize (IH false Hs).
    destruct (Py.rstrip s) as [|d r]; simpl; rewrite Hc; [reflexivity | exact IH].
Qed.

Lemma normalise_single_spaced text :
  Spec.single_spaced false (Py.strip (Py.collapse_ws false text)) = true.
Proof.
  unfold Py.strip. apply rstrip_single_spaced.
  eapply lstrip_single_spaced, collapse_single_spaced.
Qed.
End SplitRoundTrip.

(** X4: splitting loses no text.  The pieces into which the segmenters
    split the normalised text ([SENTENCE_SPLIT_RE.split]), joined with
    single spaces, are the normalised text again; sentences only go lost
    by the length filter that follows. *)
Theorem X4_sentence_split_round_trip (text : string) :
  Py.join " " (Text.sentence_split (Py.strip (Py.collapse_ws false text)))
  = Py.strip (Py.collapse_ws false text).
Proof.
  unfold Text.sentence_split.
  rewrite (split_scan_join _ None false EmptyString false
             (normalise_single_spaced text) ltac:(discriminate)).
  reflexivity.
Qed.

(** ** The plain-frequency ranker *)

Section FrequencyRanker.

Lemma Counter_empty l : Py.Counter l = ∅ → l = [].
Proof.
  destruct l as [|t l]; [reflexivity|]. intros H.
  pose proof (proj1 (lookup_fold_incr (t :: l) ∅ t)) as Hn.
  fold (Py.Counter (t :: l)) in Hn. rewrite H, lookup_empty in Hn.
  destruct (Hn eq_refl) as [_ Hnot]. exfalso. apply Hnot. left.
Qed.

Lemma elem_of_concat {A} (x : A) (ls : list (list A)) :
  x ∈ concat ls ↔ ∃ l, x ∈ l ∧ l ∈ ls.
Proof.
  induction ls as [|l0 ls IH]; simpl.
  - split; [intros H; inversion H | intros (l & _ & H); inversion H].
  - rewrite elem_of_app, IH. split.
    + intros [H|(l & H1 & H2)]; [exists l0; split; [exact H | left] |
                                   exists l; split; [exact H1 | right; exact H2]].
    + intros (l & H1 & [->|H2]%elem_of_cons); [left; exact H1 | right; eauto].
Qed.

Lemma descending_constant {A} (q : Qc) (l : list (A * Qc)) :
  Forall (λ x, x.2 = q) l → Spec.descending l.
Proof.
  intros H i j x y _ Hi Hj. rewrite Forall_forall in H.
  rewrite (H x), (H y); [apply Qcle_refl | |];
    eapply list_elem_of_lookup_2; eauto.
Qed.

Lemma slice_to_length {A} (n : Z) (l : list A) :
  (0 ≤ n)%Z → length (Py.slice_to n l) ≤ Z.to_nat n.
Proof.
  intros Hn. unfold Py.slice_to. rewrite bool_decide_eq_true_2 by exact Hn.
  rewrite length_take. lia.
Qed.

Lemma elem_of_slice_to {A} (n : Z) (l : list A) x : x ∈ Py.slice_to n l → x ∈ l.
Proof.
  intros H. destruct (slice_to_prefix n l) as [t Ht]. rewrite Ht.
  apply elem_of_app. left. exact H.
Qed.

Lemma V1_rank_sentences_spec sentences top_k :
  (∀ s score, (s, score) ∈ V1.rank_sentences sentences top_k →
     s ∈ sentences ∧
     score = Py.Qc_of_nat (Spec.frequency_score V1.tokenize sentences s)) ∧
  Spec.descending (V1.rank_sentences sentences top_k).
Proof.
  unfold V1.rank_sentences. case_bool_decide as Hfreq.
  - apply Counter_empty in Hfreq.
    assert (Hnone : ∀ s, s ∈ sentences → V1.tokenize s = []).
    { intros s Hs. apply list_elem_of_lookup in Hs as [i Hi].
      destruct (V1.tokenize s) as [|t toks] eqn:Ht; [reflexivity|].
      assert (t ∈ concat (V1.tokenize <$> sentences)) as Hin.
      { apply elem_of_concat. exists (V1.tokenize s). split; [rewrite Ht; left|].
        apply list_elem_of_fmap. exists s. split; [reflexivity|].
        eapply list_elem_of_lookup_2, Hi. }
      rewrite Hfreq in Hin. inversion Hin. }
    split.
    + intros s score (s' & [= -> ->] & Hs%elem_of_slice_to)%list_elem_of_fmap.
      split; [exact Hs|]. unfold Spec.frequency_score. rewrite (Hnone s' Hs).
      unfold Py.Qc_of_nat. simpl. symmetry. apply Z2Qc_inj_0.
    + apply (descending_constant 0%Qc). apply Forall_forall.
      intros x (s' & -> & _)%list_elem_of_fmap. reflexivity.
  - split.
    + intros s score Hin%elem_of_slice_to.
      rewrite sort_by_score_desc_perm in Hin.
      apply list_elem_of_fmap in Hin as (s' & [= -> ->] & Hs).
      split; [exact Hs|]. unfold Py.Qc_of_nat, Spec.frequency_score. do 3 f_equal.
      apply list_fmap_ext. intros i t _. apply count_Counter.
    + eapply descending_prefix; [apply slice_to_prefix|].
      apply sort_by_score_desc_descending.
Qed.

Lemma V1_rank_sentences_length sentences top_k :
  length (V1.rank_sentences sentences top_k) ≤ length sentences ∧
  ((0 ≤ top_k)%Z → length (V1.rank_sentences sentences top_k) ≤ Z.to_nat top_k).
Proof.
  unfold V1.rank_sentences. case_bool_decide.
  - rewrite length_fmap. split; [|apply slice_to_length].
    apply prefix_length, slice_to_prefix.
  - split; [|apply slice_to_length].
    etrans; [apply prefix_length, slice_to_prefix|].
    rewrite sort_by_score_desc_perm, length_fmap. reflexivity.
Qed.
End FrequencyRanker.

(** X5: [rank_sentences] of [account_summarizer.py] returns pairs of a
    sentence of the bucket and its plain-frequency score (the sum, over
    the tokens of the sentence, of how often the token occurs in the whole
    bucket), in non-increasing order of score; it returns no more pairs
    than the bucket has sentences, and at most [top_k] of them when
    [top_k] is not negative. *)
Theorem X5_v1_rank_sentences_frequency
    (sentences : list string) (top_k : Z) (s : string) (score : Qc) :
  ((s, score) ∈ V1.rank_sentences sentences top_k →
     s ∈ sentences ∧
     score = Py.Qc_of_nat (Spec.frequency_score V1.tokenize sentences s)) ∧
  Spec.descending (V1.rank_sentences sentences top_k) ∧
  length (V1.rank_sentences sentences top_k) ≤ length sentences ∧
  ((0 ≤ top_k)%Z → length (V1.rank_sentences sentences top_k) ≤ Z.to_nat top_k).
Proof.
  split; [apply V1_rank_sentences_spec|].
  split; [apply V1_rank_sentences_spec|]. apply V1_rank_sentences_length.
Qed.

Lemma X5_v1_rank_witness :
  ∃ score, ("beta gamma", score)
             ∈ V1.rank_sentences ["alpha beta gamma"; "beta gamma"; "delta"] 2 ∧
           score = Py.Qc_of_nat
                     (Spec.frequency_score V1.tokenize
                        ["alpha beta gamma"; "beta gamma"; "delta"] "beta gamma").
Proof.
  assert (∃ score, ("beta gamma", score)
             ∈ V1.rank_sentences ["alpha beta gamma"; "beta gamma"; "delta"] 2)
    as [score Hin]
    by (vm_compute; eexists; apply list_elem_of_further, list_elem_of_here).
  exists score. split; [exact Hin|].
  exact (proj2 (proj1 (X5_v1_rank_sentences_frequency
                  ["alpha beta gamma"; "beta gamma"; "delta"] 2 _ _) Hin)).
Defined.

(** ** Sentences without tokens *)

Section NoTokens.

Lemma V3_rank_tfidf_no_tokens how bucket s score :
  (s, score) ∈ V3.rank_tfidf how bucket → V3.tokenize s = [] → score = 0%Qc.
Proof.
  intros [_ ->]%V3_rank_tfidf_score Htok.
  unfold Spec.tfidf_terms. rewrite Htok. reflexivity.
Qed.

Lemma V1_rank_sentences_no_tokens bucket top_k s score :
  (s, score) ∈ V1.rank_sentences bucket top_k →
  s ∈ bucket ∧ (V1.tokenize s = [] → score = 0%Qc).
Proof.
  intros [Hs ->]%V1_rank_sentences_spec. split; [exact Hs|].
  intros Htok. unfold Spec.frequency_score. rewrite Htok.
  unfold Py.Qc_of_nat. simpl. apply Z2Qc_inj_0.
Qed.

(** With room for the whole bucket [rank_sentences] of
    [account_summarizer.py] returns every sentence of it. *)
Lemma V1_rank_sentences_all bucket (top_k : Z) :
  (Z.of_nat (length bucket) ≤ top_k)%Z →
  (V1.rank_sentences bucket top_k).*1 ≡ₚ bucket.
Proof.
  intros Hroom.
  assert (Hall : ∀ {B} (l : list B), length l = length bucket →
                   Py.slice_to top_k l = l).
  { intros B l Hl. unfold Py.slice_to. rewrite bool_decide_eq_true_2 by lia.
    apply take_ge. lia. }
  unfold V1.rank_sentences. case_bool_decide.
  - rewrite Hall by reflexivity. rewrite <- list_fmap_compose. apply reflexive_eq.
    apply list_fmap_id.
  - rewrite Hall by (rewrite sort_by_score_desc_perm, length_fmap; reflexivity).
    rewrite sort_by_score_desc_perm, <- list_fmap_compose. apply reflexive_eq.
    apply list_fmap_id.
Qed.
End NoTokens.

(** C4 (amended): [rank_sentences] of [scripts/account_summarizer.py]
    returns the sentences of the bucket that have a token, and only those.
    [rank_tfidf] of [account_summarizer_v3.py] returns every sentence of
    the bucket, one without tokens with the score zero.
    [rank_sentences] of [account_summarizer.py] returns sentences of the
    bucket, one without tokens with the score zero, and every sentence of
    the bucket when [top_k] leaves room for all of them.
    [account_summarizer_v3.py] passes over the sentences without tokens
    when it builds the canonical list, so that every canonical sentence
    has a token. *)
Theorem C4_sentences_without_tokens_left_out
    (how : Py.summation) (bucket : list string) (s : string) (score : Qc)
    (top_k : Z) (order : list string) (domain_ranked : V3.pools)
    (target_sentences : Z) (dedupe_threshold : Qc) (canon : list string) :
  ((s, score) ∈ Orbit.rank_sentences bucket → Orbit.tokenize s ≠ []) ∧
  (Orbit.rank_sentences bucket).*1 ≡ₚ filter (λ s, Orbit.tokenize s ≠ []) bucket ∧
  (V3.rank_tfidf how bucket).*1 ≡ₚ bucket ∧
  ((s, score) ∈ V3.rank_tfidf how bucket → V3.tokenize s = [] → score = 0%Qc) ∧
  ((s, score) ∈ V1.rank_sentences bucket top_k →
     s ∈ bucket ∧ (V1.tokenize s = [] → score = 0%Qc)) ∧
  ((Z.of_nat (length bucket) ≤ top_k)%Z →
     (V1.rank_sentences bucket top_k).*1 ≡ₚ bucket) ∧
  (V3.canonical_sentences order domain_ranked target_sentences dedupe_threshold
     = Py.Ok canon →
   s ∈ canon → V3.tokenize s ≠ []).
Proof.
  split; [intros H; apply Orbit_rank_sentences_score in H; tauto|].
  split; [apply Orbit_rank_sentences_sentences|].
  split; [apply V3_rank_tfidf_sentences|].
  split; [apply V3_rank_tfidf_no_tokens|].
  split; [apply V1_rank_sentences_no_tokens|].
  split; [apply V1_rank_sentences_all|].
  intros Hc Hs.
  destruct (canonical_sentences_ok dedupe_threshold domain_ranked order
              target_sentences canon Hc) as [Hne _].
  rewrite Forall_forall in Hne. apply Hne, Hs.
Qed.

Lemma C4_left_out_witness :
  ∃ score, ("The kernel runs.", score)
             ∈ Orbit.rank_sentences [Sample.stopword_sentence; "The kernel runs."]
           ∧ Orbit.tokenize "The kernel runs." ≠ [].
Proof.
  assert (∃ score, ("The kernel runs.", score)
             ∈ Orbit.rank_sentences [Sample.stopword_sentence; "The kernel runs."])
    as [score Hin] by (vm_compute; eexists; apply list_elem_of_here).
  exists score. split; [exact Hin|].
  exact (proj1 (C4_sentences_without_tokens_left_out Py.Compensated
                  [Sample.stopword_sentence; "The kernel runs."]
                  "The kernel runs." score 0 [] ∅ 0 0%Qc []) Hin).
Defined.

(** ** What round-robin sampling takes *)

Section RoundRobinTotals.
Implicit Types (d : V1.pydict) (h : V1.store) (picked : list string).

Lemma deref_insert_eq h l rest x old :
  V1.deref h l = x :: old → V1.deref (<[l := rest]> h) l = rest.
Proof.
  unfold V1.deref. intros H. destruct (h !! l) eqn:Hl; [|discriminate].
  rewrite list_lookup_insert_eq by (eapply lookup_lt_Some, Hl). reflexivity.
Qed.

Lemma pool_total_frame d h l rest :
  l ∉ d.*2 → Spec.pool_total d (<[l := rest]> h) = Spec.pool_total d h.
Proof.
  unfold Spec.pool_total. intros Hl. f_equal. apply list_fmap_ext.
  intros i [k a] Hi. simpl. rewrite deref_insert_ne; [reflexivity|].
  intros ->. apply Hl. apply list_elem_of_fmap. exists (k, a).
  split; [reflexivity | eapply list_elem_of_lookup_2, Hi].
Qed.

(** Taking the first item of one list of a dictionary that holds every
    list once lowers the total by one. *)
Lemma pool_total_pop d : ∀ h k l x rest,
  NoDup d.*2 → (k, l) ∈ d → V1.deref h l = x :: rest →
  Spec.pool_total d (<[l := rest]> h) + 1 = Spec.pool_total d h.
Proof.
  induction d as [|[k0 l0] d IH]; intros h k l x rest Hnd Hin Hl; [inversion Hin|].
  rewrite fmap_cons in Hnd. apply NoDup_cons in Hnd as [Hl0 Hnd].
  unfold Spec.pool_total in *. rewrite !fmap_cons. cbn [sum_list]. simpl.
  apply elem_of_cons in Hin as [[= -> ->]|Hin].
  - rewrite (deref_insert_eq h l0 rest x rest Hl), Hl.
    pose proof (pool_total_frame d h l0 rest Hl0) as Hf.
    unfold Spec.pool_total in Hf. rewrite Hf. simpl. lia.
  - assert (l ≠ l0) as Hne.
    { intros ->. apply Hl0. apply list_elem_of_fmap. exists (k, l0). auto. }
    rewrite deref_insert_ne by exact Hne.
    specialize (IH h k l x rest Hnd Hin Hl). lia.
Qed.

Lemma pool_sentences_later d h h' s :
  (∀ l, V1.deref h' l `suffix_of` V1.deref h l) →
  s ∈ Spec.pool_sentences d h' → s ∈ Spec.pool_sentences d h.
Proof.
  unfold Spec.pool_sentences. intros Hsuf.
  intros (ss & Hs & ([k l] & -> & Hkl)%list_elem_of_fmap)%elem_of_concat.
  apply elem_of_concat. exists (V1.deref h l).*1. split.
  - destruct (Hsuf l) as [front Hfront]. simpl in Hs. rewrite Hfront, fmap_app.
    apply elem_of_app. right. exact Hs.
  - apply list_elem_of_fmap. exists (k, l). auto.
Qed.

Lemma sample_turn_spec d index picked h :
  NoDup d.*2 →
  (V1.sample_turn d index picked h = (picked, h)) ∨
  ∃ sentence,
    (V1.sample_turn d index picked h).1 = picked ++ [sentence] ∧
    sentence ∈ Spec.pool_sentences d h ∧
    Spec.pool_total d (V1.sample_turn d index picked h).2 + 1 = Spec.pool_total d h.
Proof.
  intros Hnd. unfold V1.sample_turn.
  destruct (d !! _) as [[k l]|] eqn:Hd; [|auto].
  destruct (V1.deref h l) as [|[sentence q] rest] eqn:Hl; [auto|].
  right. exists sentence. simpl.
  assert ((k, l) ∈ d) as Hin by (eapply list_elem_of_lookup_2, Hd).
  split; [reflexivity|]. split.
  - apply elem_of_concat. exists (V1.deref h l).*1. split.
    + rewrite Hl. left.
    + apply list_elem_of_fmap. exists (k, l). auto.
  - eapply pool_total_pop; eauto.
Qed.

Lemma sample_loop_spec d target_n (h0 : V1.store) turns : ∀ index picked h,
  NoDup d.*2 →
  (Z.of_nat (length picked) ≤ 0 `max` target_n)%Z →
  (∀ l, V1.deref h l `suffix_of` V1.deref h0 l) →
  let r := V1.sample_loop turns d target_n index picked h in
  (Z.of_nat (length r.1) ≤ 0 `max` target_n)%Z ∧
  length r.1 + Spec.pool_total d r.2 = length picked + Spec.pool_total d h ∧
  ∃ extra, r.1 = picked ++ extra ∧ ∀ s, s ∈ extra → s ∈ Spec.pool_sentences d h0.
Proof.
  induction turns as [|turns IH]; intros index picked h Hnd Hlen Hsuf; simpl.
  - split; [exact Hlen|]. split; [reflexivity|]. exists [].
    rewrite app_nil_r. split; [reflexivity | intros s Hs; inversion Hs].
  - destruct (bool_decide _ && _) eqn:Hcond; simpl.
    2:{ split; [exact Hlen|]. split; [reflexivity|]. exists [].
        rewrite app_nil_r. split; [reflexivity | intros s Hs; inversion Hs]. }
    apply andb_true_iff in Hcond as [Hlt%bool_decide_eq_true_1 _].
    pose proof (sample_turn_suffix d index picked h) as Hturn_suf.
    destruct (sample_turn_spec d index picked h Hnd) as [Hsame|(sentence & Hp & Hin & Htot)].
    + rewrite Hsame. apply IH; assumption.
    + destruct (V1.sample_turn d index picked h) as [picked' h'] eqn:Ht.
      simpl in Hp, Htot. subst picked'.
      assert (Hsuf' : ∀ l, V1.deref h' l `suffix_of` V1.deref h0 l).
      { intros l. etrans; [apply Hturn_suf | apply Hsuf]. }
      destruct (IH (S index) (picked ++ [sentence]) h' Hnd) as (H1 & H2 & extra & H3 & H4).
      { rewrite length_app. simpl. lia. }
      { exact Hsuf'. }
      split; [exact H1|]. split.
      * rewrite H2, length_app. simpl. lia.
      * exists (sentence :: extra). rewrite H3, <- (assoc_L (++)). split; [reflexivity|].
        intros s [->|Hs]%elem_of_cons; [|apply H4, Hs].
        eapply pool_sentences_later; [exact Hsuf | exact Hin].
Qed.

Lemma balanced_sample_spec d target_n h :
  NoDup d.*2 →
  (Z.of_nat (length (V1.balanced_sample d target_n h).1) ≤ 0 `max` target_n)%Z ∧
  length (V1.balanced_sample d target_n h).1
    + Spec.pool_total d (V1.balanced_sample d target_n h).2
  = Spec.pool_total d h ∧
  ∀ s, s ∈ (V1.balanced_sample d target_n h).1 → s ∈ Spec.pool_sentences d h.
Proof.
  intros Hnd.
  pose proof (sample_loop_spec d target_n h V1.SAFETY_TURNS 0 [] h Hnd
                ltac:(simpl; lia) ltac:(reflexivity)) as (H1 & H2 & extra & H3 & H4).
  unfold V1.balanced_sample.
  destruct (V1.sample_loop V1.SAFETY_TURNS d target_n 0 [] h) as [picked h'].
  simpl in *. subst picked.
  assert (Py.slice_to target_n extra = extra) as ->.
  { unfold Py.slice_to. case_bool_decide.
    - apply take_ge. lia.
    - destruct extra; [reflexivity | simpl in H1; lia]. }
  auto.
Qed.
End RoundRobinTotals.

(** X6: [balanced_sample], on a mapping whose values are distinct list
    objects, returns at most [target_n] sentences (none for a target that
    is not positive); every sentence it returns was in one of the pools,
    and the pools lose exactly as many items as sentences are returned:
    the closing slice drops nothing. *)
Theorem X6_balanced_sample_takes_what_it_returns
    (domain_to_ranked : V1.pydict) (target_n : Z) (h : V1.store) :
  NoDup domain_to_ranked.*2 →
  (Z.of_nat (length (V1.balanced_sample domain_to_ranked target_n h).1)
     ≤ 0 `max` target_n)%Z ∧
  length (V1.balanced_sample domain_to_ranked target_n h).1
    + Spec.pool_total domain_to_ranked (V1.balanced_sample domain_to_ranked target_n h).2
  = Spec.pool_total domain_to_ranked h ∧
  ∀ s, s ∈ (V1.balanced_sample domain_to_ranked target_n h).1 →
       s ∈ Spec.pool_sentences domain_to_ranked h.
Proof. apply balanced_sample_spec. Qed.

Lemma X6_balanced_sample_witness :
  (Z.of_nat (length (V1.balanced_sample Sample.eleven_ranked 3 Sample.eleven_store).1)
     ≤ 0 `max` 3)%Z.
Proof.
  apply (X6_balanced_sample_takes_what_it_returns
           Sample.eleven_ranked 3 Sample.eleven_store).
  apply (bool_decide_unpack _). vm_compute. exact I.
Defined.

(** ** More on the date extractor *)

Section DateFields.
Import Text.

Lemma in_range_spec lo hi c :
  in_range lo hi c = true → (lo ≤ code c ≤ hi)%N.
Proof.
  unfold in_range. intros [H1%N.leb_le H2%N.leb_le]%andb_true_iff. lia.
Qed.

Lemma in_range_digit lo hi c :
  (48 ≤ lo)%N → (hi ≤ 57)%N → in_range lo hi c = true → is_digit c = true.
Proof.
  intros Hlo Hhi [H1 H2]%in_range_spec. unfold is_digit, in_range.
  apply andb_true_iff. split; apply N.leb_le; lia.
Qed.

Lemma two_digits_value a b :
  is_digit a = true → is_digit b = true →
  Spec.two_digits (str2 a b) = Some (10 * Spec.digit_value a + Spec.digit_value b)%N.
Proof. intros Ha Hb. unfold Spec.two_digits, str2. rewrite Ha, Hb. reflexivity. Qed.

Lemma is_month_value a b :
  is_month a b = true →
  ∃ n, Spec.two_digits (str2 a b) = Some n ∧ (1 ≤ n ≤ 12)%N.
Proof.
  unfold is_month.
  intros [[->%bool_decide_eq_true_1 Hb]%andb_true_iff
         |[->%bool_decide_eq_true_1 Hb]%andb_true_iff]%orb_true_iff.
  - rewrite two_digits_value; [|reflexivity | eapply in_range_digit, Hb; lia].
    eexists. split; [reflexivity|]. apply in_range_spec in Hb.
    change (Spec.digit_value "0") with 0%N. unfold Spec.digit_value. lia.
  - rewrite two_digits_value; [|reflexivity | eapply in_range_digit, Hb; lia].
    eexists. split; [reflexivity|]. apply in_range_spec in Hb.
    change (Spec.digit_value "1") with 1%N. unfold Spec.digit_value. lia.
Qed.

Lemma is_day_value a b :
  is_day a b = true →
  ∃ n, Spec.two_digits (str2 a b) = Some n ∧ (1 ≤ n ≤ 31)%N.
Proof.
  unfold is_day.
  intros [[[->%bool_decide_eq_true_1 Hb]%andb_true_iff
          |[Ha Hb]%andb_true_iff]%orb_true_iff
         |[->%bool_decide_eq_true_1 Hb]%andb_true_iff]%orb_true_iff.
  - rewrite two_digits_value; [|reflexivity | eapply in_range_digit, Hb; lia].
    eexists. split; [reflexivity|]. apply in_range_spec in Hb.
    change (Spec.digit_value "0") with 0%N. unfold Spec.digit_value. lia.
  - assert (Hb' := Hb). apply in_range_spec in Hb'.
    apply orb_true_iff in Ha as [->%bool_decide_eq_true_1 | ->%bool_decide_eq_true_1].
    + rewrite two_digits_value; [|reflexivity | exact Hb].
      eexists. split; [reflexivity|].
      change (Spec.digit_value "1") with 1%N. unfold Spec.digit_value. lia.
    + rewrite two_digits_value; [|reflexivity | exact Hb].
      eexists. split; [reflexivity|].
      change (Spec.digit_value "2") with 2%N. unfold Spec.digit_value. lia.
  - rewrite two_digits_value; [|reflexivity | eapply in_range_digit, Hb; lia].
    eexists. split; [reflexivity|]. apply in_range_spec in Hb.
    change (Spec.digit_value "3") with 3%N. unfold Spec.digit_value. lia.
Qed.

(** The three groups of a match: a year of four characters, a month from
    01 to 12 and a day from 01 to 31. *)
Lemma date_at_fields s y m d :
  date_at s = Some (y, m, d) →
  String.length y = 4 ∧
  (∃ n, Spec.two_digits m = Some n ∧ (1 ≤ n ≤ 12)%N) ∧
  (∃ n, Spec.two_digits d = Some n ∧ (1 ≤ n ≤ 31)%N).
Proof.
  unfold date_at.
  destruct s as [|y1 [|y2 [|y3 [|y4 [|p1 [|m1 [|m2 [|p2 [|d1 [|d2 rest]]]]]]]]]];
    try discriminate.
  destruct (_ && _) eqn:H; [|discriminate]. intros [= <- <- <-].
  repeat (apply andb_true_iff in H as [H ?]).
  split; [reflexivity|]. split; [apply is_month_value | apply is_day_value]; assumption.
Qed.
End DateFields.

Section SortedDates.

Lemma string_lt_trans a b c :
  Spec.string_lt a b → Spec.string_lt b c → Spec.string_lt a c.
Proof.
  unfold Spec.string_lt. intros H1 H2.
  apply OrderedTypeEx.String_as_OT.cmp_lt.
  eapply OrderedTypeEx.String_as_OT.lt_trans;
    apply OrderedTypeEx.String_as_OT.cmp_lt; eassumption.
Qed.

Lemma string_gt_lt a b : String.compare a b = Gt → Spec.string_lt b a.
Proof.
  unfold Spec.string_lt. intros H. rewrite String.compare_antisym, H. reflexivity.
Qed.

Lemma string_lt_irrefl a : ¬ Spec.string_lt a a.
Proof.
  unfold Spec.string_lt. intros H.
  pose proof (String.compare_antisym a a) as Ha. rewrite H in Ha. discriminate.
Qed.

Lemma elem_of_insert_unique_2 x y l :
  x = y ∨ x ∈ l → x ∈ Py.insert_unique y l.
Proof.
  induction l as [|z l IH]; simpl.
  - intros [->|H]; [left | inversion H].
  - destruct (String.compare y z) eqn:Hc.
    + apply String.compare_eq_iff in Hc as ->. intros [->|H]; [left | exact H].
    + intros [->|H]; [left | right; exact H].
    + intros [->|[->|H]%elem_of_cons]; [right; apply IH; auto | left | right; apply IH; auto].
Qed.

Lemma elem_of_sorted_set_2 x l : x ∈ l → x ∈ Py.sorted_set l.
Proof.
  induction l as [|y l IH]; simpl; [auto|].
  intros [->|H]%elem_of_cons; apply elem_of_insert_unique_2; auto.
Qed.

Lemma insert_unique_sorted x l :
  StronglySorted Spec.string_lt l → StronglySorted Spec.string_lt (Py.insert_unique x l).
Proof.
  induction 1 as [|y l Hl IH Hy]; simpl; [repeat constructor|].
  destruct (String.compare x y) eqn:Hc.
  - constructor; assumption.
  - constructor; [constructor; assumption|].
    constructor; [exact Hc|].
    eapply Forall_impl; [exact Hy|]. intros z Hz. eapply string_lt_trans; eauto.
  - constructor; [exact IH|]. apply Forall_forall.
    intros z [->|Hz]%elem_of_insert_unique; [apply string_gt_lt, Hc|].
    rewrite Forall_forall in Hy. apply Hy, Hz.
Qed.

Lemma sorted_set_sorted l : StronglySorted Spec.string_lt (Py.sorted_set l).
Proof.
  induction l as [|x l IH]; simpl; [constructor | apply insert_unique_sorted, IH].
Qed.

Lemma strictly_sorted_NoDup l : StronglySorted Spec.string_lt l → NoDup l.
Proof.
  induction 1 as [|x l Hl IH Hx]; constructor; [|exact IH].
  intros Hin. rewrite Forall_forall in Hx. apply (string_lt_irrefl x), Hx, Hin.
Qed.

Lemma V1_extract_dates_alt text :
  V1.extract_dates text = Py.sorted_set (V3.extract_dates text).
Proof.
  unfold V1.extract_dates, V3.extract_dates. f_equal.
Qed.
End SortedDates.

(** X7: every date returned by [extract_dates], in either script, is a
    year of four characters, a month from 01 to 12 and a day from 01 to
    31, joined by hyphens whatever separators the text had. *)
Theorem X7_dates_are_year_month_day (text date : string) :
  date ∈ V1.extract_dates text ∨ date ∈ V3.extract_dates text →
  ∃ y m d,
    date = y +:+ "-" +:+ m +:+ "-" +:+ d ∧ String.length y = 4 ∧
    (∃ n, Spec.two_digits m = Some n ∧ (1 ≤ n ≤ 12)%N) ∧
    (∃ n, Spec.two_digits d = Some n ∧ (1 ≤ n ≤ 31)%N).
Proof.
  intros H.
  assert (date ∈ V3.extract_dates text) as Hin.
  { destruct H as [H|H]; [|exact H].
    rewrite V1_extract_dates_alt in H. apply elem_of_sorted_set, H. }
  unfold V3.extract_dates in Hin.
  apply list_elem_of_fmap in Hin as ([[y m] d] & -> & Hm).
  apply findall_dates_match in Hm as [s Hs].
  exists y, m, d. split; [reflexivity|]. eapply date_at_fields, Hs.
Qed.

Lemma X7_dates_witness :
  ∃ y m d,
    "2024-03-05" = y +:+ "-" +:+ m +:+ "-" +:+ d ∧ String.length y = 4 ∧
    (∃ n, Spec.two_digits m = Some n ∧ (1 ≤ n ≤ 12)%N) ∧
    (∃ n, Spec.two_digits d = Some n ∧ (1 ≤ n ≤ 31)%N).
Proof.
  apply (X7_dates_are_year_month_day "Launched on 2024/03/05 and revised 2024/13/40").
  right. vm_compute. left.
Defined.

(** X8: [extract_dates] of [account_summarizer.py] returns exactly the
    dates that [extract_dates] of [account_summarizer_v3.py] finds in the
    text, each once, in strictly increasing order. *)
Theorem X8_v1_dates_sorted_without_repetition (text : string) :
  (∀ date, date ∈ V1.extract_dates text ↔ date ∈ V3.extract_dates text) ∧
  StronglySorted Spec.string_lt (V1.extract_dates text) ∧
  NoDup (V1.extract_dates text).
Proof.
  rewrite V1_extract_dates_alt. split; [|split].
  - intros date. split; [apply elem_of_sorted_set | apply elem_of_sorted_set_2].
  - apply sorted_set_sorted.
  - apply strictly_sorted_NoDup, sorted_set_sorted.
Qed.

(** ** Classification by keywords *)

Section Substrings.

Lemma prefix_spec n : ∀ h, String.prefix n h = true ↔ ∃ rest, h = n +:+ rest.
Proof.
  induction n as [|a n IH]; intros h.
  - split; [intros _; exists h; reflexivity | intros _; destruct h; reflexivity].
  - destruct h as [|b h]; [split; [discriminate | intros [rest H]; discriminate]|].
    change (String.prefix (String a n) (String b h))
      with (if Ascii.ascii_dec a b then String.prefix n h else false).
    destruct (Ascii.ascii_dec a b) as [->|Hne].
    + rewrite IH. split; intros [rest H]; exists rest; [rewrite H; reflexivity|].
      injection H as ->. reflexivity.
    + split; [discriminate | intros [rest H]; injection H as -> _; congruence].
Qed.

Lemma contains_nil n : Py.contains n "" = String.prefix n "".
Proof. unfold Py.contains. apply orb_false_r. Qed.

Lemma contains_cons n c h :
  Py.contains n (String c h) = String.prefix n (String c h) || Py.contains n h.
Proof. reflexivity. Qed.

(** [Py.contains] is substring containment. *)
Lemma contains_spec n h : Py.contains n h = true ↔ Spec.occurs_in n h.
Proof.
  unfold Spec.occurs_in. induction h as [|c h IH].
  - rewrite contains_nil, prefix_spec. split.
    + intros [rest H]. exists EmptyString, rest. exact H.
    + intros ([|? ?] & after & H); [exists after; exact H | discriminate].
  - rewrite contains_cons, orb_true_iff, prefix_spec, IH. split.
    + intros [[rest H]|(before & after & H)].
      * exists EmptyString, rest. exact H.
      * exists (String c before), after. simpl. rewrite H. reflexivity.
    + intros ([|b before] & after & H).
      * left. exists after. exact H.
      * right. injection H as -> ->. exists before, after. reflexivity.
Qed.
End Substrings.

Section KeywordIndex.

Lemma insert_pair_perm x l : V3.insert_pair x l ≡ₚ x :: l.
Proof.
  induction l as [|y l IH]; simpl; [reflexivity|].
  destruct (V3.pair_after x y); [|reflexivity].
  rewrite IH. apply Permutation_swap.
Qed.

Lemma elem_of_flat_map {B C} (f : B → list C) (l : list B) (y : C) :
  y ∈ flat_map f l ↔ ∃ x, x ∈ l ∧ y ∈ f x.
Proof.
  induction l as [|x l IH]; simpl.
  - split; [intros H; inversion H | intros (x & H & _); inversion H].
  - rewrite elem_of_app, IH. split.
    + intros [H|(x' & H1 & H2)]; [exists x; split; [left | exact H] |
                                   exists x'; split; [right; exact H1 | exact H2]].
    + intros (x' & [->|H1]%elem_of_cons & H2); [left; exact H2 | right; eauto].
Qed.

(** The keyword index pairs every lowered keyword with its theme. *)
Lemma build_keyword_index_spec thematic_map kw dom :
  (kw, dom) ∈ V3.build_keyword_index thematic_map ↔
  ∃ kws kw0, (dom, kws) ∈ thematic_map ∧ kw0 ∈ kws ∧ kw = Text.lower kw0.
Proof.
  unfold V3.build_keyword_index.
  assert (Hperm : ∀ pairs, foldr V3.insert_pair [] pairs ≡ₚ pairs).
  { induction pairs as [|x pairs IH]; simpl; [reflexivity|].
    rewrite insert_pair_perm, IH. reflexivity. }
  rewrite Hperm, elem_of_flat_map. split.
  - intros ([dom' kws] & Hin & (kw0 & [= -> ->] & Hkw)%list_elem_of_fmap). eauto.
  - intros (kws & kw0 & Hin & Hkw & ->). exists (dom, kws). split; [exact Hin|].
    apply list_elem_of_fmap. eauto.
Qed.

Lemma sentence_domains_spec sentence key_index dom :
  dom ∈ V3.sentence_domains sentence key_index ↔
  (∃ kw, (kw, dom) ∈ key_index ∧ Py.contains kw (Text.lower sentence) = true) ∨
  (dom = "General" ∧
   ∀ kw dom', (kw, dom') ∈ key_index → Py.contains kw (Text.lower sentence) = false).
Proof.
  unfold V3.sentence_domains.
  set (hits := filter _ key_index).
  assert (Hhits : ∀ d, d ∈ hits.*2 ↔
            ∃ kw, (kw, d) ∈ key_index ∧ Py.contains kw (Text.lower sentence) = true).
  { intros d. rewrite list_elem_of_fmap. split.
    - intros ([kw d'] & -> & [Hc Hin]%list_elem_of_filter). eauto.
    - intros (kw & Hin & Hc). exists (kw, d). split; [reflexivity|].
      apply list_elem_of_filter. auto. }
  case_bool_decide as Hempty.
  - rewrite list_elem_of_singleton. split.
    + intros ->. right. split; [reflexivity|]. intros kw dom' Hin.
      destruct (Py.contains kw (Text.lower sentence)) eqn:Hc; [|reflexivity].
      assert (dom' ∈ (list_to_set hits.*2 : gset string)) as Hd
        by (apply elem_of_list_to_set, Hhits; eauto).
      rewrite Hempty in Hd. set_solver.
    + intros [(kw & Hin & Hc)|[-> _]]; [|reflexivity].
      assert (dom ∈ (list_to_set hits.*2 : gset string)) as Hd
        by (apply elem_of_list_to_set, Hhits; eauto).
      rewrite Hempty in Hd. set_solver.
  - rewrite elem_of_elements, elem_of_list_to_set, Hhits. split; [auto|].
    intros [H|[-> Hnone]]; [exact H|]. exfalso. apply Hempty.
    apply set_eq. intros d. rewrite elem_of_list_to_set, Hhits. split; [|set_solver].
    intros (kw & Hin & Hc). rewrite (Hnone kw d Hin) in Hc. discriminate.
Qed.

Lemma sentence_domains_nonempty sentence key_index :
  V3.sentence_domains sentence key_index ≠ [] ∧
  NoDup (V3.sentence_domains sentence key_index).
Proof.
  unfold V3.sentence_domains. case_bool_decide as Hempty.
  - split; [discriminate | apply NoDup_singleton].
  - split; [|apply NoDup_elements].
    intros H. apply Hempty. apply elements_empty_inv in H.
    apply leibniz_equiv, H.
Qed.
End KeywordIndex.

(** X9: [sentence_domains] with the index of a thematic map gives every
    sentence at least one theme, and none twice: a theme of the map is
    among them exactly when one of its keywords, lowered, occurs in the
    lowered sentence (so a sentence can have several themes), and
    ["General"] is among them when no keyword of the map occurs. *)
Theorem X9_sentence_domains_fan_out
    (thematic_map : list (string * list string)) (sentence dom : string) :
  let domains :=
    V3.sentence_domains sentence (V3.build_keyword_index thematic_map) in
  let hit d :=
    ∃ kws kw, (d, kws) ∈ thematic_map ∧ kw ∈ kws ∧
              Spec.occurs_in (Text.lower kw) (Text.lower sentence) in
  domains ≠ [] ∧ NoDup domains ∧
  (dom ∈ domains ↔ hit dom ∨ (dom = "General" ∧ ¬ ∃ d, hit d)).
Proof.
  intros domains hit.
  split; [apply sentence_domains_nonempty|]. split; [apply sentence_domains_nonempty|].
  unfold domains. rewrite sentence_domains_spec. unfold hit. split.
  - intros [(kw & Hin%build_keyword_index_spec & Hc%contains_spec)|[-> Hnone]].
    + left. destruct Hin as (kws & kw0 & Hm & Hk & ->). eauto.
    + right. split; [reflexivity|]. intros (d & kws & kw & Hm & Hk & Hc).
      apply contains_spec in Hc.
      rewrite (Hnone (Text.lower kw) d) in Hc; [discriminate|].
      apply build_keyword_index_spec. eauto.
  - intros [(kws & kw & Hm & Hk & Hc)|[-> Hnone]].
    + left. exists (Text.lower kw). split; [|apply contains_spec, Hc].
      apply build_keyword_index_spec. eauto.
    + right. split; [reflexivity|]. intros kw dom' Hin.
      destruct (Py.contains kw (Text.lower sentence)) eqn:Hc; [|reflexivity].
      exfalso. apply Hnone. exists dom'.
      apply build_keyword_index_spec in Hin as (kws & kw0 & Hm & Hk & ->).
      exists kws, kw0. split; [exact Hm|]. split; [exact Hk|]. apply contains_spec, Hc.
Qed.

(** ** The buckets of the themes *)

Section Buckets.
Variable key_index : list (string * string).

Abbreviation bucket_fold s :=
  (foldl (λ (buckets : gmap string (list string)) dom,
            <[dom := default [] (buckets !! dom) ++ [s]]> buckets)).

Lemma filter_none {B} (P : B → Prop) `{∀ x, Decision (P x)} (l : list B) :
  (∀ x, x ∈ l → ¬ P x) → filter P l = [].
Proof.
  induction l as [|x l IH]; intros Hnone; [reflexivity|].
  rewrite filter_cons. destruct (decide (P x)) as [HP|_].
  - exfalso. apply (Hnone x); [left | exact HP].
  - apply IH. intros y Hy. apply Hnone. right. exact Hy.
Qed.

Lemma bucket_fold_absent s dom ds : ∀ buckets : gmap string (list string),
  dom ∉ ds → bucket_fold s buckets ds !! dom = buckets !! dom.
Proof.
  induction ds as [|d ds IH]; intros buckets Hnotin; [reflexivity|].
  apply not_elem_of_cons in Hnotin as [Hne Hnotin]. simpl.
  rewrite IH by exact Hnotin.
  apply lookup_insert_ne. congruence.
Qed.

Lemma bucket_fold_present s dom ds : ∀ buckets : gmap string (list string),
  NoDup ds → dom ∈ ds →
  bucket_fold s buckets ds !! dom = Some (default [] (buckets !! dom) ++ [s]).
Proof.
  induction ds as [|d ds IH]; intros buckets Hnd Hin; [inversion Hin|].
  apply NoDup_cons in Hnd as [Hd Hnd]. simpl.
  apply elem_of_cons in Hin as [->|Hin].
  - rewrite bucket_fold_absent by exact Hd.
    apply lookup_insert_eq.
  - rewrite IH by assumption.
    rewrite lookup_insert_ne; [reflexivity|]. intros ->. contradiction.
Qed.

Lemma domain_buckets_from sentences dom : ∀ buckets : gmap string (list string),
  let out :=
    foldl (λ buckets s, bucket_fold s buckets (V3.sentence_domains s key_index))
          buckets sentences in
  default [] (out !! dom)
    = default [] (buckets !! dom)
      ++ filter (λ s, dom ∈ V3.sentence_domains s key_index) sentences ∧
  (out !! dom = None ↔
   buckets !! dom = None ∧
   filter (λ s, dom ∈ V3.sentence_domains s key_index) sentences = []).
Proof.
  induction sentences as [|s sentences IH]; intros buckets; cbn zeta.
  - simpl. rewrite app_nil_r. split; [reflexivity|]. tauto.
  - simpl foldl. specialize (IH (bucket_fold s buckets
                                       (V3.sentence_domains s key_index))).
    cbn zeta in IH. destruct IH as [IH1 IH2]. rewrite IH1, IH2. clear IH1 IH2.
    rewrite filter_cons.
    destruct (decide (dom ∈ V3.sentence_domains s key_index)) as [Hin|Hnotin].
    + rewrite bucket_fold_present
        by (try apply sentence_domains_nonempty; exact Hin).
      simpl. rewrite <- app_assoc. split; [reflexivity|].
      split; intros [? ?]; discriminate.
    + rewrite bucket_fold_absent by exact Hnotin. split; reflexivity.
Qed.

Lemma domain_buckets_spec sentences dom :
  default [] (V3.domain_buckets sentences key_index !! dom)
    = filter (λ s, dom ∈ V3.sentence_domains s key_index) sentences ∧
  (V3.domain_buckets sentences key_index !! dom = None ↔
   filter (λ s, dom ∈ V3.sentence_domains s key_index) sentences = []).
Proof.
  destruct (domain_buckets_from sentences dom ∅) as [H1 H2].
  cbn zeta in H1, H2. rewrite lookup_empty in H1, H2. split.
  - exact H1.
  - unfold V3.domain_buckets. rewrite H2. tauto.
Qed.
End Buckets.

(** X10: in [build_report] of the third version the bucket of a theme
    holds, in the order of the corpus, exactly the sentences that
    [sentence_domains] gives that theme, each of them once; a theme that no
    sentence has gets no bucket, and every sentence is in some bucket. *)
Theorem X10_v3_buckets_hold_the_sentences_of_a_theme
    (key_index : list (string * string)) (sentences : list string) (dom : string) :
  let buckets := V3.domain_buckets sentences key_index in
  default [] (buckets !! dom)
    = filter (λ s, dom ∈ V3.sentence_domains s key_index) sentences ∧
  (buckets !! dom = None ↔
   ∀ s, s ∈ sentences → dom ∉ V3.sentence_domains s key_index) ∧
  (∀ s, s ∈ sentences → ∃ d bucket, buckets !! d = Some bucket ∧ s ∈ bucket).
Proof.
  intros buckets. destruct (domain_buckets_spec key_index sentences dom) as [H1 H2].
  split; [exact H1|]. split.
  - unfold buckets. rewrite H2. split.
    + intros Hnil s Hin Hdom.
      assert (s ∈ filter (λ s, dom ∈ V3.sentence_domains s key_index) sentences) as H
        by (apply list_elem_of_filter; auto).
      rewrite Hnil in H. inversion H.
    + intros Hnone. apply filter_none. exact Hnone.
  - intros s Hin.
    destruct (V3.sentence_domains s key_index) as [|d ds] eqn:Hds.
    { pose proof (sentence_domains_nonempty s key_index) as [Hne _]. contradiction. }
    destruct (domain_buckets_spec key_index sentences d) as [Hd1 Hd2].
    assert (Hs : s ∈ filter (λ s, d ∈ V3.sentence_domains s key_index) sentences).
    { apply list_elem_of_filter. split; [rewrite Hds; left | exact Hin]. }
    fold buckets in Hd1, Hd2.
    destruct (buckets !! d) as [bucket|] eqn:Hb.
    + exists d, bucket. split; [exact Hb|]. simpl in Hd1. rewrite Hd1. exact Hs.
    + rewrite (proj1 Hd2 eq_refl) in Hs. inversion Hs.
Qed.

(** ** The inventories *)

Section Inventories.

Lemma V1_inventory_loop_spec ranked : ∀ seen items,
  (∀ x, x ∈ seen ↔ x ∈ items) → NoDup items → length items < 10 →
  let out := V1.inventory_loop ranked seen items in
  items `prefix_of` out ∧ NoDup out ∧ length out ≤ 10 ∧
  (∀ x, x ∈ out → x ∈ items ∨ x ∈ ranked.*1) ∧
  (length out < 10 → ∀ x, x ∈ ranked.*1 → x ∈ out).
Proof.
  induction ranked as [|[s score] ranked IH]; intros seen items Hseen Hnd Hlen; cbn zeta.
  - simpl. split; [reflexivity|]. split; [exact Hnd|]. split; [lia|].
    split; [auto|]. intros _ x Hx. inversion Hx.
  - cbn [V1.inventory_loop]. case_bool_decide as Hin.
    + cbn zeta. rewrite bool_decide_eq_false_2 by lia.
      destruct (IH seen items Hseen Hnd Hlen) as (Hp & Hn & Hl & Hsub & Hall).
      split; [exact Hp|]. split; [exact Hn|]. split; [exact Hl|]. split.
      * intros x Hx. destruct (Hsub x Hx); [left | right; rewrite fmap_cons; right]; auto.
      * intros Hlt x Hx. rewrite fmap_cons in Hx.
        apply elem_of_cons in Hx as [->|Hx]; [|auto].
        eapply elem_of_prefix; [|exact Hp]. apply Hseen, Hin.
    + cbn zeta.
      assert (Hnd' : NoDup (items ++ [s])).
      { apply NoDup_app. split; [exact Hnd|]. split; [|apply NoDup_singleton].
        intros x Hx ->%list_elem_of_singleton. apply Hin, Hseen, Hx. }
      assert (Hseen' : ∀ x, x ∈ s :: seen ↔ x ∈ items ++ [s]).
      { intros x. rewrite elem_of_cons, elem_of_app, list_elem_of_singleton, Hseen. tauto. }
      case_bool_decide as Hfull.
      * rewrite length_app in Hfull. simpl in Hfull.
        split; [apply prefix_app_r; reflexivity|]. split; [exact Hnd'|].
        split; [rewrite length_app; simpl; lia|]. split.
        -- intros x [Hx| ->%list_elem_of_singleton]%elem_of_app; [left; exact Hx|].
           right. rewrite fmap_cons. left.
        -- rewrite length_app. simpl. lia.
      * destruct (IH (s :: seen) (items ++ [s]) Hseen' Hnd' ltac:(lia))
          as (Hp & Hn & Hl & Hsub & Hall).
        split; [etrans; [apply prefix_app_r; reflexivity | exact Hp]|].
        split; [exact Hn|]. split; [exact Hl|]. split.
        -- intros x Hx. rewrite fmap_cons.
           destruct (Hsub x Hx) as [[H| ->%list_elem_of_singleton]%elem_of_app|H].
           ++ left. exact H.
           ++ right. left.
           ++ right. right. exact H.
        -- intros Hlt x Hx. rewrite fmap_cons in Hx.
           apply elem_of_cons in Hx as [->|Hx]; [|auto].
           eapply elem_of_prefix; [|exact Hp]. apply elem_of_app. right. left.
Qed.

Lemma V3_inventory_loop_spec ranked : ∀ (seen : gset string) items,
  (∀ x, x ∈ seen ↔ x ∈ items) → NoDup items → length items < 10 →
  let out := V3.inventory_loop ranked seen items in
  items `prefix_of` out ∧ NoDup out ∧ length out ≤ 10 ∧
  (∀ x, x ∈ out → x ∈ items ∨ x ∈ ranked.*1) ∧
  (length out < 10 → ∀ x, x ∈ ranked.*1 → x ∈ out).
Proof.
  induction ranked as [|[s score] ranked IH]; intros seen items Hseen Hnd Hlen; cbn zeta.
  - simpl. split; [reflexivity|]. split; [exact Hnd|]. split; [lia|].
    split; [auto|]. intros _ x Hx. inversion Hx.
  - cbn [V3.inventory_loop]. case_bool_decide as Hin.
    + cbn zeta. rewrite bool_decide_eq_false_2 by lia.
      destruct (IH seen items Hseen Hnd Hlen) as (Hp & Hn & Hl & Hsub & Hall).
      split; [exact Hp|]. split; [exact Hn|]. split; [exact Hl|]. split.
      * intros x Hx. destruct (Hsub x Hx); [left | right; rewrite fmap_cons; right]; auto.
      * intros Hlt x Hx. rewrite fmap_cons in Hx.
        apply elem_of_cons in Hx as [->|Hx]; [|auto].
        eapply elem_of_prefix; [|exact Hp]. apply Hseen, Hin.
    + cbn zeta.
      assert (Hnd' : NoDup (items ++ [s])).
      { apply NoDup_app. split; [exact Hnd|]. split; [|apply NoDup_singleton].
        intros x Hx ->%list_elem_of_singleton. apply Hin, Hseen, Hx. }
      assert (Hseen' : ∀ x, x ∈ ({[s]} ∪ seen : gset string) ↔ x ∈ items ++ [s]).
      { intros x. rewrite elem_of_union, elem_of_singleton, elem_of_app,
          list_elem_of_singleton, Hseen. tauto. }
      case_bool_decide as Hfull.
      * rewrite length_app in Hfull. simpl in Hfull.
        split; [apply prefix_app_r; reflexivity|]. split; [exact Hnd'|].
        split; [rewrite length_app; simpl; lia|]. split.
        -- intros x [Hx| ->%list_elem_of_singleton]%elem_of_app; [left; exact Hx|].
           right. rewrite fmap_cons. left.
        -- rewrite length_app. simpl. lia.
      * destruct (IH ({[s]} ∪ seen) (items ++ [s]) Hseen' Hnd' ltac:(lia))
          as (Hp & Hn & Hl & Hsub & Hall).
        split; [etrans; [apply prefix_app_r; reflexivity | exact Hp]|].
        split; [exact Hn|]. split; [exact Hl|]. split.
        -- intros x Hx. rewrite fmap_cons.
           destruct (Hsub x Hx) as [[H| ->%list_elem_of_singleton]%elem_of_app|H].
           ++ left. exact H.
           ++ right. left.
           ++ right. right. exact H.
        -- intros Hlt x Hx. rewrite fmap_cons in Hx.
           apply elem_of_cons in Hx as [->|Hx]; [|auto].
           eapply elem_of_prefix; [|exact Hp]. apply elem_of_app. right. left.
Qed.

End Inventories.

Lemma inventory_of_loop_v1 pool :
  pool ≠ [] → Spec.inventory_of pool (V1.inventory_loop pool [] []).
Proof.
  intros Hne.
  destruct (V1_inventory_loop_spec pool [] []) as (_ & Hn & Hl & Hsub & Hall).
  { intros x. split; intros H; inversion H. }
  { apply NoDup_nil_2. }
  { simpl. lia. }
  split; [|split; [exact Hl|split; [exact Hn|split; [|exact Hall]]]].
  - destruct pool as [|[s score] pool]; [contradiction|].
    intros Hnil. cbn [V1.inventory_loop] in Hnil.
    rewrite bool_decide_eq_false_2 in Hnil by (intros H; inversion H).
    cbn zeta in Hnil. rewrite bool_decide_eq_false_2 in Hnil by (simpl; lia).
    destruct (V1_inventory_loop_spec pool [s] ([] ++ [s])) as ([k Hk] & _).
    { intros x. reflexivity. }
    { apply NoDup_singleton. }
    { simpl. lia. }
    rewrite Hnil in Hk. discriminate.
  - intros s Hs. destruct (Hsub s Hs) as [H|H]; [inversion H | exact H].
Qed.

Lemma inventory_of_loop_v3 pool :
  pool ≠ [] → Spec.inventory_of pool (V3.inventory_loop pool ∅ []).
Proof.
  intros Hne.
  destruct (V3_inventory_loop_spec pool ∅ []) as (_ & Hn & Hl & Hsub & Hall).
  { intros x. split; intros H; [set_solver | inversion H]. }
  { apply NoDup_nil_2. }
  { simpl. lia. }
  split; [|split; [exact Hl|split; [exact Hn|split; [|exact Hall]]]].
  - destruct pool as [|[s score] pool]; [contradiction|].
    intros Hnil. cbn [V3.inventory_loop] in Hnil.
    rewrite bool_decide_eq_false_2 in Hnil by set_solver.
    cbn zeta in Hnil. rewrite bool_decide_eq_false_2 in Hnil by (simpl; lia).
    destruct (V3_inventory_loop_spec pool ({[s]} ∪ ∅) ([] ++ [s])) as ([k Hk] & _).
    { intros x. simpl. set_solver. }
    { apply NoDup_singleton. }
    { simpl. lia. }
    rewrite Hnil in Hk. discriminate.
  - intros s Hs. destruct (Hsub s Hs) as [H|H]; [inversion H | exact H].
Qed.

(** X12: the inventories of [build_report], in the first and in the third
    version.  A theme has an inventory exactly when its ranked pool is not
    empty; the inventory then lists sentences of that pool, at most ten of
    them and none twice, and all the sentences of the pool when it lists
    fewer than ten. *)
Theorem X12_inventories_list_pool_sentences_once :
  (∀ (domain_ranked : V3.pools) (order : list string) (dom : string),
     let pool := default [] (domain_ranked !! dom) in
     (∀ items, (dom, items) ∈ V3.inventories domain_ranked order →
               dom ∈ order ∧ Spec.inventory_of pool items) ∧
     (dom ∈ order →
      (dom ∈ (V3.inventories domain_ranked order).*1 ↔ pool ≠ []))) ∧
  (∀ (domain_ranked : V1.pydict) (h : V1.store) (dom : string),
     let pool := V1.dict_get domain_ranked h dom in
     (∀ items, (dom, items) ∈ V1.inventories domain_ranked h →
               dom ∈ V1.domain_order ∧ Spec.inventory_of pool items) ∧
     (dom ∈ V1.domain_order →
      (dom ∈ (V1.inventories domain_ranked h).*1 ↔ pool ≠ []))).
Proof.
  split.
  - intros domain_ranked order dom pool. unfold V3.inventories. split.
    + intros items (d & Hd & Hsome)%list_elem_of_omap.
      destruct (default [] (domain_ranked !! d)) as [|x pool'] eqn:Hpool.
      { simpl in Hsome. discriminate. }
      pose proof (inventory_of_loop_v3 (x :: pool') ltac:(discriminate)) as Hinv.
      destruct (V3.inventory_loop (x :: pool') ∅ []) eqn:Hloop;
        [discriminate|]. injection Hsome as <- <-.
      split; [exact Hd|]. unfold pool. rewrite Hpool. exact Hinv.
    + intros Hin. rewrite list_elem_of_fmap. split.
      * intros ([d items] & -> & (d' & _ & Hsome)%list_elem_of_omap). simpl.
        intros Hnil.
        destruct (V3.inventory_loop (default [] (domain_ranked !! d')) ∅ []) eqn:Hloop;
          [discriminate|]. injection Hsome as -> <-.
        unfold pool in Hnil. simpl in Hnil. rewrite Hnil in Hloop. discriminate.
      * intros Hne. pose proof (inventory_of_loop_v3 pool Hne) as [Hitems _].
        exists (dom, V3.inventory_loop pool ∅ []). split; [reflexivity|].
        apply list_elem_of_omap. exists dom. split; [exact Hin|]. fold pool.
        destruct (V3.inventory_loop pool ∅ []); [contradiction | reflexivity].
  - intros domain_ranked h dom pool. unfold V1.inventories. split.
    + intros items (d & Hd & Hsome)%list_elem_of_omap.
      destruct (V1.dict_get domain_ranked h d) as [|x pool'] eqn:Hpool.
      { simpl in Hsome. discriminate. }
      pose proof (inventory_of_loop_v1 (x :: pool') ltac:(discriminate)) as Hinv.
      destruct (V1.inventory_loop (x :: pool') [] []) eqn:Hloop;
        [discriminate|]. injection Hsome as <- <-.
      split; [exact Hd|]. unfold pool. rewrite Hpool. exact Hinv.
    + intros Hin. rewrite list_elem_of_fmap. split.
      * intros ([d items] & -> & (d' & _ & Hsome)%list_elem_of_omap). simpl.
        intros Hnil.
        destruct (V1.inventory_loop (V1.dict_get domain_ranked h d') [] []) eqn:Hloop;
          [discriminate|]. injection Hsome as -> <-.
        unfold pool in Hnil. simpl in Hnil. rewrite Hnil in Hloop. discriminate.
      * intros Hne. pose proof (inventory_of_loop_v1 pool Hne) as [Hitems _].
        exists (dom, V1.inventory_loop pool [] []). split; [reflexivity|].
        apply list_elem_of_omap. exists dom. split; [exact Hin|]. fold pool.
        destruct (V1.inventory_loop pool [] []); [contradiction | reflexivity].
Qed.

(** ** The report of the third version *)

Section ReportV3.
Variable threshold : Qc.

Lemma fold_consider_subset dom l x : ∀ st,
  x ∈ V3.canonical (foldl (V3.consider threshold dom) st l) →
  x ∈ V3.canonical st ∨ x ∈ l.
Proof.
  induction l as [|s l IH]; intros st; simpl; [auto|].
  intros [H|H]%IH; [|right; right; exact H].
  destruct (consider_cases threshold dom st s) as [Heq|(_ & Hcan & _)].
  - rewrite Heq in H. auto.
  - rewrite Hcan in H. apply elem_of_app in H as [H| ->%list_elem_of_singleton];
      [left; exact H | right; left].
Qed.

Lemma canonical_loop_subset (domain_ranked : V3.pools) order x : ∀ st,
  x ∈ V3.canonical (V3.canonical_loop threshold domain_ranked order st) →
  x ∈ V3.canonical st ∨
  ∃ dom, dom ∈ order ∧ x ∈ (default [] (domain_ranked !! dom)).*1.
Proof.
  unfold V3.canonical_loop.
  induction order as [|dom order IH]; intros st; simpl; [auto|].
  intros [H|(d & Hd & H)]%IH.
  - unfold V3.take_domain in H. apply fold_consider_subset in H as [H|H]; [auto|].
    right. exists dom. split; [left | exact H].
  - right. exists d. split; [right; exact Hd | exact H].
Qed.

Lemma canonical_sentences_subset (domain_ranked : V3.pools) order target canon x :
  V3.canonical_sentences order domain_ranked target threshold = Py.Ok canon →
  x ∈ canon →
  ∃ dom, dom ∈ order ∧ x ∈ (default [] (domain_ranked !! dom)).*1.
Proof.
  unfold V3.canonical_sentences.
  destruct (V3.initial_quota order target) as [q|e]; [|discriminate].
  simpl. intros [= <-] Hx. apply elem_of_slice_to in Hx.
  apply canonical_loop_subset in Hx as [Hx|Hx]; [inversion Hx | exact Hx].
Qed.
End ReportV3.

Lemma ranked_pool_of_buckets how key_index sentences max_per_domain dom x :
  x ∈ (default [] (((λ sents, V3.ranked_pool how sents max_per_domain)
                      <$> V3.domain_buckets sentences key_index) !! dom)).*1 →
  x ∈ sentences ∧ dom ∈ V3.sentence_domains x key_index.
Proof.
  rewrite lookup_fmap.
  destruct (domain_buckets_spec key_index sentences dom) as [Hb _].
  destruct (V3.domain_buckets sentences key_index !! dom) as [bucket|] eqn:Hlook;
    simpl; [|intros H; inversion H].
  simpl in Hb. intros Hx.
  destruct (V3_ranked_pool_spec how bucket max_per_domain) as [[k Hk] _].
  assert (Hin : x ∈ (V3.rank_tfidf how bucket).*1).
  { rewrite Hk, fmap_app. apply elem_of_app. left. exact Hx. }
  rewrite V3_rank_tfidf_sentences, Hb in Hin.
  apply list_elem_of_filter in Hin. tauto.
Qed.

Lemma domain_order_nonempty thematic_keys key_index sentences :
  thematic_keys ≠ [] ∨ sentences ≠ [] →
  V3.domain_order thematic_keys
    (elements (dom (V3.domain_buckets sentences key_index))) ≠ [].
Proof.
  unfold V3.domain_order. intros [Hk|Hs].
  - destruct thematic_keys; [contradiction | discriminate].
  - destruct thematic_keys as [|k ks]; [|discriminate]. simpl.
    destruct sentences as [|s sentences]; [contradiction|].
    destruct (V3.sentence_domains s key_index) as [|d ds] eqn:Hds.
    { pose proof (sentence_domains_nonempty s key_index) as [Hne _]. contradiction. }
    destruct (domain_buckets_spec key_index (s :: sentences) d) as [_ Hnone].
    assert (Hd : d ∈ Py.sorted
                       (elements (dom (V3.domain_buckets (s :: sentences) key_index)))).
    { rewrite sorted_perm, elem_of_elements, elem_of_dom.
      destruct (V3.domain_buckets (s :: sentences) key_index !! d) eqn:Hlook; [eauto|].
      exfalso. pose proof (proj1 Hnone eq_refl) as Hnil.
      rewrite filter_cons, decide_True in Hnil by (rewrite Hds; left). discriminate. }
    intros Hnil. refine (filter_nil_not_elem_of _ _ d Hnil _ Hd).
    apply not_elem_of_nil.
Qed.

(** X11: [build_report] of the third version never fails, whatever the
    texts, the thematic map and the numbers are; with an empty thematic map
    and a corpus without sentences its report is empty.  Every canonical
    sentence of the report is a sentence of the corpus with a token, and
    for a target that is not negative there are at most
    [target_sentences] of them. *)
Theorem X11_v3_build_report_always_returns
    (how : Py.summation)
    (texts : list string) (thematic_map : list (string * list string))
    (target_sentences max_per_domain : Z) (dedupe_threshold : Qc) :
  let corpus :=
    Py.join (String "010"%char (String "010"%char EmptyString))
            (filter (λ t, t ≠ "") texts) in
  ∃ sentences report,
    V3.split_sentences corpus = Py.Ok sentences ∧
    V3.build_report how texts thematic_map target_sentences max_per_domain
      dedupe_threshold = Py.Ok report ∧
    V3.sentences_total report = length sentences ∧
    (∀ s, s ∈ V3.canonical_sentences_of report →
          s ∈ sentences ∧ V3.tokenize s ≠ []) ∧
    ((0 ≤ target_sentences)%Z →
     length (V3.canonical_sentences_of report) ≤ Z.to_nat target_sentences) ∧
    (thematic_map = [] → sentences = [] →
     V3.canonical_sentences_of report = [] ∧
     V3.executive_summary_of report = []).
Proof.
  intros corpus.
  destruct (V3_split_sentences_total corpus) as [sentences Hsplit].
  exists sentences.
  unfold V3.build_report. fold corpus. rewrite Hsplit. simpl Py.bind.
  set (key_index := V3.build_keyword_index thematic_map).
  set (buckets := V3.domain_buckets sentences key_index).
  set (domain_ranked :=
         (λ sents, V3.ranked_pool how sents max_per_domain) <$> buckets).
  set (order := V3.domain_order thematic_map.*1 (elements (dom buckets))).
  destruct (V3.canonical_sentences order domain_ranked target_sentences
              dedupe_threshold) as [canon|e] eqn:Hcanon.
  - simpl. eexists. split; [reflexivity|]. split; [reflexivity|]. simpl.
    split; [reflexivity|]. split; [|split].
    + intros s Hs. split.
      * destruct (canonical_sentences_subset _ _ _ _ _ _ Hcanon Hs) as (d & _ & Hd).
        apply ranked_pool_of_buckets in Hd. tauto.
      * destruct (canonical_sentences_ok _ _ _ _ _ Hcanon) as [Htok _].
        rewrite Forall_forall in Htok. apply Htok, Hs.
    + intros Hpos. revert Hcanon. unfold V3.canonical_sentences.
      destruct (V3.initial_quota order target_sentences); [|discriminate].
      simpl. intros [= <-]. apply slice_to_length, Hpos.
    + intros -> ->.
      assert (Horder : order = []) by (vm_compute; reflexivity).
      revert Hcanon. rewrite Horder. unfold V3.canonical_sentences.
      rewrite initial_quota_total. simpl. intros [= <-]. split.
      * unfold Py.slice_to. destruct (bool_decide _); apply take_nil.
      * reflexivity.
  - exfalso. revert Hcanon. unfold V3.canonical_sentences.
    rewrite initial_quota_total. discriminate.
Qed.

(** ** More on the loaders *)

Section ChatExports.
Variable fs : string → Py.result string.
Variable json_loads : string → Py.result Py.json.
Variable repr : Py.json → string.
Variable suffix : string → string.

Abbreviation newline := (String "010"%char EmptyString).

Lemma mapM_Forall2 {B C} (f : B → Py.result C) (R : B → C → Prop) l ys :
  (∀ x y, R x y → f x = Py.Ok y) → Forall2 R l ys → Py.mapM f l = Py.Ok ys.
Proof.
  intros Hf H. induction H as [|x y l ys HR _ IH]; [reflexivity|].
  simpl. rewrite (Hf x y HR). simpl. rewrite IH. reflexivity.
Qed.

Lemma V1_joined_texts messages contents :
  Forall2 (Spec.message_text repr) messages contents →
  V1.joined repr messages = Py.Ok (Py.join newline contents).
Proof.
  intros H. unfold V1.joined, Py.join_values.
  rewrite (mapM_Forall2 _ (λ v c, v = Py.JStr c) (V1.content_or_str repr <$> messages)
             contents); [reflexivity | intros x y ->; reflexivity |].
  apply Forall2_fmap_l. eapply Forall2_impl; [exact H|].
  intros m c Hm. destruct m; simpl in *; subst; try reflexivity.
  rewrite Hm. reflexivity.
Qed.

Lemma V3_joined_texts messages contents :
  Forall2 (Spec.message_text repr) messages contents →
  V3.joined repr (Py.JArr messages) = Py.Ok (Py.join newline contents).
Proof.
  intros H. unfold V3.joined, Py.join_values. simpl.
  rewrite (mapM_Forall2 _ (λ v c, v = Py.JStr c) (V3.content_or_str repr <$> messages)
             contents); [reflexivity | intros x y ->; reflexivity |].
  apply Forall2_fmap_l. eapply Forall2_impl; [exact H|].
  intros m c Hm. destruct m; simpl in *; subst; try reflexivity.
  rewrite Hm. reflexivity.
Qed.

Lemma Orbit_joined_texts messages contents :
  Forall2 (Spec.message_text repr) messages contents →
  Orbit.joined repr (Py.JArr messages) = Py.Ok (Py.join newline contents).
Proof.
  intros H. unfold Orbit.joined, Orbit._extract_message_content. simpl.
  do 2 f_equal. induction H as [|m c l cs Hm _ IH]; [reflexivity|].
  rewrite fmap_cons. cbn [concat]. rewrite IH.
  destruct m; simpl in *; subst; try reflexivity.
  rewrite Hm. reflexivity.
Qed.

Lemma V1_joined_fails messages m :
  m ∈ messages → Spec.content_not_text m →
  ∃ e, V1.joined repr messages = Py.Raise e.
Proof.
  intros Hin (fields & v & -> & Hv & Hnot). unfold V1.joined, Py.join_values.
  destruct (mapM_raises
              (λ v, match v with Py.JStr s => Py.Ok s | _ => Py.Raise Py.TypeError end)
              (V1.content_or_str repr <$> messages) v Py.TypeError) as [e ->].
  - apply list_elem_of_fmap. exists (Py.JObj fields). split; [|exact Hin].
    simpl. rewrite Hv. reflexivity.
  - destruct v; try reflexivity. exfalso. eapply Hnot. reflexivity.
  - simpl. eauto.
Qed.

Lemma V3_joined_fails messages m :
  m ∈ messages → Spec.content_not_text m →
  ∃ e, V3.joined repr (Py.JArr messages) = Py.Raise e.
Proof.
  intros Hin (fields & v & -> & Hv & Hnot). unfold V3.joined, Py.join_values. simpl.
  destruct (mapM_raises
              (λ v, match v with Py.JStr s => Py.Ok s | _ => Py.Raise Py.TypeError end)
              (V3.content_or_str repr <$> messages) v Py.TypeError) as [e ->].
  - apply list_elem_of_fmap. exists (Py.JObj fields). split; [|exact Hin].
    simpl. rewrite Hv. reflexivity.
  - destruct v; try reflexivity. exfalso. eapply Hnot. reflexivity.
  - simpl. eauto.
Qed.

Lemma Orbit_extract_item_skips m :
  Spec.content_not_text m → Orbit.extract_item repr m = [].
Proof.
  intros (fields & v & -> & Hv & Hnot). simpl. rewrite Hv.
  destruct v; try reflexivity. exfalso. eapply Hnot. reflexivity.
Qed.

(** The three loaders on a chat export, up to the text that the messages
    give. *)
Lemma loaders_on_export path raw data messages :
  Py.endswith (Text.lower path) ".json" = true →
  Orbit.has_json_suffix suffix path = true →
  fs path = Py.Ok raw → json_loads raw = Py.Ok data →
  Spec.export_of data messages →
  V1.load_text_from_file fs json_loads repr path
    = Py.try_except (V1.joined repr messages) Py.is_Exception (Py.Ok "") ∧
  Orbit.load_text fs json_loads repr suffix path
    = Orbit.joined repr (Py.JArr messages) ∧
  V3.load_text fs json_loads repr path
    = Py.try_except (V3.joined repr (Py.JArr messages)) (λ _, true) (Py.Ok "").
Proof.
  intros Hjson Hsuffix Hfs Hloads Hdata.
  unfold V1.load_text_from_file, V1.load_body, Orbit.load_text,
    V3.load_text, V3.load_body.
  rewrite Hjson, Hsuffix, Hfs. simpl. rewrite Hloads.
  destruct Hdata as [->|(members & -> & Hm)]; [|rewrite Hm]; auto.
Qed.
End ChatExports.

(** X13: on a chat export whose messages all have a text (objects with a
    string under ["content"], or values that are no objects) the three
    loaders agree: each returns the texts of the messages joined by line
    breaks, both for a top-level list and for a list under ["messages"].
    The file is one that each loader takes for JSON: its path in lower
    case ends in [.json], which the first and the third version test, and
    its [path.suffix] in lower case is [.json], which
    [scripts/account_summarizer.py] tests (a file named [.json] passes the
    first test only). *)
Theorem X13_loaders_agree_on_chat_exports
    (fs : string → Py.result string) (json_loads : string → Py.result Py.json)
    (repr : Py.json → string) (suffix : string → string)
    (path raw : string) (data : Py.json)
    (messages : list Py.json) (contents : list string) :
  Py.endswith (Text.lower path) ".json" = true →
  Orbit.has_json_suffix suffix path = true →
  fs path = Py.Ok raw → json_loads raw = Py.Ok data →
  Spec.export_of data messages →
  Forall2 (Spec.message_text repr) messages contents →
  let text := Py.join (String "010"%char EmptyString) contents in
  V1.load_text_from_file fs json_loads repr path = Py.Ok text ∧
  Orbit.load_text fs json_loads repr suffix path = Py.Ok text ∧
  V3.load_text fs json_loads repr path = Py.Ok text.
Proof.
  intros Hjson Hsuffix Hfs Hloads Hdata Htexts text.
  destruct (loaders_on_export fs json_loads repr suffix path raw data messages
              Hjson Hsuffix Hfs Hloads Hdata) as (-> & -> & ->).
  rewrite (V1_joined_texts repr messages contents Htexts),
    (V3_joined_texts repr messages contents Htexts),
    (Orbit_joined_texts repr messages contents Htexts).
  auto.
Qed.

Lemma X13_loaders_witness :
  let fs := λ _ : string, Py.Ok "raw" in
  let data :=
    Py.JObj [("messages",
              Py.JArr [Py.JObj [("role", Py.JStr "user"); ("content", Py.JStr "hello")];
                       Py.JStr "and more"])] in
  let json_loads := λ _ : string, Py.Ok data in
  let repr := λ _ : Py.json, "?" in
  let suffix := λ _ : string, ".JSON" in
  let text := String "h" (String "e" (String "l" (String "l" (String "o"
                (String "010"%char "and more"))))) in
  V1.load_text_from_file fs json_loads repr "chat.JSON" = Py.Ok text ∧
  Orbit.load_text fs json_loads repr suffix "chat.JSON" = Py.Ok text ∧
  V3.load_text fs json_loads repr "chat.JSON" = Py.Ok text.
Proof.
  intros fs data json_loads repr suffix text.
  apply (X13_loaders_agree_on_chat_exports fs json_loads repr suffix "chat.JSON" "raw"
           data
           [Py.JObj [("role", Py.JStr "user"); ("content", Py.JStr "hello")];
            Py.JStr "and more"]
           ["hello"; "and more"]).
  - reflexivity.
  - reflexivity.
  - reflexivity.
  - reflexivity.
  - right. eexists. split; reflexivity.
  - repeat constructor.
Defined.

(** X14: a single message whose ["content"] is there but is no string
    (a number, [null], a list) costs the first and the third version the
    whole file, which they load as the empty string, while
    [scripts/account_summarizer.py] leaves out that message only and
    returns the text of the others.  The file is one that each loader
    takes for JSON: its path in lower case ends in [.json] and its
    [path.suffix] in lower case is [.json]. *)
Theorem X14_content_that_is_no_string
    (fs : string → Py.result string) (json_loads : string → Py.result Py.json)
    (repr : Py.json → string) (suffix : string → string)
    (path raw : string) (data : Py.json)
    (before after : list Py.json) (m : Py.json) (contents : list string) :
  Py.endswith (Text.lower path) ".json" = true →
  Orbit.has_json_suffix suffix path = true →
  fs path = Py.Ok raw → json_loads raw = Py.Ok data →
  Spec.export_of data (before ++ m :: after) →
  Spec.content_not_text m →
  Forall2 (Spec.message_text repr) (before ++ after) contents →
  V1.load_text_from_file fs json_loads repr path = Py.Ok "" ∧
  V3.load_text fs json_loads repr path = Py.Ok "" ∧
  Orbit.load_text fs json_loads repr suffix path
    = Py.Ok (Py.join (String "010"%char EmptyString) contents).
Proof.
  intros Hjson Hsuffix Hfs Hloads Hdata Hm Htexts.
  destruct (loaders_on_export fs json_loads repr suffix path raw data
              (before ++ m :: after) Hjson Hsuffix Hfs Hloads Hdata) as (-> & -> & ->).
  assert (Hin : m ∈ before ++ m :: after) by (apply elem_of_app; right; left).
  destruct (V1_joined_fails repr _ m Hin Hm) as [e1 ->].
  destruct (V3_joined_fails repr _ m Hin Hm) as [e3 ->].
  split; [reflexivity|]. split; [reflexivity|].
  rewrite <- (Orbit_joined_texts repr (before ++ after) contents Htexts).
  unfold Orbit.joined, Orbit._extract_message_content. simpl.
  rewrite !fmap_app, fmap_cons, !concat_app. cbn [concat].
  rewrite (Orbit_extract_item_skips repr m Hm). reflexivity.
Qed.

Lemma X14_content_witness :
  let fs := λ _ : string, Py.Ok "raw" in
  let data :=
    Py.JArr [Py.JObj [("content", Py.JStr "kept")];
             Py.JObj [("content", Py.JNull)];
             Py.JObj [("content", Py.JStr "kept too")]] in
  let json_loads := λ _ : string, Py.Ok data in
  let repr := λ _ : Py.json, "?" in
  let suffix := λ _ : string, ".json" in
  V1.load_text_from_file fs json_loads repr "chat.json" = Py.Ok "" ∧
  V3.load_text fs json_loads repr "chat.json" = Py.Ok "" ∧
  Orbit.load_text fs json_loads repr suffix "chat.json"
    = Py.Ok (String "k" (String "e" (String "p" (String "t"
               (String "010"%char "kept too"))))).
Proof.
  intros fs data json_loads repr suffix.
  apply (X14_content_that_is_no_string fs json_loads repr suffix "chat.json" "raw" data
           [Py.JObj [("content", Py.JStr "kept")]]
           [Py.JObj [("content", Py.JStr "kept too")]]
           (Py.JObj [("content", Py.JNull)])
           ["kept"; "kept too"]).
  - reflexivity.
  - reflexivity.
  - reflexivity.
  - reflexivity.
  - left. reflexivity.
  - exists [("content", Py.JNull)], Py.JNull.
    split; [reflexivity|]. split; [reflexivity|]. intros s. discriminate.
  - repeat constructor.
Defined.

(** X15: [load_text] of [scripts/account_summarizer.py] raises only what
    the read raises, [OSError] apart, and for a path whose [path.suffix]
    in lower case is [.json] what the parse raises, [JSONDecodeError]
    apart; the handling of the parsed messages never raises.  A path with
    another suffix, or with none as that of a file named [.json], gives the
    text as read. *)
Theorem X15_orbit_load_text_failures
    (read_text : string → Py.result string)
    (json_loads : string → Py.result Py.json) (repr : Py.json → string)
    (suffix : string → string) (path : string) :
  (∀ e, Orbit.load_text read_text json_loads repr suffix path = Py.Raise e ↔
        (read_text path = Py.Raise e ∧ Py.is_OSError e = false) ∨
        (∃ data, read_text path = Py.Ok data ∧
                 Text.lower (suffix path) = ".json" ∧
                 json_loads data = Py.Raise e ∧ Py.is_JSONDecodeError e = false)) ∧
  (∀ data, read_text path = Py.Ok data → Text.lower (suffix path) ≠ ".json" →
           Orbit.load_text read_text json_loads repr suffix path = Py.Ok data).
Proof.
  assert (Hjoined : ∀ v e, Orbit.is_sequence v = true →
                           Orbit.joined repr v ≠ Py.Raise e).
  { intros v e Hv. unfold Orbit.joined, Orbit._extract_message_content.
    destruct v; try discriminate. }
  assert (Hseq : ∀ v data e,
            (if Orbit.is_sequence v then Orbit.joined repr v else Py.Ok data)
            ≠ Py.Raise e).
  { intros v data e. destruct (Orbit.is_sequence v) eqn:Hv; [auto | discriminate]. }
  split.
  - intros e. unfold Orbit.load_text.
    destruct (read_text path) as [data|e0] eqn:Hread.
    + unfold Orbit.has_json_suffix.
      destruct (String.eqb_spec (Text.lower (suffix path)) ".json") as [Hsuffix|Hsuffix];
        simpl.
      * destruct (json_loads data) as [parsed|e1] eqn:Hloads.
        -- split.
           ++ intros H. exfalso.
              destruct parsed as [| | | | |members]; try (revert H; apply Hseq).
              destruct (Py.assoc "messages" members) as [messages|];
                [|revert H; apply Hseq].
              destruct (Orbit.is_sequence messages) eqn:Hm;
                [revert H; apply Hjoined, Hm | revert H; apply Hseq].
           ++ intros [[H _]|(d & [= <-] & _ & H & _)]; congruence.
        -- destruct (Py.is_JSONDecodeError e1) eqn:He1.
           ++ split; [discriminate|].
              intros [[H _]|(d & [= <-] & _ & H & He)]; [discriminate|].
              rewrite Hloads in H. injection H as <-. congruence.
           ++ split.
              ** intros [= <-]. right. exists data. auto.
              ** intros [[H _]|(d & [= <-] & _ & H & He)]; [discriminate|].
                 rewrite Hloads in H. injection H as <-. reflexivity.
      * split; [discriminate|].
        intros [[H _]|(d & _ & H & _)]; [discriminate | contradiction].
    + destruct (Py.is_OSError e0) eqn:He0.
      * split; [discriminate|].
        intros [[[= <-] He]|(d & H & _)]; [congruence | discriminate].
      * split.
        -- intros [= <-]. left. auto.
        -- intros [[[= <-] He]|(d & H & _)]; [reflexivity | discriminate].
  - intros data Hread Hsuffix. unfold Orbit.load_text, Orbit.has_json_suffix.
    rewrite Hread. apply String.eqb_neq in Hsuffix. rewrite Hsuffix. reflexivity.
Qed.

(** ** The orbits of [scripts/account_summarizer.py] *)

Section Orbits.
Variable keyword_map : list (string * list string).
Variable shared_label : string.

Abbreviation targets := (Orbit.target_orbits keyword_map shared_label).

Lemma matches_spec lower keywords :
  Orbit.matches lower keywords = true ↔
  ∃ kw, kw ∈ keywords ∧ Spec.occurs_in kw lower.
Proof.
  unfold Orbit.matches. rewrite existsb_exists. split.
  - intros (kw & Hin%list_elem_of_In & Hc%contains_spec). eauto.
  - intros (kw & Hin & Hc). exists kw. split; [apply list_elem_of_In, Hin|].
    apply contains_spec, Hc.
Qed.

(** An orbit of the keyword map is hit by a sentence. *)
Abbreviation hit orbit sentence :=
  (∃ kws kw, (orbit, kws) ∈ keyword_map ∧ kw ∈ kws ∧
             Spec.occurs_in (Text.lower kw) (Text.lower sentence)).

Lemma matched_spec sentence orbit :
  orbit ∈ (filter (λ entry, Orbit.matches (Text.lower sentence)
                              (Text.lower <$> entry.2) = true) keyword_map).*1
  ↔ hit orbit sentence.
Proof.
  rewrite list_elem_of_fmap. split.
  - intros ([o kws] & -> & [Hm Hin]%list_elem_of_filter). simpl in *.
    apply matches_spec in Hm as (kw & (kw0 & -> & Hkw)%list_elem_of_fmap & Hc). eauto.
  - intros (kws & kw & Hin & Hkw & Hc). exists (orbit, kws). split; [reflexivity|].
    apply list_elem_of_filter. split; [|exact Hin]. simpl.
    apply matches_spec. exists (Text.lower kw). split; [|exact Hc].
    apply list_elem_of_fmap. eauto.
Qed.

Lemma target_orbits_spec sentence orbit :
  orbit ∈ targets sentence ↔
  hit orbit sentence ∨ (orbit = shared_label ∧ ¬ ∃ o, hit o sentence).
Proof.
  unfold Orbit.target_orbits.
  pose proof (matched_spec sentence) as Hm. cbn zeta.
  destruct (_ <$> filter _ keyword_map) as [|o matched] eqn:Heq.
  - rewrite list_elem_of_singleton. split.
    + intros ->. right. split; [reflexivity|]. intros (o & Ho).
      apply Hm in Ho. inversion Ho.
    + intros [H|[-> _]]; [apply Hm in H; inversion H | reflexivity].
  - rewrite Hm. split; [auto|]. intros [H|[_ Hnone]]; [exact H|].
    exfalso. apply Hnone. exists o. apply Hm. left.
Qed.

Lemma NoDup_fmap_fst_filter {B C} (P : B * C → Prop) `{∀ x, Decision (P x)}
    (l : list (B * C)) :
  NoDup l.*1 → NoDup (filter P l).*1.
Proof.
  induction l as [|[k v] l IH]; intros Hnd; [apply NoDup_nil_2|].
  rewrite fmap_cons in Hnd. apply NoDup_cons in Hnd as [Hk Hnd].
  rewrite filter_cons. destruct (decide (P (k, v))); [|auto].
  rewrite fmap_cons. apply NoDup_cons. split; [|auto].
  intros ([k' v'] & Hk' & [_ Hin]%list_elem_of_filter)%list_elem_of_fmap.
  simpl in Hk'. subst k'. apply Hk. apply list_elem_of_fmap. exists (k, v'). auto.
Qed.

Lemma target_orbits_NoDup sentence :
  NoDup keyword_map.*1 → NoDup (targets sentence).
Proof.
  intros Hnd. unfold Orbit.target_orbits. cbn zeta.
  pose proof (NoDup_fmap_fst_filter
                (λ entry, Orbit.matches (Text.lower sentence)
                            (Text.lower <$> entry.2) = true) keyword_map Hnd) as H.
  destruct (_ <$> filter _ keyword_map); [apply NoDup_singleton | exact H].
Qed.

Lemma assoc_bucket_append buckets orbit sentence k :
  Py.assoc k (Orbit.bucket_append buckets orbit sentence)
  = if decide (k = orbit) then Some (default [] (Py.assoc k buckets) ++ [sentence])
    else Py.assoc k buckets.
Proof.
  induction buckets as [|[k' l] buckets IH]; simpl.
  - destruct (decide (k = orbit)) as [->|Hne].
    + rewrite String.eqb_refl. reflexivity.
    + rewrite (proj2 (String.eqb_neq k orbit) Hne). reflexivity.
  - destruct (String.eqb k' orbit) eqn:Hk'.
    + apply String.eqb_eq in Hk' as ->. simpl.
      destruct (String.eqb k orbit) eqn:Hk.
      * apply String.eqb_eq in Hk as ->. rewrite decide_True by reflexivity. reflexivity.
      * apply String.eqb_neq in Hk. rewrite decide_False by exact Hk. reflexivity.
    + simpl. destruct (String.eqb k k') eqn:Hk.
      * apply String.eqb_eq in Hk as ->. apply String.eqb_neq in Hk'.
        rewrite decide_False by exact Hk'. reflexivity.
      * exact IH.
Qed.

Lemma keys_bucket_append buckets orbit sentence :
  (Orbit.bucket_append buckets orbit sentence).*1
  = if bool_decide (orbit ∈ buckets.*1) then buckets.*1 else buckets.*1 ++ [orbit].
Proof.
  induction buckets as [|[k l] buckets IH].
  - case_bool_decide as H; [inversion H | reflexivity].
  - cbn [Orbit.bucket_append]. destruct (String.eqb k orbit) eqn:Hk.
    + apply String.eqb_eq in Hk as ->. rewrite !fmap_cons.
      rewrite bool_decide_eq_true_2 by left. reflexivity.
    + apply String.eqb_neq in Hk. rewrite !fmap_cons, IH. cbn [fst].
      case_bool_decide as Hin.
      * rewrite bool_decide_eq_true_2 by (right; exact Hin). reflexivity.
      * rewrite bool_decide_eq_false_2; [reflexivity|].
        intros [?|?]%elem_of_cons; [congruence | contradiction].
Qed.

Abbreviation orbit_fold sentence :=
  (foldl (λ buckets orbit, Orbit.bucket_append buckets orbit sentence)).

Lemma orbit_fold_assoc sentence k orbits : ∀ buckets,
  NoDup orbits →
  Py.assoc k (orbit_fold sentence buckets orbits)
  = if decide (k ∈ orbits) then Some (default [] (Py.assoc k buckets) ++ [sentence])
    else Py.assoc k buckets.
Proof.
  induction orbits as [|o orbits IH]; intros buckets Hnd.
  - destruct (decide (k ∈ [])) as [H|_]; [inversion H | reflexivity].
  - cbn [foldl]. apply NoDup_cons in Hnd as [Ho Hnd]. rewrite IH by exact Hnd.
    rewrite assoc_bucket_append.
    destruct (decide (k = o)) as [->|Hne].
    + rewrite decide_False by exact Ho. rewrite decide_True by left. reflexivity.
    + destruct (decide (k ∈ orbits)) as [Hin|Hnotin].
      * rewrite decide_True by (right; exact Hin). reflexivity.
      * rewrite decide_False; [reflexivity|].
        intros [?|?]%elem_of_cons; contradiction.
Qed.

Lemma orbit_fold_keys sentence orbits : ∀ buckets,
  NoDup buckets.*1 →
  NoDup (orbit_fold sentence buckets orbits).*1 ∧
  ∀ k, k ∈ (orbit_fold sentence buckets orbits).*1 → k ∈ buckets.*1 ∨ k ∈ orbits.
Proof.
  induction orbits as [|o orbits IH]; intros buckets Hnd; simpl; [auto|].
  assert (Hnd' : NoDup (Orbit.bucket_append buckets o sentence).*1).
  { rewrite keys_bucket_append. case_bool_decide as Hin; [exact Hnd|].
    apply NoDup_app. split; [exact Hnd|]. split; [|apply NoDup_singleton].
    intros x Hx ->%list_elem_of_singleton. contradiction. }
  destruct (IH _ Hnd') as [H1 H2]. split; [exact H1|].
  intros k [Hk|Hk]%H2; [|right; right; exact Hk].
  rewrite keys_bucket_append in Hk. case_bool_decide; [left; exact Hk|].
  apply elem_of_app in Hk as [Hk| ->%list_elem_of_singleton]; [left; exact Hk | right; left].
Qed.

Lemma assign_orbits_from sentences orbit : NoDup keyword_map.*1 → ∀ buckets,
  NoDup buckets.*1 →
  let out :=
    foldl (λ buckets sentence, orbit_fold sentence buckets (targets sentence))
          buckets sentences in
  default [] (Py.assoc orbit out)
    = default [] (Py.assoc orbit buckets)
      ++ filter (λ s, orbit ∈ targets s) sentences ∧
  NoDup out.*1 ∧
  (∀ k, k ∈ out.*1 → k ∈ buckets.*1 ∨ k ∈ keyword_map.*1 ∨ k = shared_label).
Proof.
  intros Hkm. induction sentences as [|s sentences IH]; intros buckets Hnd; cbn zeta.
  - simpl. rewrite app_nil_r. auto.
  - simpl foldl.
    destruct (orbit_fold_keys s (targets s) buckets Hnd) as [Hnd' Hkeys].
    destruct (IH _ Hnd') as (H1 & H2 & H3). cbn zeta in H1, H3.
    split; [|split; [exact H2|]].
    + rewrite H1, orbit_fold_assoc by apply target_orbits_NoDup, Hkm.
      rewrite filter_cons. destruct (decide (orbit ∈ targets s)); [|reflexivity].
      simpl. rewrite <- app_assoc. reflexivity.
    + intros k [Hk|Hk]%H3; [|auto].
      apply Hkeys in Hk as [Hk|Hk]; [auto|]. right.
      apply target_orbits_spec in Hk as [(kws & kw & Hin & _)|[-> _]]; [left | right; reflexivity].
      apply list_elem_of_fmap. exists (k, kws). auto.
Qed.

Lemma assign_orbits_spec sentences orbit :
  NoDup keyword_map.*1 →
  let buckets := Orbit.assign_orbits sentences keyword_map shared_label in
  default [] (Py.assoc orbit buckets) = filter (λ s, orbit ∈ targets s) sentences ∧
  NoDup buckets.*1 ∧
  (∀ k, k ∈ buckets.*1 → k ∈ keyword_map.*1 ∨ k = shared_label).
Proof.
  intros Hkm. destruct (assign_orbits_from sentences orbit Hkm [] (NoDup_nil_2))
    as (H1 & H2 & H3). cbn zeta in *. split; [exact H1|]. split; [exact H2|].
  intros k [Hk|Hk]%H3; [inversion Hk | exact Hk].
Qed.

Lemma ordered_orbits_spec (orbit_buckets : list (string * list string)) :
  (∀ k, k ∈ orbit_buckets.*1 → k ∈ keyword_map.*1 ∨ k = shared_label) →
  Orbit.ordered_orbits keyword_map shared_label orbit_buckets
  = keyword_map.*1 ++ (if bool_decide (shared_label ∈ keyword_map.*1) then []
                       else [shared_label]).
Proof.
  intros Hkeys. unfold Orbit.ordered_orbits. cbn zeta.
  assert (Hstay : ∀ (l init : list string), (∀ x, x ∈ l → x ∈ init) →
            foldl (λ ordered orbit,
                     if bool_decide (orbit ∈ ordered) then ordered
                     else ordered ++ [orbit]) init l = init).
  { induction l as [|x l IH]; intros init Hin; [reflexivity|]. simpl.
    rewrite bool_decide_eq_true_2 by (apply Hin; left).
    apply IH. intros y Hy. apply Hin. right. exact Hy. }
  rewrite Hstay.
  - case_bool_decide; [rewrite app_nil_r|]; reflexivity.
  - intros x [Hx Hin]%list_elem_of_filter.
    destruct (Hkeys x Hin) as [?| ->]; [contradiction|].
    rewrite bool_decide_eq_false_2 by exact Hx. apply elem_of_app. right. left.
Qed.
End Orbits.

(** X16: [assign_orbits] sends a sentence to every orbit of the keyword
    map of which a keyword, lowered, occurs in the lowered sentence, and to
    the shared orbit alone when there is none.  The bucket of an orbit then
    holds exactly the sentences sent to it, in their order, and the only
    buckets are those of the keyword map and the shared one. *)
Theorem X16_assign_orbits_buckets
    (keyword_map : list (string * list string)) (shared_label : string)
    (sentences : list string) (orbit : string) :
  NoDup keyword_map.*1 →
  let buckets := Orbit.assign_orbits sentences keyword_map shared_label in
  let hit o s :=
    ∃ kws kw, (o, kws) ∈ keyword_map ∧ kw ∈ kws ∧
              Spec.occurs_in (Text.lower kw) (Text.lower s) in
  let sent_to o s := hit o s ∨ (o = shared_label ∧ ¬ ∃ o', hit o' s) in
  (∀ s, s ∈ default [] (Py.assoc orbit buckets) ↔ s ∈ sentences ∧ sent_to orbit s) ∧
  default [] (Py.assoc orbit buckets)
    = filter (λ s, orbit ∈ Orbit.target_orbits keyword_map shared_label s) sentences ∧
  NoDup buckets.*1 ∧
  (∀ o, o ∈ buckets.*1 → o ∈ keyword_map.*1 ∨ o = shared_label).
Proof.
  intros Hkm buckets hit sent_to.
  destruct (assign_orbits_spec keyword_map shared_label sentences orbit Hkm)
    as (H1 & H2 & H3). cbn zeta in *. fold buckets in H1, H2, H3.
  split; [|auto]. intros s. rewrite H1, list_elem_of_filter, target_orbits_spec.
  unfold sent_to, hit. tauto.
Qed.

Lemma X16_assign_orbits_witness :
  let keyword_map := [("Code", ["API"; "kernel"]); ("Money", ["invoice"])] in
  let sentences := ["The kernel api sends the invoice."; "Nothing of note here."] in
  let buckets := Orbit.assign_orbits sentences keyword_map "Shared" in
  default [] (Py.assoc "Money" buckets) = ["The kernel api sends the invoice."] ∧
  default [] (Py.assoc "Shared" buckets) = ["Nothing of note here."] ∧
  buckets.*1 = ["Code"; "Money"; "Shared"].
Proof.
  intros keyword_map sentences buckets.
  assert (Hkm : NoDup keyword_map.*1) by (apply (bool_decide_unpack _); vm_compute; exact I).
  destruct (X16_assign_orbits_buckets keyword_map "Shared" sentences "Money" Hkm)
    as (_ & H1 & _).
  destruct (X16_assign_orbits_buckets keyword_map "Shared" sentences "Shared" Hkm)
    as (_ & H2 & _).
  cbn zeta in H1, H2. fold buckets in H1, H2.
  split; [rewrite H1; vm_compute; reflexivity|].
  split; [rewrite H2; vm_compute; reflexivity|].
  vm_compute. reflexivity.
Defined.

(** X17: the summary of [build_summary] lists the orbits of the keyword
    map in its order, followed by the shared orbit if the map does not name
    it, and no other; the hits of an orbit are the number of sentences sent
    to it, and its top sentences are some of these, each with a token, at
    most [top_k] for a [top_k] that is not negative. *)
Theorem X17_build_summary_orbits
    (texts : list string) (keyword_map : list (string * list string))
    (shared_label : string) (top_k : Z) :
  NoDup keyword_map.*1 →
  let summary := Orbit.build_summary texts keyword_map shared_label top_k in
  let sentences := concat (Orbit.split_sentences <$> texts) in
  let orbits :=
    keyword_map.*1 ++ (if bool_decide (shared_label ∈ keyword_map.*1) then []
                       else [shared_label]) in
  let sent_to orbit :=
    filter (λ s, orbit ∈ Orbit.target_orbits keyword_map shared_label s) sentences in
  (Orbit.keyword_hits summary).*1 = orbits ∧
  (Orbit.top_sentences_of summary).*1 = orbits ∧
  (∀ orbit n, (orbit, n) ∈ Orbit.keyword_hits summary → n = length (sent_to orbit)) ∧
  (∀ orbit tops, (orbit, tops) ∈ Orbit.top_sentences_of summary →
     (∀ s, s ∈ tops → s ∈ sent_to orbit ∧ Orbit.tokenize s ≠ []) ∧
     ((0 ≤ top_k)%Z → length tops ≤ Z.to_nat top_k)).
Proof.
  intros Hkm summary sentences orbits sent_to.
  pose proof (λ orbit, assign_orbits_spec keyword_map shared_label sentences orbit Hkm)
    as Hassign. cbn zeta in Hassign.
  assert (Hordered : Orbit.ordered_orbits keyword_map shared_label
                       (Orbit.assign_orbits sentences keyword_map shared_label)
                     = orbits).
  { apply ordered_orbits_spec. apply (Hassign ""). }
  unfold summary, Orbit.build_summary. fold sentences. rewrite Hordered. simpl.
  split; [|split; [|split]].
  - rewrite <- list_fmap_compose. apply list_fmap_id.
  - rewrite <- list_fmap_compose. apply list_fmap_id.
  - intros orbit n (o & [= -> ->] & _)%list_elem_of_fmap.
    rewrite (proj1 (Hassign o)). reflexivity.
  - intros orbit tops (o & [= -> ->] & _)%list_elem_of_fmap.
    rewrite (proj1 (Hassign o)). fold (sent_to o).
    destruct (Orbit_top_sentences_spec (sent_to o) top_k) as [[k Hk] Hlen].
    split; [|exact Hlen]. intros s Hs.
    assert (Hin : s ∈ (Orbit.rank_sentences (sent_to o)).*1)
      by (rewrite Hk; apply elem_of_app; left; exact Hs).
    rewrite Orbit_rank_sentences_sentences in Hin.
    apply list_elem_of_filter in Hin. tauto.
Qed.

Lemma X17_build_summary_witness :
  let keyword_map := [("Code", ["API"; "kernel"]); ("Money", ["invoice"])] in
  let texts := ["The kernel api sends the invoice. Nothing of note here."] in
  let summary := Orbit.build_summary texts keyword_map "Shared" 3 in
  (Orbit.keyword_hits summary).*1 = ["Code"; "Money"; "Shared"] ∧
  (Orbit.top_sentences_of summary).*1 = ["Code"; "Money"; "Shared"].
Proof.
  intros keyword_map texts summary.
  assert (Hkm : NoDup keyword_map.*1) by (apply (bool_decide_unpack _); vm_compute; exact I).
  destruct (X17_build_summary_orbits texts keyword_map "Shared" 3 Hkm)
    as (H1 & H2 & _).
  split; [exact H1 | exact H2].
Defined.

(** ** The suggested keywords of the third version *)

Section MostCommon.
Implicit Types (items : list (string * nat)) (k w : string).

Lemma counter_add_keys items k :
  (Py.counter_add items k).*1
  = if bool_decide (k ∈ items.*1) then items.*1 else items.*1 ++ [k].
Proof.
  induction items as [|[k' n] items IH].
  - case_bool_decide as H; [inversion H | reflexivity].
  - cbn [Py.counter_add]. destruct (String.eqb k' k) eqn:Hk.
    + apply String.eqb_eq in Hk as ->. rewrite !fmap_cons.
      rewrite bool_decide_eq_true_2 by left. reflexivity.
    + apply String.eqb_neq in Hk. rewrite !fmap_cons, IH. cbn [fst].
      case_bool_decide as Hin.
      * rewrite bool_decide_eq_true_2 by (right; exact Hin). reflexivity.
      * rewrite bool_decide_eq_false_2; [reflexivity|].
        intros [?|?]%elem_of_cons; [congruence | contradiction].
Qed.

Lemma assoc_counter_add items k w :
  Py.assoc w (Py.counter_add items k)
  = if decide (w = k) then Some (S (default 0 (Py.assoc k items)))
    else Py.assoc w items.
Proof.
  induction items as [|[k' n] items IH].
  - simpl. destruct (decide (w = k)) as [->|Hne].
    + rewrite String.eqb_refl. reflexivity.
    + rewrite (proj2 (String.eqb_neq w k) Hne). reflexivity.
  - cbn [Py.counter_add Py.assoc]. destruct (String.eqb k' k) eqn:Hk.
    + apply String.eqb_eq in Hk as ->. rewrite String.eqb_refl.
      cbn [Py.assoc]. destruct (String.eqb w k) eqn:Hw.
      * apply String.eqb_eq in Hw as ->. rewrite decide_True by reflexivity. reflexivity.
      * apply String.eqb_neq in Hw. rewrite decide_False by exact Hw. reflexivity.
    + apply String.eqb_neq in Hk.
      rewrite (proj2 (String.eqb_neq k k')) by congruence.
      cbn [Py.assoc]. destruct (String.eqb w k') eqn:Hw.
      * apply String.eqb_eq in Hw as ->. rewrite decide_False by exact Hk. reflexivity.
      * exact IH.
Qed.

Lemma assoc_elem_of {B} (l : list (string * B)) w (v : B) :
  NoDup l.*1 → ((w, v) ∈ l ↔ Py.assoc w l = Some v).
Proof.
  induction l as [|[k' v'] l IH]; intros Hnd.
  - simpl. split; [intros H; inversion H | discriminate].
  - rewrite fmap_cons in Hnd. apply NoDup_cons in Hnd as [Hk Hnd].
    cbn [Py.assoc]. rewrite elem_of_cons, (IH Hnd).
    destruct (String.eqb w k') eqn:Hw.
    + apply String.eqb_eq in Hw as ->. split.
      * intros [[= ->]|H]; [reflexivity|]. exfalso. apply Hk.
        apply IH in H; [|exact Hnd]. apply list_elem_of_fmap. exists (k', v). auto.
      * intros [= ->]. left. reflexivity.
    + apply String.eqb_neq in Hw. split; [intros [[= -> _]|H]; [contradiction | exact H] | auto].
Qed.

Lemma term_count_app t l1 l2 :
  Spec.term_count t (l1 ++ l2) = Spec.term_count t l1 + Spec.term_count t l2.
Proof. unfold Spec.term_count. rewrite filter_app, length_app. reflexivity. Qed.

(** The items of a counter: every distinct string once, with the number
    of its occurrences. *)
Lemma counter_items_spec (l : list string) :
  NoDup (Py.counter_items l).*1 ∧
  ∀ w, Py.assoc w (Py.counter_items l)
       = if decide (w ∈ l) then Some (Spec.term_count w l) else None.
Proof.
  unfold Py.counter_items. induction l as [|k l [IH1 IH2]] using rev_ind.
  - split; [apply NoDup_nil_2|]. intros w.
    destruct (decide (w ∈ [])) as [H|_]; [inversion H | reflexivity].
  - rewrite foldl_app. cbn [foldl]. split.
    + rewrite counter_add_keys. case_bool_decide as Hin; [exact IH1|].
      apply NoDup_app. split; [exact IH1|]. split; [|apply NoDup_singleton].
      intros x Hx ->%list_elem_of_singleton. contradiction.
    + intros w. rewrite assoc_counter_add, term_count_app.
      destruct (decide (w = k)) as [->|Hne].
      * rewrite decide_True by (apply elem_of_app; right; left).
        rewrite IH2. f_equal.
        assert (Spec.term_count k [k] = 1) as ->
          by (unfold Spec.term_count; rewrite filter_cons, decide_True by reflexivity;
              reflexivity).
        destruct (decide (k ∈ l)) as [Hin|Hnotin]; simpl; [lia|].
        destruct (Nat.eq_dec (Spec.term_count k l) 0) as [->|Hpos]; [reflexivity|].
        exfalso. apply Hnotin, term_count_pos. lia.
      * rewrite IH2.
        assert (Spec.term_count w [k] = 0) as ->
          by (unfold Spec.term_count; rewrite filter_cons, decide_False by congruence;
              reflexivity).
        rewrite Nat.add_0_r.
        destruct (decide (w ∈ l)) as [Hin|Hnotin].
        -- rewrite decide_True by (apply elem_of_app; left; exact Hin). reflexivity.
        -- rewrite decide_False; [reflexivity|].
           intros [?| ?%list_elem_of_singleton]%elem_of_app; contradiction.
Qed.

Lemma elem_of_counter_items (l : list string) w n :
  (w, n) ∈ Py.counter_items l ↔ w ∈ l ∧ n = Spec.term_count w l.
Proof.
  destruct (counter_items_spec l) as [Hnd Hassoc].
  rewrite (assoc_elem_of _ w n Hnd), Hassoc.
  destruct (decide (w ∈ l)); split; try tauto; try discriminate.
  - intros [= <-]. auto.
  - intros [_ ->]. reflexivity.
Qed.

Abbreviation by_count := (λ x y : string * nat, y.2 ≤ x.2).

Lemma insert_by_count_perm x items : Py.insert_by_count x items ≡ₚ x :: items.
Proof.
  induction items as [|y items IH]; simpl; [reflexivity|].
  case_bool_decide; [reflexivity|].
  rewrite IH. apply Permutation_swap.
Qed.

Lemma insert_by_count_sorted x items :
  StronglySorted by_count items → StronglySorted by_count (Py.insert_by_count x items).
Proof.
  induction 1 as [|y items Hl IH Hy]; simpl.
  - repeat constructor.
  - case_bool_decide as Hlt.
    + constructor; [constructor; assumption|].
      constructor; [simpl; lia|].
      eapply Forall_impl; [exact Hy|]. intros z Hz. simpl in *. lia.
    + constructor; [exact IH|].
      rewrite insert_by_count_perm. constructor; [simpl; lia | exact Hy].
Qed.

Lemma most_common_sorted items : ∀ acc,
  StronglySorted by_count acc →
  foldl (λ sorted x, Py.insert_by_count x sorted) acc items ≡ₚ acc ++ items ∧
  StronglySorted by_count (foldl (λ sorted x, Py.insert_by_count x sorted) acc items).
Proof.
  induction items as [|x items IH]; intros acc Hacc; simpl.
  - rewrite app_nil_r. auto.
  - destruct (IH _ (insert_by_count_sorted x acc Hacc)) as [Hp Hs].
    split; [|exact Hs]. rewrite Hp, insert_by_count_perm. apply Permutation_middle.
Qed.

(** [most_common(n)]: at most [n] of the items, none of them with a
    smaller count than an item that is left out; all of them when fewer
    than [n] are returned. *)
Lemma most_common_spec n items :
  length (Py.most_common n items) ≤ n ∧
  (∀ x, x ∈ Py.most_common n items → x ∈ items) ∧
  (NoDup items.*1 → NoDup (Py.most_common n items).*1) ∧
  (∀ x y, x ∈ Py.most_common n items → y ∈ items →
          y ∉ Py.most_common n items → y.2 ≤ x.2) ∧
  (length (Py.most_common n items) < n →
   ∀ x, x ∈ items → x ∈ Py.most_common n items).
Proof.
  unfold Py.most_common.
  destruct (most_common_sorted items [] (SSorted_nil _)) as [Hp Hs].
  simpl in Hp. set (sorted := foldl _ [] items) in *.
  split; [rewrite length_take; lia|]. split; [|split; [|split]].
  - intros x Hx. rewrite <- Hp, <- (take_drop n sorted).
    apply elem_of_app. left. exact Hx.
  - intros Hnd. rewrite <- Hp in Hnd.
    rewrite <- (take_drop n sorted), fmap_app in Hnd.
    apply NoDup_app in Hnd. tauto.
  - intros x y Hx Hy Hnot. rewrite <- Hp, <- (take_drop n sorted) in Hy.
    apply elem_of_app in Hy as [Hy|Hy]; [contradiction|].
    rewrite <- (take_drop n sorted) in Hs.
    exact (StronglySorted_app_1_elem_of _ _ _ _ _ Hs Hx Hy).
  - intros Hlen x Hx. rewrite length_take in Hlen.
    rewrite take_ge by lia. rewrite Hp. exact Hx.
Qed.
End MostCommon.

(** X18: the keyword suggestions of a theme in [build_report] are at most
    five words, none twice.  Each is a token of a ranked sentence of the
    theme that is not among the lowered keywords the theme already has;
    no such token that is left out occurs more often in the ranked
    sentences than a suggested one, and when fewer than five words are
    suggested every such token is among them. *)
Theorem X18_domain_suggestions_most_common_new_tokens
    (thematic_map : list (string * list string)) (dom : string)
    (ranked : list (string * Qc)) :
  let suggestions := V3.domain_suggestion thematic_map dom ranked in
  let tokens := concat ((λ sp, V3.tokenize sp.1) <$> ranked) in
  let new w :=
    w ∈ tokens ∧ ∀ kw, kw ∈ default [] (Py.assoc dom thematic_map) →
                       w ≠ Text.lower kw in
  length suggestions ≤ 5 ∧ NoDup suggestions ∧
  (∀ w, w ∈ suggestions → new w) ∧
  (∀ w w', w ∈ suggestions → new w' → w' ∉ suggestions →
           Spec.term_count w' tokens ≤ Spec.term_count w tokens) ∧
  (length suggestions < 5 → ∀ w, new w → w ∈ suggestions).
Proof.
  intros suggestions tokens new.
  unfold suggestions, V3.domain_suggestion. cbn zeta. fold tokens.
  set (keywords := Text.lower <$> default [] (Py.assoc dom thematic_map)).
  set (all_tokens := filter (λ t, t ∉ keywords) tokens).
  assert (Hnew : ∀ w, w ∈ all_tokens ↔ new w).
  { intros w. unfold all_tokens, new, keywords.
    rewrite list_elem_of_filter, list_elem_of_fmap. split.
    - intros [Hk Ht]. split; [exact Ht|]. intros kw Hkw ->. apply Hk. eauto.
    - intros [Ht Hk]. split; [|exact Ht]. intros (kw & -> & Hkw). exact (Hk kw Hkw eq_refl). }
  assert (Hcount : ∀ w, w ∈ all_tokens →
            Spec.term_count w all_tokens = Spec.term_count w tokens).
  { intros w [Hw _]%list_elem_of_filter. unfold all_tokens, Spec.term_count.
    clear -Hw. induction tokens as [|t tokens IH]; [reflexivity|].
    rewrite !filter_cons. destruct (decide (t = w)) as [->|Hne].
    - rewrite decide_True by exact Hw. rewrite filter_cons, decide_True by reflexivity.
      simpl. rewrite IH. reflexivity.
    - destruct (decide (t ∉ keywords)); [|exact IH].
      rewrite filter_cons, decide_False by exact Hne. exact IH. }
  destruct (most_common_spec 5 (Py.counter_items all_tokens))
    as (Hlen & Hsub & Hnd & Hmost & Hall).
  destruct (counter_items_spec all_tokens) as [Hkeys _].
  assert (Hsugg : ∀ w, w ∈ (Py.most_common 5 (Py.counter_items all_tokens)).*1 ↔
            (w, Spec.term_count w all_tokens)
              ∈ Py.most_common 5 (Py.counter_items all_tokens) ∧ w ∈ all_tokens).
  { intros w. rewrite list_elem_of_fmap. split.
    - intros ([w' n] & -> & Hin). pose proof (Hsub _ Hin) as Hitem.
      apply elem_of_counter_items in Hitem as [Hw ->]. auto.
    - intros [Hin _]. exists (w, Spec.term_count w all_tokens). auto. }
  split; [rewrite length_fmap; exact Hlen|]. split; [exact (Hnd Hkeys)|].
  split; [|split].
  - intros w Hw. apply Hnew, Hsugg, Hw.
  - intros w w' Hw Hw' Hnot. apply Hsugg in Hw as [Hw Hwin]. apply Hnew in Hw'.
    rewrite <- (Hcount w Hwin), <- (Hcount w' Hw').
    apply (Hmost (w, Spec.term_count w all_tokens) (w', Spec.term_count w' all_tokens)).
    + exact Hw.
    + apply elem_of_counter_items. auto.
    + intros Hin. apply Hnot, Hsugg. auto.
  - intros Hlt w Hw. rewrite length_fmap in Hlt. apply Hnew in Hw.
    apply Hsugg. split; [|exact Hw]. apply Hall; [exact Hlt|].
    apply elem_of_counter_items. auto.
Qed.

(** ** More on the canonical sentences of the third version *)

Section CanonicalDistinct.

Lemma jaccard_same_tokens a b :
  (list_to_set a : gset string) = list_to_set b → V3.jaccard a b = 1%Qc.
Proof.
  intros Heq. rewrite <- (jaccard_self a). unfold V3.jaccard.
  rewrite <- Heq. reflexivity.
Qed.

Lemma deduplicated_distinct threshold canon :
  (threshold < 1)%Qc →
  Spec.deduplicated V3.tokenize threshold canon →
  ∀ i j s s', i ≠ j → canon !! i = Some s → canon !! j = Some s' →
    (list_to_set (V3.tokenize s) : gset string) ≠ list_to_set (V3.tokenize s').
Proof.
  intros Hthr Hdd i j s s' Hij Hi Hj Heq.
  pose proof (Hdd i j s s' Hij Hi Hj) as Hsim. unfold Spec.dissimilar in Hsim.
  rewrite jaccard_same_tokens in Hsim by exact Heq.
  apply Qcle_not_lt in Hsim. contradiction.
Qed.
End CanonicalDistinct.

(** X19: with a threshold below one no two canonical sentences of the
    third version have the same set of tokens; in particular no sentence
    is listed twice, also when it stands in the pools of several
    themes. *)
Theorem X19_canonical_sentences_are_distinct
    (order : list string) (domain_ranked : V3.pools) (target_sentences : Z)
    (dedupe_threshold : Qc) (canon : list string) :
  (dedupe_threshold < 1)%Qc →
  V3.canonical_sentences order domain_ranked target_sentences dedupe_threshold
    = Py.Ok canon →
  NoDup canon ∧
  ∀ i j s s', i ≠ j → canon !! i = Some s → canon !! j = Some s' →
    (list_to_set (V3.tokenize s) : gset string) ≠ list_to_set (V3.tokenize s').
Proof.
  intros Hthr Hcanon.
  destruct (canonical_sentences_ok _ _ _ _ _ Hcanon) as [Htok Hdd].
  pose proof (deduplicated_distinct dedupe_threshold canon Hthr Hdd) as Hdistinct.
  split; [|exact Hdistinct].
  apply NoDup_alt. intros i j s Hi Hj.
  destruct (decide (i = j)) as [|Hne]; [assumption|].
  exfalso. exact (Hdistinct i j s s Hne Hi Hj eq_refl).
Qed.

Lemma X19_canonical_witness :
  ∃ canon,
    V3.canonical_sentences Sample.four_order Sample.four_pools 10
      V3.DEFAULT_DEDUPE_THRESHOLD = Py.Ok canon ∧
    NoDup canon.
Proof.
  destruct (V3.canonical_sentences Sample.four_order Sample.four_pools 10
              V3.DEFAULT_DEDUPE_THRESHOLD) as [canon|e] eqn:Hcanon.
  - exists canon. split; [reflexivity|].
    apply (X19_canonical_sentences_are_distinct Sample.four_order Sample.four_pools 10
             V3.DEFAULT_DEDUPE_THRESHOLD canon); [reflexivity | exact Hcanon].
  - exfalso. vm_compute in Hcanon. discriminate.
Defined.

(** X20: whatever the target and the number of themes, every theme adds
    at most [target // themes] sentences, so the canonical loop itself
    stops at [themes * (target // themes)] sentences, which is no more than
    the target: the closing [canonical[:target_sentences]] cuts nothing
    off, and up to [themes - 1] places of the target stay empty. *)
Theorem X20_quota_makes_the_closing_slice_idle
    (thematic_keys bucket_keys : list string) (domain_ranked : V3.pools)
    (target_sentences : Z) (dedupe_threshold : Qc) :
  let order := V3.domain_order thematic_keys bucket_keys in
  let share := (target_sentences `div` Z.of_nat (length order))%Z in
  NoDup thematic_keys → NoDup bucket_keys → order ≠ [] →
  (0 ≤ target_sentences)%Z →
  ∃ q canon,
    V3.initial_quota order target_sentences = Py.Ok q ∧
    (∀ dom, dom ∈ order → q !! dom = Some share) ∧
    V3.canonical_sentences order domain_ranked target_sentences dedupe_threshold
      = Py.Ok canon ∧
    canon = V3.canonical
              (V3.canonical_loop dedupe_threshold domain_ranked order
                 {| V3.canonical := []; V3.canonical_tokens := []; V3.quota := q |}) ∧
    length canon ≤ length order * Z.to_nat share ∧
    length order * Z.to_nat share ≤ Z.to_nat target_sentences ∧
    Z.to_nat target_sentences < length order * Z.to_nat share + length order.
Proof.
  intros order share Ht Hb Hne Htarget.
  assert (Hnd : NoDup order) by (apply V3_domain_order_NoDup; assumption).
  destruct (equal_quota_shares dedupe_threshold domain_ranked order target_sentences
              Hnd Hne Htarget) as (Hq & Hcanon & _ & Hlen & _).
  cbn zeta in Hq, Hcanon, Hlen. fold share in Hq, Hcanon, Hlen.
  set (q := list_to_map ((λ dom, (dom, share)) <$> order) : gmap string Z) in *.
  simpl in Hq.
  exists q, (concat (V3.contributions dedupe_threshold domain_ranked order
                       {| V3.canonical := []; V3.canonical_tokens := [];
                          V3.quota := q |}).*2).
  split; [exact Hq|]. split; [intros dom Hdom; apply initial_quota_share, Hdom|].
  split; [exact Hcanon|].
  assert (Hn : (0 < Z.of_nat (length order))%Z)
    by (destruct order; [contradiction | simpl; lia]).
  split; [|split; [exact Hlen|split]].
  - destruct (contributions_bound dedupe_threshold domain_ranked share order Hnd
                {| V3.canonical := []; V3.canonical_tokens := []; V3.quota := q |})
      as [Heq _].
    + intros d Hd. unfold V3.quota_of. simpl. unfold q.
      rewrite initial_quota_share by exact Hd. reflexivity.
    + rewrite Heq. reflexivity.
  - unfold share. pose proof (Z.mul_div_le target_sentences _ Hn).
    pose proof (Z.div_pos target_sentences _ Htarget Hn). nia.
  - unfold share.
    pose proof (Z.mod_pos_bound target_sentences _ Hn).
    pose proof (Z.div_mod target_sentences (Z.of_nat (length order)) ltac:(lia)).
    pose proof (Z.div_pos target_sentences _ Htarget Hn). nia.
Qed.

Lemma X20_quota_witness :
  ∃ canon,
    V3.canonical_sentences Sample.four_order Sample.four_pools 10
      V3.DEFAULT_DEDUPE_THRESHOLD = Py.Ok canon ∧
    length canon ≤ 8.
Proof.
  destruct (X20_quota_makes_the_closing_slice_idle Sample.three_themes.*1
              (elements (dom Sample.four_buckets)) Sample.four_pools 10
              V3.DEFAULT_DEDUPE_THRESHOLD)
    as (q & canon & _ & _ & Hcanon & _ & Hlen & _).
  - apply (bool_decide_unpack _). vm_compute. exact I.
  - apply (bool_decide_unpack _). vm_compute. exact I.
  - vm_compute. discriminate.
  - lia.
  - exists canon. split; [exact Hcanon|].
    assert (length (V3.domain_order Sample.three_themes.*1
                      (elements (dom Sample.four_buckets))) = 4) as Hfour
      by (vm_compute; reflexivity).
    rewrite Hfour in Hlen. exact Hlen.
Defined.

(** ** The themes and buckets of the first version *)

Section ThemesV1.

Lemma elem_of_fromkeys l x : x ∈ V1.fromkeys l ↔ x ∈ l.
Proof.
  induction l as [|k l IH]; [reflexivity|]. cbn [V1.fromkeys].
  rewrite !elem_of_cons, list_elem_of_filter, IH.
  destruct (decide (x = k)); tauto.
Qed.

Lemma NoDup_fromkeys l : NoDup (V1.fromkeys l).
Proof.
  induction l as [|k l IH]; [apply NoDup_nil_2|]. cbn [V1.fromkeys].
  apply NoDup_cons. split.
  - intros [Hne _]%list_elem_of_filter. congruence.
  - apply NoDup_filter, IH.
Qed.

Lemma KEYWORD_TO_DOMAIN_spec kw domain :
  (kw, domain) ∈ V1.KEYWORD_TO_DOMAIN ↔
  ∃ kws kw0, (domain, kws) ∈ V1.THEMATIC_MAP ∧ kw0 ∈ kws ∧ kw = Text.lower kw0.
Proof.
  unfold V1.KEYWORD_TO_DOMAIN. rewrite elem_of_flat_map. split.
  - intros ([d kws] & Hin & (kw0 & [= -> ->] & Hkw)%list_elem_of_fmap). eauto.
  - intros (kws & kw0 & Hin & Hkw & ->). exists (domain, kws). split; [exact Hin|].
    apply list_elem_of_fmap. eauto.
Qed.

(** A theme of the thematic map is hit by a sentence. *)
Abbreviation hit domain sentence :=
  (∃ kws kw, (domain, kws) ∈ V1.THEMATIC_MAP ∧ kw ∈ kws ∧
             Spec.occurs_in (Text.lower kw) (Text.lower sentence)).

Lemma sentence_domain_spec sentence domain :
  domain ∈ V1.sentence_domain sentence ↔
  hit domain sentence ∨ (domain = "General" ∧ ¬ ∃ d, hit d sentence).
Proof.
  unfold V1.sentence_domain. cbn zeta.
  set (hits := V1.fromkeys _).
  assert (Hhits : ∀ d, d ∈ hits ↔ hit d sentence).
  { intros d. unfold hits. rewrite elem_of_fromkeys, list_elem_of_fmap. split.
    - intros ([kw d'] & -> & [Hc Hin]%list_elem_of_filter). simpl in *.
      apply KEYWORD_TO_DOMAIN_spec in Hin as (kws & kw0 & Hm & Hk & ->).
      apply contains_spec in Hc. eauto.
    - intros (kws & kw & Hm & Hk & Hc). exists (Text.lower kw, d).
      split; [reflexivity|]. apply list_elem_of_filter. split.
      + simpl. apply contains_spec, Hc.
      + apply KEYWORD_TO_DOMAIN_spec. eauto. }
  clearbody hits. destruct hits as [|d0 hits].
  - rewrite list_elem_of_singleton. split.
    + intros ->. right. split; [reflexivity|]. intros (d & Hd).
      apply Hhits in Hd. inversion Hd.
    + intros [H|[-> _]]; [apply Hhits in H; inversion H | reflexivity].
  - rewrite Hhits. split; [auto|]. intros [H|[_ Hnone]]; [exact H|].
    exfalso. apply Hnone. exists d0. apply Hhits. left.
Qed.

Lemma sentence_domain_NoDup sentence :
  V1.sentence_domain sentence ≠ [] ∧ NoDup (V1.sentence_domain sentence).
Proof.
  unfold V1.sentence_domain. cbn zeta.
  pose proof (NoDup_fromkeys
    (filter (λ kd, Py.contains kd.1 (Text.lower sentence) = true)
            V1.KEYWORD_TO_DOMAIN).*2) as Hnd.
  destruct (V1.fromkeys _); [|split; [discriminate | exact Hnd]].
  split; [discriminate | apply NoDup_singleton].
Qed.

Lemma sentence_domain_in_order sentence domain :
  domain ∈ V1.sentence_domain sentence → domain ∈ V1.domain_order.
Proof.
  intros [(kws & kw & Hm & _)| [-> _]]%sentence_domain_spec;
    unfold V1.domain_order; apply elem_of_fromkeys, elem_of_app.
  - left. apply list_elem_of_fmap. exists (domain, kws). auto.
  - right. left.
Qed.

Lemma V1_domain_buckets_from sentences domain : ∀ buckets,
  NoDup buckets.*1 →
  let out :=
    foldl (λ buckets sentence,
             foldl (λ buckets domain, V1.bucket_append buckets domain sentence)
                   buckets (V1.sentence_domain sentence))
          buckets sentences in
  default [] (Py.assoc domain out)
    = default [] (Py.assoc domain buckets)
      ++ filter (λ s, domain ∈ V1.sentence_domain s) sentences ∧
  NoDup out.*1 ∧
  (∀ k, k ∈ out.*1 → k ∈ buckets.*1 ∨ k ∈ V1.domain_order).
Proof.
  change V1.bucket_append with Orbit.bucket_append.
  induction sentences as [|s sentences IH]; intros buckets Hnd; cbn zeta.
  - simpl. rewrite app_nil_r. auto.
  - simpl foldl.
    destruct (orbit_fold_keys s (V1.sentence_domain s) buckets Hnd) as [Hnd' Hkeys].
    destruct (IH _ Hnd') as (H1 & H2 & H3). cbn zeta in H1, H3.
    split; [|split; [exact H2|]].
    + rewrite H1, orbit_fold_assoc by apply sentence_domain_NoDup.
      rewrite filter_cons. destruct (decide (domain ∈ V1.sentence_domain s)); [|reflexivity].
      simpl. rewrite <- app_assoc. reflexivity.
    + intros k [Hk|Hk]%H3; [|auto].
      apply Hkeys in Hk as [Hk|Hk]; [auto|]. right.
      eapply sentence_domain_in_order, Hk.
Qed.
End ThemesV1.

(** X21: in the first version a sentence has every theme of the thematic
    map of which a keyword, lowered, occurs in the lowered sentence, and
    ["General"] alone when there is none; no theme twice.  The bucket of a
    theme holds exactly the sentences that have the theme, in the order of
    the corpus, and every bucket belongs to a theme of [domain_order], so
    that no bucket is out of reach of the summary and the inventories. *)
Theorem X21_v1_themes_and_buckets (sentences : list string) (domain : string) :
  let buckets := V1.domain_buckets sentences in
  let hit d s :=
    ∃ kws kw, (d, kws) ∈ V1.THEMATIC_MAP ∧ kw ∈ kws ∧
              Spec.occurs_in (Text.lower kw) (Text.lower s) in
  (∀ s, NoDup (V1.sentence_domain s) ∧
        (domain ∈ V1.sentence_domain s ↔
         hit domain s ∨ (domain = "General" ∧ ¬ ∃ d, hit d s))) ∧
  default [] (Py.assoc domain buckets)
    = filter (λ s, domain ∈ V1.sentence_domain s) sentences ∧
  NoDup buckets.*1 ∧
  (∀ d, d ∈ buckets.*1 → d ∈ V1.domain_order).
Proof.
  intros buckets hit. split.
  - intros s. split; [apply sentence_domain_NoDup | apply sentence_domain_spec].
  - destruct (V1_domain_buckets_from sentences domain [] NoDup_nil_2) as (H1 & H2 & H3).
    cbn zeta in *. split; [exact H1|]. split; [exact H2|].
    intros d [Hd|Hd]%H3; [inversion Hd | exact Hd].
Qed.

(** ** The report of the first version *)

Section ReportV1.
Implicit Types (d : V1.pydict) (h : V1.store).

Lemma deref_seq (vals : list (list V1.item)) : ∀ h,
  (λ l, V1.deref (h ++ vals) l) <$> seq (length h) (length vals) = vals.
Proof.
  induction vals as [|v vals IH]; intros h; [reflexivity|].
  cbn [length seq]. rewrite fmap_cons. f_equal.
  - unfold V1.deref. rewrite list_lookup_middle by reflexivity. reflexivity.
  - specialize (IH (h ++ [v])). rewrite length_app, Nat.add_1_r in IH.
    rewrite <- app_assoc in IH. exact IH.
Qed.

(** The copy of a dictionary whose lists are in the store: the same keys,
    fresh addresses, and behind them the lists as they are. *)
Lemma copy_dict_spec d : ∀ h,
  (∀ l, l ∈ d.*2 → l < length h) →
  (V1.copy_dict d h).1.*2 = seq (length h) (length d) ∧
  (V1.copy_dict d h).2 = h ++ (V1.deref h <$> d.*2).
Proof.
  induction d as [|[k l] d IH]; intros h Hin.
  - simpl. rewrite app_nil_r. auto.
  - cbn [V1.copy_dict].
    destruct (IH (h ++ [V1.deref h l])) as [IH1 IH2].
    { intros l' Hl'. rewrite length_app. simpl.
      assert (l' < length h) by (apply Hin; rewrite fmap_cons; right; exact Hl'). lia. }
    destruct (V1.copy_dict d (h ++ [V1.deref h l])) as [c h'].
    cbn [fst snd] in *. rewrite !fmap_cons. cbn [fst snd length seq].
    rewrite IH1, IH2, length_app. cbn [length].
    rewrite Nat.add_1_r. split; [reflexivity|].
    rewrite <- app_assoc. cbn [app]. do 2 f_equal.
    apply list_fmap_ext. intros i l' Hl'.
    unfold V1.deref. rewrite lookup_app_l; [reflexivity|].
    apply Hin. rewrite fmap_cons. right. eapply list_elem_of_lookup_2, Hl'.
Qed.

Lemma pool_sentences_addresses d h :
  Spec.pool_sentences d h = concat ((λ l, (V1.deref h l).*1) <$> d.*2).
Proof.
  unfold Spec.pool_sentences. rewrite <- list_fmap_compose. reflexivity.
Qed.

Lemma copy_dict_pool d h :
  (∀ l, l ∈ d.*2 → l < length h) →
  NoDup (V1.copy_dict d h).1.*2 ∧
  Spec.pool_sentences (V1.copy_dict d h).1 (V1.copy_dict d h).2
  = Spec.pool_sentences d h.
Proof.
  intros Hin. destruct (copy_dict_spec d h Hin) as [H1 H2]. split.
  - rewrite H1. apply NoDup_seq.
  - rewrite !pool_sentences_addresses, H1, H2.
    set (vals := V1.deref h <$> d.*2).
    assert (Hlen : length d = length vals) by (unfold vals; rewrite !length_fmap; reflexivity).
    rewrite Hlen. f_equal.
    transitivity ((λ pool : list V1.item, pool.*1) <$> vals).
    + rewrite <- (deref_seq vals h) at 2. rewrite <- list_fmap_compose. reflexivity.
    + unfold vals. rewrite <- list_fmap_compose. reflexivity.
Qed.

(** The pools of [rank_buckets]: the list at the address of a bucket is
    the ranking of that bucket. *)
Lemma rank_buckets_elem_of (buckets : list (string * list string)) k l :
  (k, l) ∈ (V1.rank_buckets buckets).1 →
  l < length (V1.rank_buckets buckets).2 ∧
  ∃ bucket, (k, bucket) ∈ buckets ∧
            V1.deref (V1.rank_buckets buckets).2 l = V1.rank_sentences bucket 50.
Proof.
  unfold V1.rank_buckets. simpl.
  intros (i & [k' bucket] & [= -> ->] & Hi)%elem_of_lookup_imap. simpl.
  split; [rewrite length_fmap; eapply lookup_lt_Some, Hi|].
  exists bucket. split; [eapply list_elem_of_lookup_2, Hi|].
  unfold V1.deref. rewrite list_lookup_fmap, Hi. reflexivity.
Qed.

Lemma rank_buckets_keys (buckets : list (string * list string)) :
  (V1.rank_buckets buckets).1.*1 = buckets.*1.
Proof.
  unfold V1.rank_buckets. simpl. rewrite fmap_imap.
  rewrite (imap_ext _ (λ _ bucket, bucket.1)) by reflexivity.
  apply imap_const.
Qed.

Lemma assoc_None {B} (l : list (string * B)) k :
  Py.assoc k l = None ↔ k ∉ l.*1.
Proof.
  induction l as [|[k' v] l IH]; simpl.
  - split; [intros _ H; inversion H | reflexivity].
  - rewrite not_elem_of_cons. destruct (String.eqb k k') eqn:Hk.
    + apply String.eqb_eq in Hk as ->. split; [discriminate | intros [? _]; congruence].
    + apply String.eqb_neq in Hk. rewrite IH. tauto.
Qed.

Lemma rank_sentences_nil top_k : V1.rank_sentences [] top_k = [].
Proof.
  unfold V1.rank_sentences. simpl. rewrite bool_decide_eq_true_2 by reflexivity.
  unfold Py.slice_to. destruct (bool_decide _); rewrite take_nil; reflexivity.
Qed.

Lemma rank_sentences_nonempty sentences :
  sentences ≠ [] → V1.rank_sentences sentences 50 ≠ [].
Proof.
  intros Hne Hnil. apply (f_equal length) in Hnil. revert Hnil.
  unfold V1.rank_sentences. cbn zeta. unfold Py.slice_to.
  rewrite !(bool_decide_eq_true_2 (0 ≤ 50)%Z) by lia.
  destruct (bool_decide (_ = ∅)).
  - rewrite length_fmap, length_take. destruct sentences; [contradiction|].
    simpl. lia.
  - rewrite length_take, sort_by_score_desc_perm, length_fmap.
    destruct sentences; [contradiction|]. simpl. lia.
Qed.

Lemma rank_buckets_get (buckets : list (string * list string)) k :
  NoDup buckets.*1 →
  V1.dict_get (V1.rank_buckets buckets).1 (V1.rank_buckets buckets).2 k
  = V1.rank_sentences (default [] (Py.assoc k buckets)) 50.
Proof.
  intros Hnd. unfold V1.dict_get.
  destruct (Py.assoc k (V1.rank_buckets buckets).1) as [l|] eqn:Hassoc.
  - apply assoc_elem_of in Hassoc; [|rewrite rank_buckets_keys; exact Hnd].
    apply rank_buckets_elem_of in Hassoc as (_ & bucket & Hin & ->).
    apply assoc_elem_of in Hin; [|exact Hnd]. rewrite Hin. reflexivity.
  - apply assoc_None in Hassoc. rewrite rank_buckets_keys in Hassoc.
    apply assoc_None in Hassoc. rewrite Hassoc. simpl.
    symmetry. apply rank_sentences_nil.
Qed.
End ReportV1.

(** X22: the report of the first version.  Its canonical sentences are
    sentences of the corpus, at most [target_sentences] of them (none for a
    target that is not positive).  A theme has an inventory exactly when
    some sentence of the corpus has the theme; the inventory lists at most
    ten sentences that have the theme, none twice, whatever the sampling
    took. *)
Theorem X22_v1_report_lists_corpus_sentences
    (all_texts : list string) (target_sentences : Z) :
  let report := V1.build_report all_texts target_sentences in
  let sentences :=
    V1.split_sentences
      (Py.join (String "010"%char (String "010"%char EmptyString)) all_texts) in
  V1.sentences_total report = length sentences ∧
  (Z.of_nat (length (V1.canonical_100_sentences report))
     ≤ 0 `max` target_sentences)%Z ∧
  (∀ s, s ∈ V1.canonical_100_sentences report → s ∈ sentences) ∧
  (∀ domain items, (domain, items) ∈ V1.inventories_of report →
     domain ∈ V1.domain_order ∧ NoDup items ∧ length items ≤ 10 ∧
     ∀ s, s ∈ items → s ∈ sentences ∧ domain ∈ V1.sentence_domain s) ∧
  (∀ domain, domain ∈ (V1.inventories_of report).*1 ↔
             ∃ s, s ∈ sentences ∧ domain ∈ V1.sentence_domain s).
Proof.
  intros report sentences. unfold report, V1.build_report. fold sentences.
  set (buckets := V1.domain_buckets sentences).
  pose proof (λ domain, V1_domain_buckets_from sentences domain [] NoDup_nil_2)
    as Hbuckets. cbn zeta in Hbuckets. fold (V1.domain_buckets sentences) in Hbuckets.
  fold buckets in Hbuckets.
  assert (Hnd : NoDup buckets.*1) by (apply (Hbuckets "")).
  assert (Hbucket : ∀ k bucket s, (k, bucket) ∈ buckets → s ∈ bucket →
            s ∈ sentences ∧ k ∈ V1.sentence_domain s).
  { intros k bucket s Hin Hs. apply assoc_elem_of in Hin; [|exact Hnd].
    destruct (Hbuckets k) as [Hk _]. rewrite Hin in Hk. simpl in Hk.
    rewrite Hk in Hs. apply list_elem_of_filter in Hs. tauto. }
  pose proof (rank_buckets_elem_of buckets) as Hranked.
  pose proof (rank_buckets_get buckets) as Hget.
  destruct (V1.rank_buckets buckets) as [domain_ranked h] eqn:Hrb.
  simpl in Hranked, Hget.
  assert (Hin : ∀ l, l ∈ domain_ranked.*2 → l < length h).
  { intros l ([k l'] & -> & Hl)%list_elem_of_fmap. apply (Hranked k l' Hl). }
  assert (Hpool : ∀ s, s ∈ Spec.pool_sentences domain_ranked h → s ∈ sentences).
  { intros s (ss & Hs & ([k l] & -> & Hkl)%list_elem_of_fmap)%elem_of_concat.
    simpl in Hs. destruct (Hranked k l Hkl) as (_ & bucket & Hb & Hderef).
    rewrite Hderef in Hs. apply list_elem_of_fmap in Hs as ([s' score] & -> & Hs).
    apply V1_rank_sentences_spec in Hs as [Hs _]. simpl.
    apply (Hbucket k bucket s' Hb Hs). }
  pose proof (V1_inventories_after_sampling domain_ranked target_sentences h Hin)
    as Hinv.
  unfold V1.canonical_step in *.
  destruct (copy_dict_pool domain_ranked h Hin) as [Hcopy_nd Hcopy_pool].
  destruct (V1.copy_dict domain_ranked h) as [domain_ranked_copy h1].
  simpl in Hcopy_nd, Hcopy_pool.
  destruct (balanced_sample_spec domain_ranked_copy target_sentences h1 Hcopy_nd)
    as (Hlen & _ & Hsub).
  destruct (V1.balanced_sample domain_ranked_copy target_sentences h1)
    as [canonical h2].
  simpl in Hlen, Hsub, Hinv. simpl.
  split; [reflexivity|]. split; [exact Hlen|]. split.
  { intros s Hs. apply Hpool. rewrite <- Hcopy_pool. apply Hsub, Hs. }
  rewrite Hinv.
  assert (Hitems : ∀ domain s, s ∈ (V1.dict_get domain_ranked h domain).*1 →
            s ∈ sentences ∧ domain ∈ V1.sentence_domain s).
  { intros domain s Hs. rewrite (Hget domain Hnd) in Hs.
    apply list_elem_of_fmap in Hs as ([s' score] & -> & Hs).
    apply V1_rank_sentences_spec in Hs as [Hs _]. simpl.
    destruct (Hbuckets domain) as [Hk _]. simpl in Hk. rewrite Hk in Hs.
    apply list_elem_of_filter in Hs. tauto. }
  split.
  - intros domain items (d & Hd & Hsome)%list_elem_of_omap.
    destruct (V1.dict_get domain_ranked h d) as [|x pool] eqn:Hp;
      [simpl in Hsome; discriminate|].
    pose proof (inventory_of_loop_v1 (x :: pool) ltac:(discriminate))
      as (_ & Hten & Hnodup & Hfrom & _).
    destruct (V1.inventory_loop (x :: pool) [] []) as [|item0 items0] eqn:Hloop;
      [discriminate|].
    injection Hsome as <- <-.
    split; [exact Hd|]. split; [exact Hnodup|]. split; [exact Hten|].
    intros s Hs. apply Hitems. rewrite Hp. apply Hfrom, Hs.
  - intros domain. rewrite list_elem_of_fmap. split.
    + intros ([d items] & -> & (d' & Hd' & Hsome)%list_elem_of_omap). simpl.
      destruct (V1.dict_get domain_ranked h d') as [|x pool] eqn:Hp;
        [simpl in Hsome; discriminate|].
      destruct (V1.inventory_loop (x :: pool) [] []) as [|item0 items0] eqn:Hloop;
      [discriminate|].
      injection Hsome as -> <-.
      destruct x as [s score]. exists s. apply Hitems. rewrite Hp. left.
    + intros (s & Hs & Hdom).
      assert (Hne : V1.dict_get domain_ranked h domain ≠ []).
      { rewrite (Hget domain Hnd). apply rank_sentences_nonempty.
        destruct (Hbuckets domain) as [Hk _]. simpl in Hk. rewrite Hk. intros Hnil.
        assert (s ∈ filter (λ s, domain ∈ V1.sentence_domain s) sentences) as H
          by (apply list_elem_of_filter; auto).
        rewrite Hnil in H. inversion H. }
      pose proof (inventory_of_loop_v1 _ Hne) as [Hitems' _].
      exists (domain, V1.inventory_loop (V1.dict_get domain_ranked h domain) [] []).
      split; [reflexivity|]. apply list_elem_of_omap. exists domain.
      split; [eapply sentence_domain_in_order, Hdom|].
      destruct (V1.inventory_loop (V1.dict_get domain_ranked h domain) [] [])
        as [|item0 items0]; [contradiction | reflexivity].
Qed.

(** ** The order of the themes in the third version *)

Section ThemeOrder.

Lemma insert_sorted_unique x l :
  x ∉ l → Py.insert_sorted x l = Py.insert_unique x l.
Proof.
  induction l as [|y l IH]; intros Hx; [reflexivity|].
  apply not_elem_of_cons in Hx as [Hne Hx]. simpl.
  destruct (String.compare x y) eqn:Hc.
  - apply String.compare_eq_iff in Hc. contradiction.
  - reflexivity.
  - rewrite IH by exact Hx. reflexivity.
Qed.

Lemma sorted_sorted_set l : NoDup l → Py.sorted l = Py.sorted_set l.
Proof.
  induction 1 as [|x l Hx Hl IH]; [reflexivity|].
  simpl. rewrite IH. apply insert_sorted_unique.
  intros Hin%elem_of_sorted_set. contradiction.
Qed.

Lemma strongly_sorted_filter {B} (R : relation B) (P : B → Prop)
    `{∀ x, Decision (P x)} (l : list B) :
  StronglySorted R l → StronglySorted R (filter P l).
Proof.
  induction 1 as [|x l Hl IH Hx]; [constructor|].
  rewrite filter_cons. destruct (decide (P x)); [|exact IH].
  constructor; [exact IH|]. apply Forall_forall.
  intros y [_ Hy]%list_elem_of_filter. rewrite Forall_forall in Hx. auto.
Qed.
End ThemeOrder.

(** X23: the order in which [build_report] of the third version goes
    through the themes: first the themes of the thematic map, in its order
    and whether or not a sentence has them, then the other bucket names in
    increasing order; every bucket is met, and no theme twice. *)
Theorem X23_v3_domain_order_covers_every_bucket
    (thematic_keys bucket_keys : list string) :
  NoDup thematic_keys → NoDup bucket_keys →
  let order := V3.domain_order thematic_keys bucket_keys in
  NoDup order ∧
  (∀ d, d ∈ order ↔ d ∈ thematic_keys ∨ d ∈ bucket_keys) ∧
  ∃ others,
    order = thematic_keys ++ others ∧
    StronglySorted Spec.string_lt others ∧
    ∀ d, d ∈ others ↔ d ∈ bucket_keys ∧ d ∉ thematic_keys.
Proof.
  intros Ht Hb order.
  assert (Hothers : ∀ d, d ∈ filter (λ d, d ∉ thematic_keys) (Py.sorted bucket_keys)
                         ↔ d ∈ bucket_keys ∧ d ∉ thematic_keys).
  { intros d. rewrite list_elem_of_filter, sorted_perm. tauto. }
  split; [apply V3_domain_order_NoDup; assumption|]. split.
  - intros d. unfold order, V3.domain_order. rewrite elem_of_app, Hothers.
    destruct (decide (d ∈ thematic_keys)); tauto.
  - exists (filter (λ d, d ∉ thematic_keys) (Py.sorted bucket_keys)).
    split; [reflexivity|]. split; [|exact Hothers].
    apply strongly_sorted_filter. rewrite sorted_sorted_set by exact Hb.
    apply sorted_set_sorted.
Qed.

Lemma X23_v3_domain_order_witness :
  NoDup (V3.domain_order ["Runtime"; "Docs"] ["General"; "Docs"; "Audit"]) ∧
  "Audit" ∈ V3.domain_order ["Runtime"; "Docs"] ["General"; "Docs"; "Audit"].
Proof.
  destruct (X23_v3_domain_order_covers_every_bucket
              ["Runtime"; "Docs"] ["General"; "Docs"; "Audit"])
    as (Hnd & Hin & _).
  - apply (bool_decide_unpack _). vm_compute. exact I.
  - apply (bool_decide_unpack _). vm_compute. exact I.
  - split; [exact Hnd|]. apply Hin. right. right. right. left.
Defined.

(** ** Letter case and the tokenizers *)

Section TokenCase.
Import Text.

Lemma lower_snoc cur c : lower (snoc cur c) = snoc (lower cur) (lower_char c).
Proof.
  unfold snoc. induction cur as [|d cur IH]; [reflexivity|].
  change (String (lower_char d) (lower (cur +:+ String c EmptyString))
          = String (lower_char d) (lower cur +:+ String (lower_char c) EmptyString)).
  rewrite IH. reflexivity.
Qed.

Lemma emit_lower cur : emit (lower cur) = lower <$> emit cur.
Proof. destruct cur; reflexivity. Qed.

(** A character class that does not tell a capital from its small letter
    finds the same runs in the lowered text, lowered. *)
Lemma findall_runs_lower p s : (∀ c, p (lower_char c) = p c) → ∀ cur,
  findall_runs p (lower cur) (lower s) = lower <$> findall_runs p cur s.
Proof.
  intros Hp. induction s as [|c s IH]; intros cur.
  - apply emit_lower.
  - cbn [lower findall_runs]. rewrite Hp. destruct (p c).
    + rewrite <- lower_snoc. apply IH.
    + rewrite fmap_app, emit_lower. f_equal. apply (IH EmptyString).
Qed.

Lemma Orbit_token_char_lower c :
  Orbit.token_char (lower_char c) = Orbit.token_char c.
Proof. destruct c as [[] [] [] [] [] [] [] []]; reflexivity. Qed.

Lemma filter_fmap_lower (P : string → Prop) `{∀ x, Decision (P x)} (l : list string) :
  filter P (lower <$> l) = lower <$> filter (λ t, P (lower t)) l.
Proof.
  induction l as [|x l IH]; [reflexivity|].
  rewrite fmap_cons, !filter_cons, IH.
  destruct (decide (P (lower x))); reflexivity.
Qed.

Lemma Orbit_tokenize_lower text :
  Orbit.tokenize (lower text) = Orbit.tokenize text.
Proof.
  unfold Orbit.tokenize, findall_class.
  pose proof (findall_runs_lower Orbit.token_char text Orbit_token_char_lower
                EmptyString) as Hruns.
  change (lower EmptyString) with EmptyString in Hruns. rewrite Hruns. clear Hruns.
  rewrite filter_fmap_lower, <- list_fmap_compose.
  induction (findall_runs Orbit.token_char EmptyString text) as [|t l IH];
    [reflexivity|].
  rewrite !filter_cons.
  destruct (decide (lower (lower t) ∉ Orbit.STOPWORDS)) as [Hin|Hnot];
    rewrite lower_idempotent in *.
  - rewrite decide_True by exact Hin. rewrite !fmap_cons, IH. simpl.
    rewrite lower_idempotent. reflexivity.
  - rewrite decide_False by exact Hnot. exact IH.
Qed.
End TokenCase.

(** X24: on ASCII text the tokenizers do not tell capitals from small
    letters: two ASCII texts that are equal once lowered have the same
    tokens, in each of the three scripts; and the tokenizers of
    [account_summarizer.py] and of [account_summarizer_v3.py] give the same
    tokens for such a text.  (Outside ASCII [str.lower] can turn a character
    that the scanner of [scripts/account_summarizer.py] skips, as the
    Kelvin sign, into a letter that it reads.) *)
Theorem X24_tokenizers_ignore_letter_case (text text' : string) :
  Text.is_ascii text = true → Text.is_ascii text' = true →
  Text.lower text = Text.lower text' →
  V1.tokenize text = V1.tokenize text' ∧
  V3.tokenize text = V3.tokenize text' ∧
  Orbit.tokenize text = Orbit.tokenize text' ∧
  V1.tokenize text = V3.tokenize text.
Proof.
  intros _ _ Heq. split; [|split; [|split]].
  - unfold V1.tokenize. rewrite Heq. reflexivity.
  - unfold V3.tokenize. rewrite Heq. reflexivity.
  - rewrite <- (Orbit_tokenize_lower text), <- (Orbit_tokenize_lower text'), Heq.
    reflexivity.
  - reflexivity.
Qed.

Lemma X24_tokenizers_witness :
  Orbit.tokenize "The KERNEL Api v1.2" = Orbit.tokenize "the kernel API V1.2".
Proof.
  apply (X24_tokenizers_ignore_letter_case "The KERNEL Api v1.2" "the kernel API V1.2").
  - reflexivity.
  - reflexivity.
  - reflexivity.
Defined.
